(** * schemago: the schema model of the linter, and the lint rules

    The development follows the repository:
    - [Json]    the part of Go's [encoding/json] the schema decoders call
                ([json.Unmarshal] into the Go types the decoders use);
    - [SchemaV1] the schema model of [src/linter/schema.go];
    - [SchemaV2] the schema model of [src/unnamed/part_001], which adds
                boolean schemas and [type] arrays;
    - [Linter]  the rule engine the tests of [src/linter/schema.go] drive. *)

From Stdlib Require Import List String Ascii Bool ZArith Lia Arith DecimalString.
Import ListNotations.

Local Open Scope string_scope.
Local Open Scope list_scope.

(** ** JSON values and [encoding/json] *)

Module Json.

(** A JSON value.  A number keeps its literal text (Go turns it into a
    float64; only whether that conversion succeeds is modelled, see
    [float64_ok]).  An object keeps its members in document order,
    repeated names included, as the decoder meets them. *)
Unset Elimination Schemes.
Inductive json : Type :=
| JNull
| JBool (b : bool)
| JNumber (lit : string)
| JString (s : string)
| JArray (elems : list json)
| JObject (members : list (string * json)).
Set Elimination Schemes.

(** Errors of [json.Unmarshal]. *)
Inductive error : Type :=
| SyntaxError
| UnmarshalTypeError.

(** *** Text to value: the scanner *)

Definition is_space (c : ascii) : bool :=
  match c with
  | " "%char | "009"%char | "010"%char | "013"%char => true
  | _ => false
  end.

Fixpoint skip_space (s : string) : string :=
  match s with
  | String c r => if is_space c then skip_space r else s
  | EmptyString => s
  end.

Definition is_digit (c : ascii) : bool :=
  let n := nat_of_ascii c in (48 <=? n)%nat && (n <=? 57)%nat.

Definition hex_val (c : ascii) : option Z :=
  let n := Z.of_nat (nat_of_ascii c) in
  if (48 <=? n)%Z && (n <=? 57)%Z then Some (n - 48)%Z
  else if (97 <=? n)%Z && (n <=? 102)%Z then Some (n - 87)%Z
  else if (65 <=? n)%Z && (n <=? 70)%Z then Some (n - 55)%Z
  else None.

(** [getu4]: the value of four hexadecimal digits. *)
Definition getu4 (a b c d : ascii) : option Z :=
  match hex_val a, hex_val b, hex_val c, hex_val d with
  | Some x, Some y, Some z, Some w => Some (((x * 16 + y) * 16 + z) * 16 + w)%Z
  | _, _, _, _ => None
  end.

(** The pieces of a string literal: a byte of the text, or the code unit
    of a [\u] escape. *)
Inductive piece : Type :=
| Raw (c : ascii)
| Unit16 (u : Z).

(** The character a two-character escape stands for. *)
Definition escape_char (e : ascii) : option ascii :=
  if Ascii.eqb e "034" then Some "034"%char
  else if Ascii.eqb e "\" then Some "\"%char
  else if Ascii.eqb e "/" then Some "/"%char
  else if Ascii.eqb e "b" then Some "008"%char
  else if Ascii.eqb e "f" then Some "012"%char
  else if Ascii.eqb e "n" then Some "010"%char
  else if Ascii.eqb e "r" then Some "013"%char
  else if Ascii.eqb e "t" then Some "009"%char
  else None.

(** Scans the text after an opening quote up to the closing quote. *)
Fixpoint scan_string (s : string) : option (list piece * string) :=
  match s with
  | EmptyString => None
  | String c r =>
      if Ascii.eqb c "034" then Some ([], r)
      else if Ascii.eqb c "\" then
        match r with
        | EmptyString => None
        | String e r1 =>
            match escape_char e with
            | Some x =>
                match scan_string r1 with
                | Some (ps, r') => Some (Raw x :: ps, r')
                | None => None
                end
            | None =>
                if Ascii.eqb e "u" then
                  match r1 with
                  | String h1 (String h2 (String h3 (String h4 r4))) =>
                      match getu4 h1 h2 h3 h4, scan_string r4 with
                      | Some u, Some (ps, r') => Some (Unit16 u :: ps, r')
                      | _, _ => None
                      end
                  | _ => None
                  end
                else None
            end
        end
      else if (nat_of_ascii c <? 32)%nat then None
      else
        match scan_string r with
        | Some (ps, r') => Some (Raw c :: ps, r')
        | None => None
        end
  end.

Definition byte_of_Z (n : Z) : ascii := ascii_of_nat (Z.to_nat n).

(** [utf8.EncodeRune]; a surrogate or out-of-range rune is written as
    U+FFFD. *)
Definition encode_rune (r : Z) : list ascii :=
  let r := if ((55296 <=? r) && (r <=? 57343) || (r <? 0) || (1114111 <? r))%Z
           then 65533%Z else r in
  if (r <? 128)%Z then [byte_of_Z r]
  else if (r <? 2048)%Z then
    [byte_of_Z (192 + r / 64); byte_of_Z (128 + r mod 64)]
  else if (r <? 65536)%Z then
    [byte_of_Z (224 + r / 4096); byte_of_Z (128 + (r / 64) mod 64);
     byte_of_Z (128 + r mod 64)]
  else
    [byte_of_Z (240 + r / 262144); byte_of_Z (128 + (r / 4096) mod 64);
     byte_of_Z (128 + (r / 64) mod 64); byte_of_Z (128 + r mod 64)].

Definition is_high_surrogate (u : Z) : bool := ((55296 <=? u) && (u <? 56320))%Z.
Definition is_low_surrogate (u : Z) : bool := ((56320 <=? u) && (u <? 57344))%Z.

(** A continuation byte of the text within [lo..hi]. *)
Definition continues (lo hi : nat) (p : piece) : bool :=
  match p with
  | Raw d => ((lo <=? nat_of_ascii d) && (nat_of_ascii d <=? hi))%nat
  | Unit16 _ => false
  end.

(** [utf8.DecodeRune] on a byte of the text that is not ASCII: the
    number of bytes of the well-formed encoding that begins with [c],
    or 0 when there is none (the table [first] and the accept ranges of
    [unicode/utf8]: no overlong form, no surrogate, nothing above
    U+10FFFF).  The character of an escape is ASCII, so it never
    continues an encoding. *)
Definition rune_size (c : ascii) (r : list piece) : nat :=
  let n := nat_of_ascii c in
  let '(size, lo, hi) :=
    if (n <? 194)%nat then (0, 0, 0)%nat
    else if (n <=? 223)%nat then (2, 128, 191)%nat
    else if (n =? 224)%nat then (3, 160, 191)%nat
    else if (n <=? 236)%nat then (3, 128, 191)%nat
    else if (n =? 237)%nat then (3, 128, 159)%nat
    else if (n <=? 239)%nat then (3, 128, 191)%nat
    else if (n =? 240)%nat then (4, 144, 191)%nat
    else if (n <=? 243)%nat then (4, 128, 191)%nat
    else if (n =? 244)%nat then (4, 128, 143)%nat
    else (0, 0, 0)%nat in
  match r with
  | p1 :: r1 =>
      if negb (continues lo hi p1) then 0%nat
      else if (size =? 2)%nat then 2%nat
      else
        match r1 with
        | p2 :: r2 =>
            if negb (continues 128 191 p2) then 0%nat
            else if (size =? 3)%nat then 3%nat
            else
              match r2 with
              | p3 :: _ => if continues 128 191 p3 then size else 0%nat
              | [] => 0%nat
              end
        | [] => 0%nat
        end
  | [] => 0%nat
  end.

(** [unquote]: the bytes of the string a literal denotes.  Two adjacent
    escapes that form a surrogate pair give one rune; a lone surrogate
    gives U+FFFD.  The text is coerced to well-formed UTF-8: a byte that
    begins no well-formed encoding is replaced by U+FFFD, and a
    well-formed encoding is copied. *)
Fixpoint unquote (ps : list piece) : list ascii :=
  match ps with
  | [] => []
  | Raw c :: r =>
      if (nat_of_ascii c <? 128)%nat then c :: unquote r
      else
        match r with
        | Raw d1 :: r1 =>
            if (rune_size c r =? 2)%nat then c :: d1 :: unquote r1
            else
              match r1 with
              | Raw d2 :: r2 =>
                  if (rune_size c r =? 3)%nat then c :: d1 :: d2 :: unquote r2
                  else
                    match r2 with
                    | Raw d3 :: r3 =>
                        if (rune_size c r =? 4)%nat
                        then c :: d1 :: d2 :: d3 :: unquote r3
                        else encode_rune 65533 ++ unquote r
                    | _ => encode_rune 65533 ++ unquote r
                    end
              | _ => encode_rune 65533 ++ unquote r
              end
        | _ => encode_rune 65533 ++ unquote r
        end
  | Unit16 hi :: r =>
      match r with
      | Unit16 lo :: r' =>
          if is_high_surrogate hi && is_low_surrogate lo
          then encode_rune (65536 + (hi - 55296) * 1024 + (lo - 56320))%Z
                 ++ unquote r'
          else encode_rune hi ++ unquote r
      | _ => encode_rune hi ++ unquote r
      end
  end.

Definition parse_string (s : string) : option (string * string) :=
  match scan_string s with
  | Some (ps, r) => Some (string_of_list_ascii (unquote ps), r)
  | None => None
  end.

(** Numbers: the longest run of number characters is taken and checked
    against the number grammar of RFC 8259: an optional minus, an integer
    part without a leading zero (unless it is the single digit 0), an
    optional fraction, an optional exponent. *)
Definition is_number_char (c : ascii) : bool :=
  is_digit c ||
  match c with
  | "-"%char | "+"%char | "."%char | "e"%char | "E"%char => true
  | _ => false
  end.

Fixpoint span_number (s : string) : string * string :=
  match s with
  | String c r =>
      if is_number_char c
      then let '(n, r') := span_number r in (String c n, r')
      else (EmptyString, s)
  | EmptyString => (EmptyString, EmptyString)
  end.

Fixpoint all_digits (s : string) : bool :=
  match s with
  | EmptyString => true
  | String c r => is_digit c && all_digits r
  end.

Fixpoint span_digits (s : string) : string * string :=
  match s with
  | String c r =>
      if is_digit c
      then let '(n, r') := span_digits r in (String c n, r')
      else (EmptyString, s)
  | EmptyString => (EmptyString, EmptyString)
  end.

Definition nonempty (s : string) : bool :=
  match s with EmptyString => false | _ => true end.

(** The three parts of a number literal: integer digits, fraction digits
    and the signed exponent text; [None] when the text is no number. *)
Definition split_number (s : string) : option (bool * string * string * option (bool * string)) :=
  let '(neg, s) := match s with
                   | String "-"%char r => (true, r)
                   | _ => (false, s)
                   end in
  let '(int, s) := span_digits s in
  let int_ok := match int with
                | EmptyString => false
                | String "0"%char EmptyString => true
                | String "0"%char _ => false
                | _ => true
                end in
  if negb int_ok then None else
  let frac_rest :=
    match s with
    | String "."%char r =>
        let '(fr, r') := span_digits r in
        if nonempty fr then Some (fr, r') else None
    | _ => Some (EmptyString, s)
    end in
  match frac_rest with
  | None => None
  | Some (fr, s) =>
      match s with
      | EmptyString => Some (neg, int, fr, None)
      | String c r =>
          match c with
          | "e"%char | "E"%char =>
              let '(eneg, r) := match r with
                                | String "-"%char r' => (true, r')
                                | String "+"%char r' => (false, r')
                                | _ => (false, r)
                                end in
              if nonempty r && all_digits r
              then Some (neg, int, fr, Some (eneg, r))
              else None
          | _ => None
          end
      end
  end.

Definition valid_number (s : string) : bool :=
  match split_number s with Some _ => true | None => false end.

(** [maxNestingDepth] of the scanner. *)
Definition maxNestingDepth : Z := 10000.

(** What follows the prefix [p] in [s]. *)
Fixpoint starts_with (p s : string) : option string :=
  match p with
  | EmptyString => Some s
  | String a p' =>
      match s with
      | String b s' => if Ascii.eqb a b then starts_with p' s' else None
      | EmptyString => None
      end
  end.

(** What follows the character [c], white space skipped, when it is the
    next one. *)
Definition next_is (c : ascii) (s : string) : option string :=
  match skip_space s with
  | String c' r => if Ascii.eqb c' c then Some r else None
  | EmptyString => None
  end.

Definition literal (v : json) (word rest : string) : option (json * string) :=
  match starts_with word rest with
  | Some r => Some (v, r)
  | None => None
  end.

(** One value, and what follows it.  [fuel] bounds the recursion (see
    [parse_fuel_enough]); [depth] is the number of arrays and objects
    still open. *)
Fixpoint parse_value (fuel : nat) (depth : Z) (s : string) {struct fuel}
  : option (json * string) :=
  match fuel with
  | O => None
  | S fuel =>
      match skip_space s with
      | EmptyString => None
      | String c r =>
          if Ascii.eqb c "n" then literal JNull "ull" r
          else if Ascii.eqb c "t" then literal (JBool true) "rue" r
          else if Ascii.eqb c "f" then literal (JBool false) "alse" r
          else if Ascii.eqb c "034" then
            match parse_string r with
            | Some (str, r') => Some (JString str, r')
            | None => None
            end
          else if Ascii.eqb c "[" then
            if (maxNestingDepth <=? depth)%Z then None
            else
              match next_is "]" r with
              | Some r' => Some (JArray [], r')
              | None =>
                  match parse_elems fuel (depth + 1) r with
                  | Some (vs, r') => Some (JArray vs, r')
                  | None => None
                  end
              end
          else if Ascii.eqb c "{" then
            if (maxNestingDepth <=? depth)%Z then None
            else
              match next_is "}" r with
              | Some r' => Some (JObject [], r')
              | None =>
                  match parse_members fuel (depth + 1) r with
                  | Some (ms, r') => Some (JObject ms, r')
                  | None => None
                  end
              end
          else
            let '(n, r') := span_number (String c r) in
            if valid_number n then Some (JNumber n, r') else None
      end
  end

with parse_elems (fuel : nat) (depth : Z) (s : string) {struct fuel}
  : option (list json * string) :=
  match fuel with
  | O => None
  | S fuel =>
      match parse_value fuel depth s with
      | None => None
      | Some (v, r) =>
          match next_is "," r with
          | Some r' =>
              match parse_elems fuel depth r' with
              | Some (vs, r'') => Some (v :: vs, r'')
              | None => None
              end
          | None =>
              match next_is "]" r with
              | Some r' => Some ([v], r')
              | None => None
              end
          end
      end
  end

with parse_members (fuel : nat) (depth : Z) (s : string) {struct fuel}
  : option (list (string * json) * string) :=
  match fuel with
  | O => None
  | S fuel =>
      match next_is "034" s with
      | None => None
      | Some r =>
          match parse_string r with
          | None => None
          | Some (k, r1) =>
              match next_is ":" r1 with
              | None => None
              | Some r2 =>
                  match parse_value fuel depth r2 with
                  | None => None
                  | Some (v, r3) =>
                      match next_is "," r3 with
                      | Some r4 =>
                          match parse_members fuel depth r4 with
                          | Some (ms, r5) => Some ((k, v) :: ms, r5)
                          | None => None
                          end
                      | None =>
                          match next_is "}" r3 with
                          | Some r4 => Some ([(k, v)], r4)
                          | None => None
                          end
                      end
                  end
              end
          end
      end
  end.

(** [checkValid] and the value the text denotes: one value, surrounded by
    white space only. *)
Definition parse (data : string) : option json :=
  match parse_value (2 * String.length data + 2) 0 data with
  | Some (v, r) =>
      match skip_space r with
      | EmptyString => Some v
      | _ => None
      end
  | None => None
  end.

(** The JSON texts of this file are written with an apostrophe where
    the document has a double quote; [text] puts the quotes back. *)
Fixpoint text (s : string) : string :=
  match s with
  | EmptyString => EmptyString
  | String c r => String (if Ascii.eqb c "'"%char then "034"%char else c) (text r)
  end.

(** *** Numbers held by an [any]

    A number decoded into an [any] goes through [strconv.ParseFloat],
    which fails when the value rounds to an infinity, that is when its
    magnitude reaches [2^1024 - 2^970] (half an ulp above the largest
    float64).  The test is made on the exact decimal value. *)

Fixpoint digits_value (s : string) (acc : Z) : Z :=
  match s with
  | String c r => digits_value r (10 * acc + (Z.of_nat (nat_of_ascii c) - 48))
  | EmptyString => acc
  end.

Fixpoint strip_zeros (s : string) : string :=
  match s with
  | String "0"%char r => strip_zeros r
  | _ => s
  end.

Definition float64_limit : Z := 2 ^ 1024 - 2 ^ 970.

Definition float64_ok (lit : string) : bool :=
  match split_number lit with
  | None => false
  | Some (_, int, frac, ex) =>
      let digits := strip_zeros (int ++ frac) in
      let m := digits_value digits 0 in
      let e := match ex with
               | None => 0
               | Some (true, t) => - digits_value t 0
               | Some (false, t) => digits_value t 0
               end in
      let E := e - Z.of_nat (String.length frac) in
      let p := E + Z.of_nat (String.length digits) in
      if m =? 0 then true
      else if 309 <? p then false
      else if p <? 309 then true
      else if 0 <=? E then m * 10 ^ E <? float64_limit
      else m <? float64_limit * 10 ^ (- E)
  end%Z.

Fixpoint numbers_ok (v : json) : bool :=
  match v with
  | JNumber lit => float64_ok lit
  | JArray l => forallb numbers_ok l
  | JObject ms => forallb (fun kv => numbers_ok (snd kv)) ms
  | _ => true
  end.

(** Equality of two JSON values, member for member. *)
Fixpoint json_eqb (a b : json) {struct a} : bool :=
  match a, b with
  | JNull, JNull => true
  | JBool x, JBool y => Bool.eqb x y
  | JNumber x, JNumber y => String.eqb x y
  | JString x, JString y => String.eqb x y
  | JArray l, JArray l' =>
      (fix go (l l' : list json) {struct l} : bool :=
         match l, l' with
         | [], [] => true
         | x :: r, y :: r' => json_eqb x y && go r r'
         | _, _ => false
         end) l l'
  | JObject m, JObject m' =>
      (fix go (m m' : list (string * json)) {struct m} : bool :=
         match m, m' with
         | [], [] => true
         | (k, x) :: r, (k', y) :: r' => String.eqb k k' && json_eqb x y && go r r'
         | _, _ => false
         end) m m'
  | _, _ => false
  end.

(** *** Member names and struct fields

    A member is stored in the field whose tag equals its name, or else
    in the field whose tag equals it once both are folded: ASCII letters
    to upper case, U+017F to [S] and U+212A to [K].  Every other rune
    folds to a rune outside ASCII, which no tag of the schema structs
    contains, so it is left in place. *)

Definition upper (c : ascii) : ascii :=
  let n := nat_of_ascii c in
  if (97 <=? n)%nat && (n <=? 122)%nat then ascii_of_nat (n - 32) else c.

Fixpoint foldName (s : string) : string :=
  match s with
  | EmptyString => EmptyString
  | String "197"%char (String "191"%char r) => String "S"%char (foldName r)
  | String "226"%char (String "132"%char (String "170"%char r)) =>
      String "K"%char (foldName r)
  | String c r => String (upper c) (foldName r)
  end.

Definition field_matches (tag name : string) : bool :=
  String.eqb name tag || String.eqb (foldName name) (foldName tag).

(** *** [json.Unmarshal] into the types of the schema structs

    Each function takes the value the destination holds before the call
    and the JSON value, and gives the value it holds afterwards and the
    error.  JSON [null] empties a pointer, slice, map or interface and
    leaves anything else untouched, without error.  After an error the
    destination's content is not meaningful: both schema decoders drop it. *)

Definition decoded (A : Type) : Type := (A * option error)%type.

Definition first_error (e1 e2 : option error) : option error :=
  match e1 with Some _ => e1 | None => e2 end.

Definition unmarshal_bool (cur : bool) (v : json) : decoded bool :=
  match v with
  | JNull => (cur, None)
  | JBool b => (b, None)
  | _ => (cur, Some UnmarshalTypeError)
  end.

Definition unmarshal_string (cur : string) (v : json) : decoded string :=
  match v with
  | JNull => (cur, None)
  | JString s => (s, None)
  | _ => (cur, Some UnmarshalTypeError)
  end.

(** Into a [*bool]. *)
Definition unmarshal_bool_ptr (cur : option bool) (v : json) : decoded (option bool) :=
  match v with
  | JNull => (None, None)
  | JBool b => (Some b, None)
  | _ => (cur, Some UnmarshalTypeError)
  end.

(** Into an [any]: the decoded value is kept as the JSON value it
    encodes, [JNull] standing for the nil interface.  A number is kept
    as its literal, where Go holds the float64 it denotes: two literals
    of one number are one value in the program and two in the model. *)
Definition unmarshal_any (cur : json) (v : json) : decoded json :=
  if numbers_ok v then (v, None) else (cur, Some UnmarshalTypeError).

(** Into a [[]any]. *)
Definition unmarshal_any_slice (cur : list json) (v : json) : decoded (list json) :=
  match v with
  | JNull => ([], None)
  | JArray l => if forallb numbers_ok l then (l, None) else (cur, Some UnmarshalTypeError)
  | _ => (cur, Some UnmarshalTypeError)
  end.

(** Into a [[]string]: an element is decoded into the element the slice
    already has at that index, or into a new empty string.  (A slice
    keeps no spare capacity in the model.) *)
Fixpoint unmarshal_strings (cur : list string) (l : list json) : decoded (list string) :=
  match l with
  | [] => ([], None)
  | x :: l' =>
      let '(y, e) := unmarshal_string (hd EmptyString cur) x in
      let '(ys, e') := unmarshal_strings (tl cur) l' in
      (y :: ys, first_error e e')
  end.

Definition unmarshal_string_slice (cur : list string) (v : json) : decoded (list string) :=
  match v with
  | JNull => ([], None)
  | JArray l => unmarshal_strings cur l
  | _ => (cur, Some UnmarshalTypeError)
  end.

(** The value of the last member called [key]: what [raw[key]] holds
    once the object is decoded into a [map[string]json.RawMessage]. *)
Fixpoint raw_get (key : string) (ms : list (string * json)) : option json :=
  match ms with
  | [] => None
  | (k, x) :: ms' =>
      match raw_get key ms' with
      | Some y => Some y
      | None => if String.eqb k key then Some x else None
      end
  end.

(** A Go map as an association list without repeated keys. *)
Fixpoint map_set {A : Type} (k : string) (x : A) (m : list (string * A)) : list (string * A) :=
  match m with
  | [] => [(k, x)]
  | (k', y) :: m' => if String.eqb k' k then (k, x) :: m' else (k', y) :: map_set k x m'
  end.

Fixpoint map_get {A : Type} (k : string) (m : list (string * A)) : option A :=
  match m with
  | [] => None
  | (k', y) :: m' => if String.eqb k' k then Some y else map_get k m'
  end.

(** [raw_apply f key ms none] is [f] applied to [raw[key]], or [none]
    when the object has no member called [key] (see [raw_apply_get]). *)
Definition raw_apply {B : Type} (f : json -> B) (key : string)
  : list (string * json) -> B -> B :=
  fix go (ms : list (string * json)) (none : B) {struct ms} :=
    match ms with
    | [] => none
    | (k, x) :: ms' => go ms' (if String.eqb k key then f x else none)
    end.

Definition has_key (key : string) (ms : list (string * json)) : bool :=
  existsb (fun kv => String.eqb (fst kv) key) ms.

Section Unmarshaler.
(** A struct type [A] whose pointer implements [json.Unmarshaler]:
    [dec s v] is [s.UnmarshalJSON] called on the text of [v]. *)
Context {A : Type}.
Variable zero : A.
Variable dec : A -> json -> decoded A.

(** Into a [*A]: [null] sets the pointer to nil without calling the
    method; any other value is handed to the method of the struct the
    pointer already designates, or of a new zero struct. *)
Definition unmarshal_ptr (cur : option A) (v : json) : decoded (option A) :=
  match v with
  | JNull => (None, None)
  | _ =>
      let '(y, e) := dec (match cur with Some c => c | None => zero end) v in
      (Some y, e)
  end.

(** Into a [[]*A]: element [i] is decoded into the pointer the slice
    already has at index [i], if any.  (A slice keeps no spare capacity
    in the model.) *)
Definition unmarshal_ptrs : list (option A) -> list json -> decoded (list (option A)) :=
  fix go (cur : list (option A)) (l : list json) {struct l} :=
    match l with
    | [] => ([], None)
    | x :: l' =>
        let '(y, e) := unmarshal_ptr (match cur with c :: _ => c | [] => None end) x in
        let '(ys, e') := go (tl cur) l' in
        (y :: ys, first_error e e')
    end.

Definition unmarshal_slice (cur : list (option A)) (v : json) : decoded (list (option A)) :=
  match v with
  | JNull => ([], None)
  | JArray l => unmarshal_ptrs cur l
  | _ => (cur, Some UnmarshalTypeError)
  end.

(** Into a [map[string]*A]: every member is decoded into a new pointer
    and stored under its name in the map as it is. *)
Definition unmarshal_entries
  : list (string * option A) -> list (string * json) -> decoded (list (string * option A)) :=
  fix go (cur : list (string * option A)) (ms : list (string * json)) {struct ms} :=
    match ms with
    | [] => (cur, None)
    | (k, x) :: ms' =>
        let '(y, e) := unmarshal_ptr None x in
        let '(m, e') := go (map_set k y cur) ms' in
        (m, first_error e e')
    end.

Definition unmarshal_map (cur : list (string * option A)) (v : json)
  : decoded (list (string * option A)) :=
  match v with
  | JNull => ([], None)
  | JObject ms => unmarshal_entries cur ms
  | _ => (cur, Some UnmarshalTypeError)
  end.

(** Into a struct without methods: each member whose name matches a
    field is decoded into that field, in document order; the others
    are skipped.  The first error is reported. *)
Variable set_field : A -> string -> json -> decoded A.

Definition unmarshal_fields : A -> list (string * json) -> decoded A :=
  fix go (a : A) (ms : list (string * json)) {struct ms} :=
    match ms with
    | [] => (a, None)
    | (k, x) :: ms' =>
        let '(a', e) := set_field a k x in
        let '(a'', e') := go a' ms' in
        (a'', first_error e e')
    end.

Definition unmarshal_struct (a : A) (v : json) : decoded A :=
  match v with
  | JNull => (a, None)
  | JObject ms => unmarshal_fields a ms
  | _ => (a, Some UnmarshalTypeError)
  end.
End Unmarshaler.

(** [json.Unmarshal(data, &x)] for a destination decoded by [dec]: the
    text is checked first, and nothing is stored when it is not valid. *)
Definition Unmarshal {A : Type} (dec : A -> json -> decoded A) (data : string) (x : A)
  : decoded A :=
  match parse data with
  | None => (x, Some SyntaxError)
  | Some v => dec x v
  end.

End Json.

Import Json.

(** ** The schema model of [src/linter/schema.go] *)

Module SchemaV1.

(** [Schema]: a JSON Schema document or subschema.  A [*Schema] is an
    [option] (nil is [None]), a slice a list, a map an association list;
    a nil slice or map is not told apart from an empty one, as the code
    only takes their length and their entries.  [Schema_] is the field
    [Schema] and [Type_] the field [Type]. *)
Unset Elimination Schemes.
Inductive Schema : Type := mkSchema {
  Schema_ : string;
  ID : string;
  Ref : string;
  Defs : list (string * option Schema);
Definitions : list (string * option Schema);
  Type_ : string;
  AnyOf : list (option Schema);
  OneOf : list (option Schema);
  AllOf : list (option Schema);
  Properties : list (string * option Schema);
  Required : list string;
  AdditionalProperties : option bool;
  AdditionalPropertiesSchema : option Schema;
  Items : option Schema;
  Const : json;
  Enum : list json;
  Title : string;
  Description : string;
  Default : json;
  XAbstractComponent : option bool
}.
Set Elimination Schemes.

Definition set_Schema_ (y : string) (a : Schema) : Schema :=
  mkSchema y (ID a) (Ref a) (Defs a) (Definitions a) (Type_ a) (AnyOf a)
    (OneOf a) (AllOf a) (Properties a) (Required a) (AdditionalProperties a)
    (AdditionalPropertiesSchema a) (Items a) (Const a) (Enum a) (Title a)
    (Description a) (Default a) (XAbstractComponent a).
Definition set_ID (y : string) (a : Schema) : Schema :=
  mkSchema (Schema_ a) y (Ref a) (Defs a) (Definitions a) (Type_ a) (AnyOf a)
    (OneOf a) (AllOf a) (Properties a) (Required a) (AdditionalProperties a)
    (AdditionalPropertiesSchema a) (Items a) (Const a) (Enum a) (Title a)
    (Description a) (Default a) (XAbstractComponent a).
Definition set_Ref (y : string) (a : Schema) : Schema :=
  mkSchema (Schema_ a) (ID a) y (Defs a) (Definitions a) (Type_ a) (AnyOf a)
    (OneOf a) (AllOf a) (Properties a) (Required a) (AdditionalProperties a)
    (AdditionalPropertiesSchema a) (Items a) (Const a) (Enum a) (Title a)
    (Description a) (Default a) (XAbstractComponent a).
Definition set_Defs (y : list (string * option Schema)) (a : Schema) : Schema :=
  mkSchema (Schema_ a) (ID a) (Ref a) y (Definitions a) (Type_ a) (AnyOf a)
    (OneOf a) (AllOf a) (Properties a) (Required a) (AdditionalProperties a)
    (AdditionalPropertiesSchema a) (Items a) (Const a) (Enum a) (Title a)
    (Description a) (Default a) (XAbstractComponent a).
Definition set_Definitions (y : list (string * option Schema)) (a : Schema) : Schema :=
  mkSchema (Schema_ a) (ID a) (Ref a) (Defs a) y (Type_ a) (AnyOf a)
    (OneOf a) (AllOf a) (Properties a) (Required a) (AdditionalProperties a)
    (AdditionalPropertiesSchema a) (Items a) (Const a) (Enum a) (Title a)
    (Description a) (Default a) (XAbstractComponent a).
Definition set_Type_ (y : string) (a : Schema) : Schema :=
  mkSchema (Schema_ a) (ID a) (Ref a) (Defs a) (Definitions a) y (AnyOf a)
    (OneOf a) (AllOf a) (Properties a) (Required a) (AdditionalProperties a)
    (AdditionalPropertiesSchema a) (Items a) (Const a) (Enum a) (Title a)
    (Description a) (Default a) (XAbstractComponent a).
Definition set_AnyOf (y : list (option Schema)) (a : Schema) : Schema :=
  mkSchema (Schema_ a) (ID a) (Ref a) (Defs a) (Definitions a) (Type_ a) y
    (OneOf a) (AllOf a) (Properties a) (Required a) (AdditionalProperties a)
    (AdditionalPropertiesSchema a) (Items a) (Const a) (Enum a) (Title a)
    (Description a) (Default a) (XAbstractComponent a).
Definition set_OneOf (y : list (option Schema)) (a : Schema) : Schema :=
  mkSchema (Schema_ a) (ID a) (Ref a) (Defs a) (Definitions a) (Type_ a)
    (AnyOf a) y (AllOf a) (Properties a) (Required a)
    (AdditionalProperties a) (AdditionalPropertiesSchema a) (Items a)
    (Const a) (Enum a) (Title a) (Description a) (Default a)
    (XAbstractComponent a).
Definition set_AllOf (y : list (option Schema)) (a : Schema) : Schema :=
  mkSchema (Schema_ a) (ID a) (Ref a) (Defs a) (Definitions a) (Type_ a)
    (AnyOf a) (OneOf a) y (Properties a) (Required a)
    (AdditionalProperties a) (AdditionalPropertiesSchema a) (Items a)
    (Const a) (Enum a) (Title a) (Description a) (Default a)
    (XAbstractComponent a).
Definition set_Properties (y : list (string * option Schema)) (a : Schema) : Schema :=
  mkSchema (Schema_ a) (ID a) (Ref a) (Defs a) (Definitions a) (Type_ a)
    (AnyOf a) (OneOf a) (AllOf a) y (Required a) (AdditionalProperties a)
    (AdditionalPropertiesSchema a) (Items a) (Const a) (Enum a) (Title a)
    (Description a) (Default a) (XAbstractComponent a).
Definition set_Required (y : list string) (a : Schema) : Schema :=
  mkSchema (Schema_ a) (ID a) (Ref a) (Defs a) (Definitions a) (Type_ a)
    (AnyOf a) (OneOf a) (AllOf a) (Properties a) y (AdditionalProperties a)
    (AdditionalPropertiesSchema a) (Items a) (Const a) (Enum a) (Title a)
    (Description a) (Default a) (XAbstractComponent a).
Definition set_AdditionalProperties (y : option bool) (a : Schema) : Schema :=
  mkSchema (Schema_ a) (ID a) (Ref a) (Defs a) (Definitions a) (Type_ a)
    (AnyOf a) (OneOf a) (AllOf a) (Properties a) (Required a) y
    (AdditionalPropertiesSchema a) (Items a) (Const a) (Enum a) (Title a)
    (Description a) (Default a) (XAbstractComponent a).
Definition set_AdditionalPropertiesSchema (y : option Schema) (a : Schema) : Schema :=
  mkSchema (Schema_ a) (ID a) (Ref a) (Defs a) (Definitions a) (Type_ a)
    (AnyOf a) (OneOf a) (AllOf a) (Properties a) (Required a)
    (AdditionalProperties a) y (Items a) (Const a) (Enum a) (Title a)
    (Description a) (Default a) (XAbstractComponent a).
Definition set_Items (y : option Schema) (a : Schema) : Schema :=
  mkSchema (Schema_ a) (ID a) (Ref a) (Defs a) (Definitions a) (Type_ a)
    (AnyOf a) (OneOf a) (AllOf a) (Properties a) (Required a)
    (AdditionalProperties a) (AdditionalPropertiesSchema a) y (Const a)
    (Enum a) (Title a) (Description a) (Default a) (XAbstractComponent a).
Definition set_Const (y : json) (a : Schema) : Schema :=
  mkSchema (Schema_ a) (ID a) (Ref a) (Defs a) (Definitions a) (Type_ a)
    (AnyOf a) (OneOf a) (AllOf a) (Properties a) (Required a)
    (AdditionalProperties a) (AdditionalPropertiesSchema a) (Items a) y
    (Enum a) (Title a) (Description a) (Default a) (XAbstractComponent a).
Definition set_Enum (y : list json) (a : Schema) : Schema :=
  mkSchema (Schema_ a) (ID a) (Ref a) (Defs a) (Definitions a) (Type_ a)
    (AnyOf a) (OneOf a) (AllOf a) (Properties a) (Required a)
    (AdditionalProperties a) (AdditionalPropertiesSchema a) (Items a)
    (Const a) y (Title a) (Description a) (Default a) (XAbstractComponent a).
Definition set_Title (y : string) (a : Schema) : Schema :=
  mkSchema (Schema_ a) (ID a) (Ref a) (Defs a) (Definitions a) (Type_ a)
    (AnyOf a) (OneOf a) (AllOf a) (Properties a) (Required a)
    (AdditionalProperties a) (AdditionalPropertiesSchema a) (Items a)
    (Const a) (Enum a) y (Description a) (Default a) (XAbstractComponent a).
Definition set_Description (y : string) (a : Schema) : Schema :=
  mkSchema (Schema_ a) (ID a) (Ref a) (Defs a) (Definitions a) (Type_ a)
    (AnyOf a) (OneOf a) (AllOf a) (Properties a) (Required a)
    (AdditionalProperties a) (AdditionalPropertiesSchema a) (Items a)
    (Const a) (Enum a) (Title a) y (Default a) (XAbstractComponent a).
Definition set_Default (y : json) (a : Schema) : Schema :=
  mkSchema (Schema_ a) (ID a) (Ref a) (Defs a) (Definitions a) (Type_ a)
    (AnyOf a) (OneOf a) (AllOf a) (Properties a) (Required a)
    (AdditionalProperties a) (AdditionalPropertiesSchema a) (Items a)
    (Const a) (Enum a) (Title a) (Description a) y (XAbstractComponent a).
Definition set_XAbstractComponent (y : option bool) (a : Schema) : Schema :=
  mkSchema (Schema_ a) (ID a) (Ref a) (Defs a) (Definitions a) (Type_ a)
    (AnyOf a) (OneOf a) (AllOf a) (Properties a) (Required a)
    (AdditionalProperties a) (AdditionalPropertiesSchema a) (Items a)
    (Const a) (Enum a) (Title a) (Description a) (Default a) y.

(** The zero value [Schema{}]. *)
Definition zero : Schema :=
  mkSchema EmptyString EmptyString EmptyString [] [] EmptyString [] [] [] [] [] None None None JNull [] EmptyString EmptyString JNull
    None.

(** The struct fields [encoding/json] fills by name, with their tags. *)
Inductive field : Type :=
| F_Schema_
| F_ID
| F_Ref
| F_Defs
| F_Definitions
| F_Type_
| F_AnyOf
| F_OneOf
| F_AllOf
| F_Properties
| F_Required
| F_Items
| F_Const
| F_Enum
| F_Title
| F_Description
| F_Default
| F_XAbstractComponent.

Definition tag (f : field) : string :=
  match f with
  | F_Schema_ => "$schema"
  | F_ID => "$id"
  | F_Ref => "$ref"
  | F_Defs => "$defs"
  | F_Definitions => "definitions"
  | F_Type_ => "type"
  | F_AnyOf => "anyOf"
  | F_OneOf => "oneOf"
  | F_AllOf => "allOf"
  | F_Properties => "properties"
  | F_Required => "required"
  | F_Items => "items"
  | F_Const => "const"
  | F_Enum => "enum"
  | F_Title => "title"
  | F_Description => "description"
  | F_Default => "default"
  | F_XAbstractComponent => "x-abstract-component"
  end.

Definition fields : list field :=
  [F_Schema_; F_ID; F_Ref; F_Defs; F_Definitions; F_Type_; F_AnyOf; F_OneOf;
   F_AllOf; F_Properties; F_Required; F_Items; F_Const; F_Enum; F_Title;
   F_Description; F_Default; F_XAbstractComponent].

(** The field a member name designates. *)
Definition lookup_field (name : string) : option field :=
  find (fun f => field_matches (tag f) name) fields.

Section Decoder.
(** [UnmarshalJSON] as [encoding/json] calls it on a nested value. *)
Variable rec : Schema -> json -> decoded Schema.

(** The fields of [schemaAlias] that carry a [json] tag: the member
    is decoded into the field its name designates, and skipped when
    it designates none. *)
Definition alias_field (a : Schema) (k : string) (x : json) : decoded Schema :=
  match lookup_field k with
  | Some F_Schema_ =>
      let '(y, e) := unmarshal_string (Schema_ a) x in (set_Schema_ y a, e)
  | Some F_ID =>
      let '(y, e) := unmarshal_string (ID a) x in (set_ID y a, e)
  | Some F_Ref =>
      let '(y, e) := unmarshal_string (Ref a) x in (set_Ref y a, e)
  | Some F_Defs =>
      let '(y, e) := unmarshal_map zero rec (Defs a) x in (set_Defs y a, e)
  | Some F_Definitions =>
      let '(y, e) := unmarshal_map zero rec (Definitions a) x in (set_Definitions y a, e)
  | Some F_Type_ =>
      let '(y, e) := unmarshal_string (Type_ a) x in (set_Type_ y a, e)
  | Some F_AnyOf =>
      let '(y, e) := unmarshal_slice zero rec (AnyOf a) x in (set_AnyOf y a, e)
  | Some F_OneOf =>
      let '(y, e) := unmarshal_slice zero rec (OneOf a) x in (set_OneOf y a, e)
  | Some F_AllOf =>
      let '(y, e) := unmarshal_slice zero rec (AllOf a) x in (set_AllOf y a, e)
  | Some F_Properties =>
      let '(y, e) := unmarshal_map zero rec (Properties a) x in (set_Properties y a, e)
  | Some F_Required =>
      let '(y, e) := unmarshal_string_slice (Required a) x in (set_Required y a, e)
  | Some F_Items =>
      let '(y, e) := unmarshal_ptr zero rec (Items a) x in (set_Items y a, e)
  | Some F_Const =>
      let '(y, e) := unmarshal_any (Const a) x in (set_Const y a, e)
  | Some F_Enum =>
      let '(y, e) := unmarshal_any_slice (Enum a) x in (set_Enum y a, e)
  | Some F_Title =>
      let '(y, e) := unmarshal_string (Title a) x in (set_Title y a, e)
  | Some F_Description =>
      let '(y, e) := unmarshal_string (Description a) x in (set_Description y a, e)
  | Some F_Default =>
      let '(y, e) := unmarshal_any (Default a) x in (set_Default y a, e)
  | Some F_XAbstractComponent =>
      let '(y, e) := unmarshal_bool_ptr (XAbstractComponent a) x in (set_XAbstractComponent y a, e)
  | None => (a, None)
  end.

(** [additionalProperties]: a boolean, or else a schema. *)
Definition decode_additional (apRaw : json) (s : Schema) : Schema :=
  match unmarshal_bool false apRaw with
  | (boolVal, None) => set_AdditionalProperties (Some boolVal) s
  | (_, Some _) =>
      match rec zero apRaw with
      | (schemaVal, None) =>
          set_AdditionalProperties (Some true)
            (set_AdditionalPropertiesSchema (Some schemaVal) s)
      | (_, Some _) => s
      end
  end.

(** The body of [UnmarshalJSON] on the value [v] its [data] denotes.
    When the alias is decoded without error [v] is an object, whose
    members are what [raw] holds, or [null], which leaves [raw] nil. *)
Definition unmarshal_body (s : Schema) (v : json) : decoded Schema :=
  match unmarshal_struct alias_field zero v with
  | (_, Some err) => (s, Some err)
  | (alias, None) =>
      let s := alias in
      match v with
      | JObject raw =>
          (raw_apply (fun apRaw => decode_additional apRaw s)
             "additionalProperties" raw s, None)
      | _ => (s, None)
      end
  end.
End Decoder.

(** [Schema.UnmarshalJSON], on the value its argument denotes. *)
Fixpoint unmarshalJSON (s : Schema) (v : json) {struct v} : decoded Schema :=
  unmarshal_body unmarshalJSON s v.

(** [Schema.UnmarshalJSON(data)]. *)
Definition UnmarshalJSON (s : Schema) (data : string) : decoded Schema :=
  Unmarshal unmarshalJSON data s.

(** [IsObject]. *)
Definition IsObject (s : Schema) : bool :=
  String.eqb (Type_ s) "object" || (0 <? List.length (Properties s))%nat.

(** [IsArray]. *)
Definition IsArray (s : Schema) : bool :=
  String.eqb (Type_ s) "array" || match Items s with Some _ => true | None => false end.

(** [IsUnion]. *)
Definition IsUnion (s : Schema) : bool :=
  (0 <? List.length (AnyOf s))%nat || (0 <? List.length (OneOf s))%nat.

(** [IsRef]. *)
Definition IsRef (s : Schema) : bool := negb (String.eqb (Ref s) EmptyString).

(** [GetUnionVariants]. *)
Definition GetUnionVariants (s : Schema) : list (option Schema) :=
  if (0 <? List.length (AnyOf s))%nat then AnyOf s else OneOf s.

End SchemaV1.

(** ** The schema model of [src/unnamed/part_001] *)

Module SchemaV2.

(** [Schema]: a JSON Schema document or subschema.  A [*Schema] is an
    [option] (nil is [None]), a slice a list, a map an association list;
    a nil slice or map is not told apart from an empty one, as the code
    only takes their length and their entries.  [Schema_] is the field
    [Schema] and [Type_] the field [Type]. *)
Unset Elimination Schemes.
Inductive Schema : Type := mkSchema {
  Schema_ : string;
  ID : string;
  Ref : string;
  Defs : list (string * option Schema);
Definitions : list (string * option Schema);
  Type_ : string;
  TypeList : list string;
  AnyOf : list (option Schema);
  OneOf : list (option Schema);
  AllOf : list (option Schema);
  Properties : list (string * option Schema);
  Required : list string;
  AdditionalProperties : option bool;
  AdditionalPropertiesSchema : option Schema;
  Items : option Schema;
  Const : json;
  Enum : list json;
  Title : string;
  Description : string;
  Default : json;
  XAbstractComponent : option bool;
  IsBooleanSchema : bool;
  BooleanValue : bool
}.
Set Elimination Schemes.

Definition set_Schema_ (y : string) (a : Schema) : Schema :=
  mkSchema y (ID a) (Ref a) (Defs a) (Definitions a) (Type_ a) (TypeList a)
    (AnyOf a) (OneOf a) (AllOf a) (Properties a) (Required a)
    (AdditionalProperties a) (AdditionalPropertiesSchema a) (Items a)
    (Const a) (Enum a) (Title a) (Description a) (Default a)
    (XAbstractComponent a) (IsBooleanSchema a) (BooleanValue a).
Definition set_ID (y : string) (a : Schema) : Schema :=
  mkSchema (Schema_ a) y (Ref a) (Defs a) (Definitions a) (Type_ a)
    (TypeList a) (AnyOf a) (OneOf a) (AllOf a) (Properties a) (Required a)
    (AdditionalProperties a) (AdditionalPropertiesSchema a) (Items a)
    (Const a) (Enum a) (Title a) (Description a) (Default a)
    (XAbstractComponent a) (IsBooleanSchema a) (BooleanValue a).
Definition set_Ref (y : string) (a : Schema) : Schema :=
  mkSchema (Schema_ a) (ID a) y (Defs a) (Definitions a) (Type_ a)
    (TypeList a) (AnyOf a) (OneOf a) (AllOf a) (Properties a) (Required a)
    (AdditionalProperties a) (AdditionalPropertiesSchema a) (Items a)
    (Const a) (Enum a) (Title a) (Description a) (Default a)
    (XAbstractComponent a) (IsBooleanSchema a) (BooleanValue a).
Definition set_Defs (y : list (string * option Schema)) (a : Schema) : Schema :=
  mkSchema (Schema_ a) (ID a) (Ref a) y (Definitions a) (Type_ a)
    (TypeList a) (AnyOf a) (OneOf a) (AllOf a) (Properties a) (Required a)
    (AdditionalProperties a) (AdditionalPropertiesSchema a) (Items a)
    (Const a) (Enum a) (Title a) (Description a) (Default a)
    (XAbstractComponent a) (IsBooleanSchema a) (BooleanValue a).
Definition set_Definitions (y : list (string * option Schema)) (a : Schema) : Schema :=
  mkSchema (Schema_ a) (ID a) (Ref a) (Defs a) y (Type_ a) (TypeList a)
    (AnyOf a) (OneOf a) (AllOf a) (Properties a) (Required a)
    (AdditionalProperties a) (AdditionalPropertiesSchema a) (Items a)
    (Const a) (Enum a) (Title a) (Description a) (Default a)
    (XAbstractComponent a) (IsBooleanSchema a) (BooleanValue a).
Definition set_Type_ (y : string) (a : Schema) : Schema :=
  mkSchema (Schema_ a) (ID a) (Ref a) (Defs a) (Definitions a) y (TypeList a)
    (AnyOf a) (OneOf a) (AllOf a) (Properties a) (Required a)
    (AdditionalProperties a) (AdditionalPropertiesSchema a) (Items a)
    (Const a) (Enum a) (Title a) (Description a) (Default a)
    (XAbstractComponent a) (IsBooleanSchema a) (BooleanValue a).
Definition set_TypeList (y : list string) (a : Schema) : Schema :=
  mkSchema (Schema_ a) (ID a) (Ref a) (Defs a) (Definitions a) (Type_ a) y
    (AnyOf a) (OneOf a) (AllOf a) (Properties a) (Required a)
    (AdditionalProperties a) (AdditionalPropertiesSchema a) (Items a)
    (Const a) (Enum a) (Title a) (Description a) (Default a)
    (XAbstractComponent a) (IsBooleanSchema a) (BooleanValue a).
Definition set_AnyOf (y : list (option Schema)) (a : Schema) : Schema :=
  mkSchema (Schema_ a) (ID a) (Ref a) (Defs a) (Definitions a) (Type_ a)
    (TypeList a) y (OneOf a) (AllOf a) (Properties a) (Required a)
    (AdditionalProperties a) (AdditionalPropertiesSchema a) (Items a)
    (Const a) (Enum a) (Title a) (Description a) (Default a)
    (XAbstractComponent a) (IsBooleanSchema a) (BooleanValue a).
Definition set_OneOf (y : list (option Schema)) (a : Schema) : Schema :=
  mkSchema (Schema_ a) (ID a) (Ref a) (Defs a) (Definitions a) (Type_ a)
    (TypeList a) (AnyOf a) y (AllOf a) (Properties a) (Required a)
    (AdditionalProperties a) (AdditionalPropertiesSchema a) (Items a)
    (Const a) (Enum a) (Title a) (Description a) (Default a)
    (XAbstractComponent a) (IsBooleanSchema a) (BooleanValue a).
Definition set_AllOf (y : list (option Schema)) (a : Schema) : Schema :=
  mkSchema (Schema_ a) (ID a) (Ref a) (Defs a) (Definitions a) (Type_ a)
    (TypeList a) (AnyOf a) (OneOf a) y (Properties a) (Required a)
    (AdditionalProperties a) (AdditionalPropertiesSchema a) (Items a)
    (Const a) (Enum a) (Title a) (Description a) (Default a)
    (XAbstractComponent a) (IsBooleanSchema a) (BooleanValue a).
Definition set_Properties (y : list (string * option Schema)) (a : Schema) : Schema :=
  mkSchema (Schema_ a) (ID a) (Ref a) (Defs a) (Definitions a) (Type_ a)
    (TypeList a) (AnyOf a) (OneOf a) (AllOf a) y (Required a)
    (AdditionalProperties a) (AdditionalPropertiesSchema a) (Items a)
    (Const a) (Enum a) (Title a) (Description a) (Default a)
    (XAbstractComponent a) (IsBooleanSchema a) (BooleanValue a).
Definition set_Required (y : list string) (a : Schema) : Schema :=
  mkSchema (Schema_ a) (ID a) (Ref a) (Defs a) (Definitions a) (Type_ a)
    (TypeList a) (AnyOf a) (OneOf a) (AllOf a) (Properties a) y
    (AdditionalProperties a) (AdditionalPropertiesSchema a) (Items a)
    (Const a) (Enum a) (Title a) (Description a) (Default a)
    (XAbstractComponent a) (IsBooleanSchema a) (BooleanValue a).
Definition set_AdditionalProperties (y : option bool) (a : Schema) : Schema :=
  mkSchema (Schema_ a) (ID a) (Ref a) (Defs a) (Definitions a) (Type_ a)
    (TypeList a) (AnyOf a) (OneOf a) (AllOf a) (Properties a) (Required a) y
    (AdditionalPropertiesSchema a) (Items a) (Const a) (Enum a) (Title a)
    (Description a) (Default a) (XAbstractComponent a) (IsBooleanSchema a)
    (BooleanValue a).
Definition set_AdditionalPropertiesSchema (y : option Schema) (a : Schema) : Schema :=
  mkSchema (Schema_ a) (ID a) (Ref a) (Defs a) (Definitions a) (Type_ a)
    (TypeList a) (AnyOf a) (OneOf a) (AllOf a) (Properties a) (Required a)
    (AdditionalProperties a) y (Items a) (Const a) (Enum a) (Title a)
    (Description a) (Default a) (XAbstractComponent a) (IsBooleanSchema a)
    (BooleanValue a).
Definition set_Items (y : option Schema) (a : Schema) : Schema :=
  mkSchema (Schema_ a) (ID a) (Ref a) (Defs a) (Definitions a) (Type_ a)
    (TypeList a) (AnyOf a) (OneOf a) (AllOf a) (Properties a) (Required a)
    (AdditionalProperties a) (AdditionalPropertiesSchema a) y (Const a)
    (Enum a) (Title a) (Description a) (Default a) (XAbstractComponent a)
    (IsBooleanSchema a) (BooleanValue a).
Definition set_Const (y : json) (a : Schema) : Schema :=
  mkSchema (Schema_ a) (ID a) (Ref a) (Defs a) (Definitions a) (Type_ a)
    (TypeList a) (AnyOf a) (OneOf a) (AllOf a) (Properties a) (Required a)
    (AdditionalProperties a) (AdditionalPropertiesSchema a) (Items a) y
    (Enum a) (Title a) (Description a) (Default a) (XAbstractComponent a)
    (IsBooleanSchema a) (BooleanValue a).
Definition set_Enum (y : list json) (a : Schema) : Schema :=
  mkSchema (Schema_ a) (ID a) (Ref a) (Defs a) (Definitions a) (Type_ a)
    (TypeList a) (AnyOf a) (OneOf a) (AllOf a) (Properties a) (Required a)
    (AdditionalProperties a) (AdditionalPropertiesSchema a) (Items a)
    (Const a) y (Title a) (Description a) (Default a) (XAbstractComponent a)
    (IsBooleanSchema a) (BooleanValue a).
Definition set_Title (y : string) (a : Schema) : Schema :=
  mkSchema (Schema_ a) (ID a) (Ref a) (Defs a) (Definitions a) (Type_ a)
    (TypeList a) (AnyOf a) (OneOf a) (AllOf a) (Properties a) (Required a)
    (AdditionalProperties a) (AdditionalPropertiesSchema a) (Items a)
    (Const a) (Enum a) y (Description a) (Default a) (XAbstractComponent a)
    (IsBooleanSchema a) (BooleanValue a).
Definition set_Description (y : string) (a : Schema) : Schema :=
  mkSchema (Schema_ a) (ID a) (Ref a) (Defs a) (Definitions a) (Type_ a)
    (TypeList a) (AnyOf a) (OneOf a) (AllOf a) (Properties a) (Required a)
    (AdditionalProperties a) (AdditionalPropertiesSchema a) (Items a)
    (Const a) (Enum a) (Title a) y (Default a) (XAbstractComponent a)
    (IsBooleanSchema a) (BooleanValue a).
Definition set_Default (y : json) (a : Schema) : Schema :=
  mkSchema (Schema_ a) (ID a) (Ref a) (Defs a) (Definitions a) (Type_ a)
    (TypeList a) (AnyOf a) (OneOf a) (AllOf a) (Properties a) (Required a)
    (AdditionalProperties a) (AdditionalPropertiesSchema a) (Items a)
    (Const a) (Enum a) (Title a) (Description a) y (XAbstractComponent a)
    (IsBooleanSchema a) (BooleanValue a).
Definition set_XAbstractComponent (y : option bool) (a : Schema) : Schema :=
  mkSchema (Schema_ a) (ID a) (Ref a) (Defs a) (Definitions a) (Type_ a)
    (TypeList a) (AnyOf a) (OneOf a) (AllOf a) (Properties a) (Required a)
    (AdditionalProperties a) (AdditionalPropertiesSchema a) (Items a)
    (Const a) (Enum a) (Title a) (Description a) (Default a) y
    (IsBooleanSchema a) (BooleanValue a).
Definition set_IsBooleanSchema (y : bool) (a : Schema) : Schema :=
  mkSchema (Schema_ a) (ID a) (Ref a) (Defs a) (Definitions a) (Type_ a)
    (TypeList a) (AnyOf a) (OneOf a) (AllOf a) (Properties a) (Required a)
    (AdditionalProperties a) (AdditionalPropertiesSchema a) (Items a)
    (Const a) (Enum a) (Title a) (Description a) (Default a)
    (XAbstractComponent a) y (BooleanValue a).
Definition set_BooleanValue (y : bool) (a : Schema) : Schema :=
  mkSchema (Schema_ a) (ID a) (Ref a) (Defs a) (Definitions a) (Type_ a)
    (TypeList a) (AnyOf a) (OneOf a) (AllOf a) (Properties a) (Required a)
    (AdditionalProperties a) (AdditionalPropertiesSchema a) (Items a)
    (Const a) (Enum a) (Title a) (Description a) (Default a)
    (XAbstractComponent a) (IsBooleanSchema a) y.

(** The zero value [Schema{}]. *)
Definition zero : Schema :=
  mkSchema EmptyString EmptyString EmptyString [] [] EmptyString [] [] [] [] [] [] None None None JNull [] EmptyString EmptyString
    JNull None false false.

(** The struct fields [encoding/json] fills by name, with their tags. *)
Inductive field : Type :=
| F_Schema_
| F_ID
| F_Ref
| F_Defs
| F_Definitions
| F_AnyOf
| F_OneOf
| F_AllOf
| F_Required
| F_Items
| F_Const
| F_Enum
| F_Title
| F_Description
| F_Default
| F_XAbstractComponent.

Definition tag (f : field) : string :=
  match f with
  | F_Schema_ => "$schema"
  | F_ID => "$id"
  | F_Ref => "$ref"
  | F_Defs => "$defs"
  | F_Definitions => "definitions"
  | F_AnyOf => "anyOf"
  | F_OneOf => "oneOf"
  | F_AllOf => "allOf"
  | F_Required => "required"
  | F_Items => "items"
  | F_Const => "const"
  | F_Enum => "enum"
  | F_Title => "title"
  | F_Description => "description"
  | F_Default => "default"
  | F_XAbstractComponent => "x-abstract-component"
  end.

Definition fields : list field :=
  [F_Schema_; F_ID; F_Ref; F_Defs; F_Definitions; F_AnyOf; F_OneOf; F_AllOf;
   F_Required; F_Items; F_Const; F_Enum; F_Title; F_Description; F_Default;
   F_XAbstractComponent].

(** The field a member name designates. *)
Definition lookup_field (name : string) : option field :=
  find (fun f => field_matches (tag f) name) fields.

Section Decoder.
(** [UnmarshalJSON] as [encoding/json] calls it on a nested value. *)
Variable rec : Schema -> json -> decoded Schema.

(** The fields of [schemaAlias] that carry a [json] tag: the member
    is decoded into the field its name designates, and skipped when
    it designates none. *)
Definition alias_field (a : Schema) (k : string) (x : json) : decoded Schema :=
  match lookup_field k with
  | Some F_Schema_ =>
      let '(y, e) := unmarshal_string (Schema_ a) x in (set_Schema_ y a, e)
  | Some F_ID =>
      let '(y, e) := unmarshal_string (ID a) x in (set_ID y a, e)
  | Some F_Ref =>
      let '(y, e) := unmarshal_string (Ref a) x in (set_Ref y a, e)
  | Some F_Defs =>
      let '(y, e) := unmarshal_map zero rec (Defs a) x in (set_Defs y a, e)
  | Some F_Definitions =>
      let '(y, e) := unmarshal_map zero rec (Definitions a) x in (set_Definitions y a, e)
  | Some F_AnyOf =>
      let '(y, e) := unmarshal_slice zero rec (AnyOf a) x in (set_AnyOf y a, e)
  | Some F_OneOf =>
      let '(y, e) := unmarshal_slice zero rec (OneOf a) x in (set_OneOf y a, e)
  | Some F_AllOf =>
      let '(y, e) := unmarshal_slice zero rec (AllOf a) x in (set_AllOf y a, e)
  | Some F_Required =>
      let '(y, e) := unmarshal_string_slice (Required a) x in (set_Required y a, e)
  | Some F_Items =>
      let '(y, e) := unmarshal_ptr zero rec (Items a) x in (set_Items y a, e)
  | Some F_Const =>
      let '(y, e) := unmarshal_any (Const a) x in (set_Const y a, e)
  | Some F_Enum =>
      let '(y, e) := unmarshal_any_slice (Enum a) x in (set_Enum y a, e)
  | Some F_Title =>
      let '(y, e) := unmarshal_string (Title a) x in (set_Title y a, e)
  | Some F_Description =>
      let '(y, e) := unmarshal_string (Description a) x in (set_Description y a, e)
  | Some F_Default =>
      let '(y, e) := unmarshal_any (Default a) x in (set_Default y a, e)
  | Some F_XAbstractComponent =>
      let '(y, e) := unmarshal_bool_ptr (XAbstractComponent a) x in (set_XAbstractComponent y a, e)
  | None => (a, None)
  end.

(** [type]: a string, or else an array of strings. *)
Definition decode_type (typeRaw : json) (s : Schema) : Schema :=
  match unmarshal_string EmptyString typeRaw with
  | (strVal, None) => set_Type_ strVal s
  | (_, Some _) =>
      match unmarshal_string_slice [] typeRaw with
      | (arrVal, None) =>
          let s := set_TypeList arrVal s in
          match arrVal with
          | [t] => set_Type_ t s
          | _ => s
          end
      | (_, Some _) => s
      end
  end.

(** The loop over [propsMap]: one entry per member name, holding the
    last member of that name; the first property that fails ends the
    loop.  (Go's order over a map is not fixed; the model takes the
    members in document order.) *)
Definition decode_props
  : list (string * json) -> list (string * option Schema)
    -> decoded (list (string * option Schema)) :=
  fix go (ms : list (string * json)) (acc : list (string * option Schema))
    {struct ms} :=
    match ms with
    | [] => (acc, None)
    | (propName, propRaw) :: ms' =>
        if has_key propName ms' then go ms' acc
        else
          match rec zero propRaw with
          | (propSchema, None) => go ms' (map_set propName (Some propSchema) acc)
          | (_, Some err) => (acc, Some err)
          end
    end.

(** [properties]: [propsRaw] decoded into a map of raw messages, then
    each of them into a new [Schema]. *)
Definition decode_properties (propsRaw : json) (s : Schema) : decoded Schema :=
  match propsRaw with
  | JNull => (set_Properties [] s, None)
  | JObject ms =>
      let '(props, e) := decode_props ms [] in (set_Properties props s, e)
  | _ => (s, Some UnmarshalTypeError)
  end.

(** [additionalProperties]: a boolean, or else a schema. *)
Definition decode_additional (apRaw : json) (s : Schema) : Schema :=
  match unmarshal_bool false apRaw with
  | (boolVal, None) => set_AdditionalProperties (Some boolVal) s
  | (_, Some _) =>
      match rec zero apRaw with
      | (schemaVal, None) =>
          set_AdditionalProperties (Some true)
            (set_AdditionalPropertiesSchema (Some schemaVal) s)
      | (_, Some _) => s
      end
  end.

(** The body of [UnmarshalJSON] on the value [v] its [data] denotes.
    When the alias is decoded without error [v] is an object, whose
    members are what [raw] holds. *)
Definition unmarshal_body (s : Schema) (v : json) : decoded Schema :=
  match unmarshal_bool false v with
  | (boolSchema, None) =>
      (set_BooleanValue boolSchema (set_IsBooleanSchema true s), None)
  | (_, Some _) =>
      match unmarshal_struct alias_field zero v with
      | (_, Some err) => (s, Some err)
      | (alias, None) =>
          let s := alias in
          match v with
          | JObject raw =>
              let s := raw_apply (fun typeRaw => decode_type typeRaw s) "type" raw s in
              match raw_apply (fun propsRaw => decode_properties propsRaw s)
                      "properties" raw (s, None) with
              | (s, Some err) => (s, Some err)
              | (s, None) =>
                  (raw_apply (fun apRaw => decode_additional apRaw s)
                     "additionalProperties" raw s, None)
              end
          | _ => (s, None)
          end
      end
  end.
End Decoder.

(** [Schema.UnmarshalJSON], on the value its argument denotes. *)
Fixpoint unmarshalJSON (s : Schema) (v : json) {struct v} : decoded Schema :=
  unmarshal_body unmarshalJSON s v.

(** [Schema.UnmarshalJSON(data)]. *)
Definition UnmarshalJSON (s : Schema) (data : string) : decoded Schema :=
  Unmarshal unmarshalJSON data s.

(** [IsObject]. *)
Definition IsObject (s : Schema) : bool :=
  String.eqb (Type_ s) "object" || (0 <? List.length (Properties s))%nat.

(** [IsArray]. *)
Definition IsArray (s : Schema) : bool :=
  String.eqb (Type_ s) "array" || match Items s with Some _ => true | None => false end.

(** [IsUnion]. *)
Definition IsUnion (s : Schema) : bool :=
  (0 <? List.length (AnyOf s))%nat || (0 <? List.length (OneOf s))%nat.

(** [IsRef]. *)
Definition IsRef (s : Schema) : bool := negb (String.eqb (Ref s) EmptyString).

(** [GetUnionVariants]. *)
Definition GetUnionVariants (s : Schema) : list (option Schema) :=
  if (0 <? List.length (AnyOf s))%nat then AnyOf s else OneOf s.

(** [HasMixedType]. *)
Definition HasMixedType (s : Schema) : bool := (1 <? List.length (TypeList s))%nat.

(** [HasType]. *)
Definition HasType (s : Schema) : bool :=
  negb (String.eqb (Type_ s) EmptyString) || (0 <? List.length (TypeList s))%nat.

End SchemaV2.

(** ** The linter *)

Module Linter.
Import SchemaV2.

(** Modelled from the spec: the linter ([Lint], its rules, the union
    classifier and the discriminator detector) is not among the sources;
    only its tests are.  The names are those the tests use, the behaviour
    is that of sections 3 and 4.3 to 4.5 of the specification. *)
Inductive SeverityLevel : Type :=
| SeverityError
| SeverityWarning
| SeverityInfo.

(** Modelled from the spec: the closed enumeration of issue codes. *)
Inductive IssueCode : Type :=
| CodeUnionNoDiscriminator
| CodeLargeUnion
| CodeAdditionalProps
| CodeCompositionDisallowed
| CodeAdditionalPropsDisallowed
| CodeMissingType
| CodeMixedTypeDisallowed.

Definition severity_eqb (a b : SeverityLevel) : bool :=
  match a, b with
  | SeverityError, SeverityError
  | SeverityWarning, SeverityWarning
  | SeverityInfo, SeverityInfo => true
  | _, _ => false
  end.

Definition code_eqb (a b : IssueCode) : bool :=
  match a, b with
  | CodeUnionNoDiscriminator, CodeUnionNoDiscriminator
  | CodeLargeUnion, CodeLargeUnion
  | CodeAdditionalProps, CodeAdditionalProps
  | CodeCompositionDisallowed, CodeCompositionDisallowed
  | CodeAdditionalPropsDisallowed, CodeAdditionalPropsDisallowed
  | CodeMissingType, CodeMissingType
  | CodeMixedTypeDisallowed, CodeMixedTypeDisallowed => true
  | _, _ => false
  end.

(** Modelled from the spec: an issue is a code, a severity, the
    schema-pointer path of the offending node and a message. *)
Record Issue : Type := mkIssue {
  Code : IssueCode;
  Severity : SeverityLevel;
  Path : string;
  Message : string
}.

(** Modelled from the spec: the result of a run is the sequence of its
    issues, with the derived queries of section 6. *)
Record Result : Type := mkResult { Issues : list Issue }.

Definition ErrorCount (r : Result) : nat :=
  List.length (filter (fun i => severity_eqb (Severity i) SeverityError) (Issues r)).

Definition WarningCount (r : Result) : nat :=
  List.length (filter (fun i => severity_eqb (Severity i) SeverityWarning) (Issues r)).

Definition HasErrors (r : Result) : bool :=
  existsb (fun i => severity_eqb (Severity i) SeverityError) (Issues r).

(** Modelled from the spec: the two profiles, and the configuration a
    linter is built from (the union-size threshold is 10 by default). *)
Inductive ProfileName : Type :=
| ProfileDefault
| ProfileScale.

Record Config : Type := mkConfig {
  Profile : ProfileName;
  MaxUnionVariants : nat
}.

Definition DefaultConfig : Config := mkConfig ProfileDefault 10.

Record Linter : Type := New { config : Config }.

Definition NewWithDefaults : Linter := New DefaultConfig.

(** *** Union classification (section 4.3) and discriminators (4.4) *)

(** Modelled from the spec: the shape of a union. *)
Inductive UnionShape : Type :=
| Nullable (T : option Schema)
| Discriminated (field : string) (tagToVariant : list (json * nat))
| ReferenceOnly
| Ambiguous.

(** Modelled from the spec: why no discriminator was found. *)
Inductive FailureReason : Type :=
| NoCommonProperty
| NotAllConst
| DuplicateConstantValue
| InconsistentFieldName.

(** Modelled from the spec: a variant denotes the null type when its
    declared type is [null]. *)
Definition is_null_variant (v : option Schema) : bool :=
  match v with
  | Some s => String.eqb (Type_ s) "null"
  | None => false
  end.

(** Modelled from the spec: a variant is a [$ref] when it carries a
    reference, which takes precedence over its other facets ([IsRef]). *)
Definition is_ref_variant (v : option Schema) : bool :=
  match v with
  | Some s => IsRef s
  | None => false
  end.

(** The schema a variant declares for the property [name]. *)
Definition property_of (name : string) (v : option Schema) : option Schema :=
  match v with
  | Some s =>
      match map_get name (Properties s) with
      | Some p => p
      | None => None
      end
  | None => None
  end.

(** Modelled from the spec: the constant a variant gives the property
    [name], when the property is declared with a [const]. *)
Definition const_of (name : string) (v : option Schema) : option json :=
  match property_of name v with
  | Some p => if json_eqb (Const p) JNull then None else Some (Const p)
  | None => None
  end.

Definition has_property (name : string) (v : option Schema) : bool :=
  match v with
  | Some s => match map_get name (Properties s) with Some _ => true | None => false end
  | None => false
  end.

Definition property_names (v : option Schema) : list string :=
  match v with
  | Some s => map fst (Properties s)
  | None => []
  end.

(** Modelled from the spec: the candidates are the property names common
    to all variants. *)
Definition candidates (vs : list (option Schema)) : list string :=
  match vs with
  | [] => []
  | v :: rest => filter (fun n => forallb (has_property n) rest) (property_names v)
  end.

(** Modelled from the spec: a candidate is accepted when every variant's
    value for it is a [const]. *)
Definition accepted (vs : list (option Schema)) (name : string) : bool :=
  forallb (fun v => match const_of name v with Some _ => true | None => false end) vs.

Definition consts_of (name : string) (vs : list (option Schema)) : list json :=
  flat_map (fun v => match const_of name v with Some c => [c] | None => [] end) vs.

Fixpoint distinct (l : list json) : list json :=
  match l with
  | [] => []
  | c :: r => if existsb (json_eqb c) r then distinct r else c :: distinct r
  end.

Definition distinct_count (name : string) (vs : list (option Schema)) : nat :=
  List.length (distinct (consts_of name vs)).

(** Modelled from the spec: of several accepted candidates, the one with
    the greatest number of distinct constants is chosen. *)
Fixpoint best (vs : list (option Schema)) (names : list string) : option string :=
  match names with
  | [] => None
  | n :: rest =>
      match best vs rest with
      | Some m => if (distinct_count n vs <? distinct_count m vs)%nat then Some m else Some n
      | None => Some n
      end
  end.

Fixpoint index_from (i : nat) (l : list json) : list (json * nat) :=
  match l with
  | [] => []
  | c :: r => (c, i) :: index_from (S i) r
  end.

Definition has_const_property (v : option Schema) : bool :=
  existsb (fun n => match const_of n v with Some _ => true | None => false end)
    (property_names v).

(** Modelled from the spec: the discriminator detector.  It needs two
    variants at least; it gives the shared field and the map from each
    constant to the index of its variant, or the reason of the failure. *)
Definition detect (vs : list (option Schema))
  : (string * list (json * nat)) + FailureReason :=
  if (List.length vs <? 2)%nat then inr NoCommonProperty
  else
    match candidates vs with
    | [] => if forallb has_const_property vs then inr InconsistentFieldName
            else inr NoCommonProperty
    | names =>
        match best vs (filter (accepted vs) names) with
        | None => inr NotAllConst
        | Some field =>
            if (distinct_count field vs <? List.length vs)%nat
            then inr DuplicateConstantValue
            else inl (field, index_from 0 (consts_of field vs))
        end
    end.

(** Modelled from the spec: step 1 of the classifier, exactly two
    variants one of which denotes the null type; [T] is the other. *)
Definition nullable_of (vs : list (option Schema)) : option (option Schema) :=
  match vs with
  | [a; b] =>
      if is_null_variant a then Some b
      else if is_null_variant b then Some a
      else None
  | _ => None
  end.

(** Modelled from the spec: the classifier of section 4.3.  A list of
    fewer than two variants has no shape of its own ("not a union for
    practical purposes").  In step 3 the [$ref] variants are opaque: the
    detector sees the other variants only. *)
Definition classify (vs : list (option Schema)) : option UnionShape :=
  if (List.length vs <? 2)%nat then None
  else
    Some
      match nullable_of vs with
      | Some T => Nullable T
      | None =>
          if forallb is_ref_variant vs then ReferenceOnly
          else
            match detect (filter (fun v => negb (is_ref_variant v)) vs) with
            | inl (field, tags) => Discriminated field tags
            | inr _ => Ambiguous
            end
      end.

(** *** Rules and profiles (section 4.5) *)

(** The path of the composition list the variants come from. *)
Definition union_path (path : string) (s : Schema) : string :=
  if (0 <? List.length (AnyOf s))%nat then path ++ "/anyOf" else path ++ "/oneOf".

(** Modelled from the spec: a variant is open to additional properties
    unless it sets [additionalProperties] to false. *)
Definition is_open (v : option Schema) : bool :=
  match v with
  | Some s => match AdditionalProperties s with Some false => false | _ => true end
  | None => true
  end.

Definition disagree_on_openness (vs : list (option Schema)) : bool :=
  existsb is_open vs && existsb (fun v => negb (is_open v)) vs.

(** Modelled from the spec: a rule is a row of a table: its code, its
    severity, the profiles it is active in, and its check, which gives
    the path and message of each finding at one node. *)
Record Rule : Type := mkRule {
  rule_code : IssueCode;
  rule_severity : SeverityLevel;
  rule_active : ProfileName -> bool;
  rule_check : Config -> string -> Schema -> list (string * string)
}.

Definition every_profile (p : ProfileName) : bool := true.

Definition default_only (p : ProfileName) : bool :=
  match p with ProfileDefault => true | ProfileScale => false end.

Definition scale_only (p : ProfileName) : bool :=
  match p with ProfileScale => true | ProfileDefault => false end.

Definition when (b : bool) (path msg : string) : list (string * string) :=
  if b then [(path, msg)] else [].

(** Modelled from the spec: [union-no-discriminator], a union classified
    [Ambiguous]. *)
Definition check_union_no_discriminator (c : Config) (path : string) (s : Schema)
  : list (string * string) :=
  when (IsUnion s &&
        match classify (GetUnionVariants s) with
        | Some Ambiguous => true
        | _ => false
        end)
    (union_path path s) "union has no discriminator".

(** Modelled from the spec: [large-union], more variants than the
    threshold of the profile. *)
Definition check_large_union (c : Config) (path : string) (s : Schema)
  : list (string * string) :=
  when (IsUnion s && (MaxUnionVariants c <? List.length (GetUnionVariants s))%nat)
    (union_path path s) "union has many variants".

(** Modelled from the spec: [additional-properties], sibling variants
    that disagree on whether additional properties are open. *)
Definition check_additional_props (c : Config) (path : string) (s : Schema)
  : list (string * string) :=
  when (IsUnion s && disagree_on_openness (GetUnionVariants s))
    (union_path path s) "variants disagree on additionalProperties".

(** Modelled from the spec: [composition-disallowed], one finding for
    each of [anyOf], [oneOf], [allOf] the node carries. *)
Definition check_composition (c : Config) (path : string) (s : Schema)
  : list (string * string) :=
  when (0 <? List.length (AnyOf s))%nat (path ++ "/anyOf") "anyOf is not allowed"
  ++ when (0 <? List.length (OneOf s))%nat (path ++ "/oneOf") "oneOf is not allowed"
  ++ when (0 <? List.length (AllOf s))%nat (path ++ "/allOf") "allOf is not allowed".

(** Modelled from the spec: [additional-properties-disallowed], an object
    schema with [additionalProperties: true]. *)
Definition check_additional_props_disallowed (c : Config) (path : string) (s : Schema)
  : list (string * string) :=
  when (IsObject s &&
        match AdditionalProperties s with Some true => true | _ => false end)
    path "additionalProperties is not allowed".

(** Modelled from the spec: [missing-type], a schema that is neither a
    reference, nor a boolean, nor composed, and has no explicit type. *)
Definition check_missing_type (c : Config) (path : string) (s : Schema)
  : list (string * string) :=
  when (negb (IsRef s) && negb (IsBooleanSchema s) &&
        negb (IsUnion s || (0 <? List.length (AllOf s))%nat) && negb (HasType s))
    path "schema has no type".

(** Modelled from the spec: [mixed-type-disallowed], a type given as a
    list of more than one entry. *)
Definition check_mixed_type (c : Config) (path : string) (s : Schema)
  : list (string * string) :=
  when (HasMixedType s) path "type lists several types".

(** Modelled from the spec: the rule table. *)
Definition rules : list Rule :=
  [ mkRule CodeUnionNoDiscriminator SeverityError every_profile
      check_union_no_discriminator;
    mkRule CodeLargeUnion SeverityWarning every_profile check_large_union;
    mkRule CodeAdditionalProps SeverityWarning default_only check_additional_props;
    mkRule CodeCompositionDisallowed SeverityError scale_only check_composition;
    mkRule CodeAdditionalPropsDisallowed SeverityError scale_only
      check_additional_props_disallowed;
    mkRule CodeMissingType SeverityError scale_only check_missing_type;
    mkRule CodeMixedTypeDisallowed SeverityError scale_only check_mixed_type ].

Definition apply_rule (c : Config) (path : string) (s : Schema) (r : Rule) : list Issue :=
  if rule_active r (Profile c)
  then map (fun f => mkIssue (rule_code r) (rule_severity r) (fst f) (snd f))
         (rule_check r c path s)
  else [].

(** Modelled from the spec: the issues of one node, every active rule
    applied to it. *)
Definition node_issues (c : Config) (path : string) (s : Schema) : list Issue :=
  flat_map (apply_rule c path s) rules.

Definition index_string (i : nat) : string :=
  NilZero.string_of_uint (Nat.to_uint i).

Section Walk.
(** The nodes below a subschema, with their paths. *)
Variable visit : string -> Schema -> list (string * Schema).

Definition walk_ptr (path : string) (p : option Schema) : list (string * Schema) :=
  match p with
  | Some s => visit path s
  | None => []
  end.

Definition walk_slice (path : string)
  : nat -> list (option Schema) -> list (string * Schema) :=
  fix go (i : nat) (l : list (option Schema)) {struct l} :=
    match l with
    | [] => []
    | p :: r => walk_ptr (path ++ "/" ++ index_string i) p ++ go (S i) r
    end.

Definition walk_map (path : string)
  : list (string * option Schema) -> list (string * Schema) :=
  fix go (m : list (string * option Schema)) {struct m} :=
    match m with
    | [] => []
    | (name, p) :: r => walk_ptr (path ++ "/" ++ name) p ++ go r
    end.
End Walk.

(** Modelled from the spec: the engine walks the root schema, every
    named definition under [$defs] and [definitions], and every
    subschema of them, each once; [nodes path s] lists them with their
    schema-pointer paths. *)
Fixpoint nodes (path : string) (s : Schema) {struct s} : list (string * Schema) :=
  (path, s)
  :: walk_map nodes (path ++ "/$defs") (Defs s)
  ++ walk_map nodes (path ++ "/definitions") (Definitions s)
  ++ walk_slice nodes (path ++ "/anyOf") 0 (AnyOf s)
  ++ walk_slice nodes (path ++ "/oneOf") 0 (OneOf s)
  ++ walk_slice nodes (path ++ "/allOf") 0 (AllOf s)
  ++ walk_map nodes (path ++ "/properties") (Properties s)
  ++ walk_ptr nodes (path ++ "/additionalProperties") (AdditionalPropertiesSchema s)
  ++ walk_ptr nodes (path ++ "/items") (Items s).

(** Modelled from the spec: every active rule is applied to every node
    and the results are concatenated. *)
Definition LintSchema (l : Linter) (root : Schema) : Result :=
  mkResult (flat_map (fun n => node_issues (config l) (fst n) (snd n)) (nodes "$" root)).

(** Modelled from the spec: [Lint(bytes) -> (Result, DecodeError?)]; the
    document is decoded into a new [Schema], and no result is produced
    when the decoding fails. *)
Definition Lint (l : Linter) (data : string) : Result * option error :=
  match UnmarshalJSON zero data with
  | (root, None) => (LintSchema l root, None)
  | (_, Some err) => (mkResult [], Some err)
  end.

End Linter.

(** ** Vocabulary of the properties *)

Module Syntax.
Import SchemaV2 Linter.

(** The size of a JSON value, for inductions on its nesting. *)
Fixpoint json_size (v : json) : nat :=
  match v with
  | JArray l => S (list_sum (map json_size l))
  | JObject ms => S (list_sum (map (fun kv => json_size (snd kv)) ms))
  | _ => 1
  end.

Definition is_string (x : json) : bool :=
  match x with JString _ => true | _ => false end.

Definition is_bool (x : json) : bool :=
  match x with JBool _ => true | _ => false end.

Definition string_array (x : json) : bool :=
  match x with JArray l => forallb is_string l | _ => false end.

Section Keywords.
(** Whether a nested value is a schema. *)
Variable rec : json -> bool.

Definition schema_map (x : json) : bool :=
  match x with
  | JObject ms => forallb (fun kv => rec (snd kv)) ms
  | _ => false
  end.

Definition schema_array (x : json) : bool :=
  match x with
  | JArray l => forallb rec l
  | _ => false
  end.

(** The value JSON Schema prescribes for a keyword the schema struct
    has a tagged field for.  A value held by [const], [default] or
    [enum] is free, but its numbers must fit a float64. *)
Definition keyword_syntax (f : field) (x : json) : bool :=
  match f with
  | F_Schema_ | F_ID | F_Ref | F_Title | F_Description => is_string x
  | F_Defs | F_Definitions => schema_map x
  | F_AnyOf | F_OneOf | F_AllOf => schema_array x
  | F_Required => string_array x
  | F_Items => rec x
  | F_Const | F_Default => numbers_ok x
  | F_Enum => match x with JArray l => forallb numbers_ok l | _ => false end
  | F_XAbstractComponent => is_bool x
  end.

(** A member of a schema object: a keyword is recognised as the
    decoder recognises it, that is up to letter case for the tagged
    fields and literally for [type], [properties] and
    [additionalProperties]; any other member is free. *)
Definition member_syntax (k : string) (x : json) : bool :=
  match lookup_field k with
  | Some f => keyword_syntax f x
  | None => true
  end
  && (if String.eqb k "type" then is_string x || string_array x else true)
  && (if String.eqb k "properties" then schema_map x else true)
  && (if String.eqb k "additionalProperties" then rec x else true).
End Keywords.

(** JSON Schema syntax: a schema is a boolean, or an object whose
    keywords carry values of the prescribed kind. *)
Fixpoint schema_syntax (v : json) {struct v} : bool :=
  match v with
  | JBool _ => true
  | JObject ms => forallb (fun kv => member_syntax schema_syntax (fst kv) (snd kv)) ms
  | _ => false
  end.

(** The value of the last member whose name designates the field [Ref]. *)
Fixpoint last_ref (ms : list (string * json)) : option json :=
  match ms with
  | [] => None
  | (k, x) :: r =>
      match last_ref r with
      | Some y => Some y
      | None =>
          match lookup_field k with
          | Some F_Ref => Some x
          | _ => None
          end
      end
  end.

(** The fields without a [json] tag. *)
Definition untagged (s : Schema) :=
  (Type_ s, TypeList s, Properties s, AdditionalProperties s,
   AdditionalPropertiesSchema s, IsBooleanSchema s, BooleanValue s).

Definition untagged_V1 (s : SchemaV1.Schema) :=
  (SchemaV1.AdditionalProperties s, SchemaV1.AdditionalPropertiesSchema s).

(** The field of the struct of [part_001] that carries the tag of a
    field of the struct of [schema.go]: [Type] and [Properties] have lost
    theirs. *)
Definition same_tag (f : SchemaV1.field) : option field :=
  match f with
  | SchemaV1.F_Schema_ => Some F_Schema_
  | SchemaV1.F_ID => Some F_ID
  | SchemaV1.F_Ref => Some F_Ref
  | SchemaV1.F_Defs => Some F_Defs
  | SchemaV1.F_Definitions => Some F_Definitions
  | SchemaV1.F_Type_ => None
  | SchemaV1.F_AnyOf => Some F_AnyOf
  | SchemaV1.F_OneOf => Some F_OneOf
  | SchemaV1.F_AllOf => Some F_AllOf
  | SchemaV1.F_Properties => None
  | SchemaV1.F_Required => Some F_Required
  | SchemaV1.F_Items => Some F_Items
  | SchemaV1.F_Const => Some F_Const
  | SchemaV1.F_Enum => Some F_Enum
  | SchemaV1.F_Title => Some F_Title
  | SchemaV1.F_Description => Some F_Description
  | SchemaV1.F_Default => Some F_Default
  | SchemaV1.F_XAbstractComponent => Some F_XAbstractComponent
  end.

(** [child s c]: the schema [c] is held by a field of [s]. *)
Inductive child (s c : Schema) : Prop :=
| child_defs (name : string) : In (name, Some c) (Defs s) -> child s c
| child_definitions (name : string) : In (name, Some c) (Definitions s) -> child s c
| child_anyOf : In (Some c) (AnyOf s) -> child s c
| child_oneOf : In (Some c) (OneOf s) -> child s c
| child_allOf : In (Some c) (AllOf s) -> child s c
| child_properties (name : string) : In (name, Some c) (Properties s) -> child s c
| child_additionalProperties : AdditionalPropertiesSchema s = Some c -> child s c
| child_items : Items s = Some c -> child s c.

(** [within root s]: the schema [s] lies anywhere in the document. *)
Inductive within (root : Schema) : Schema -> Prop :=
| within_root : within root root
| within_child (s c : Schema) : within root s -> child s c -> within root c.

(** The document contains an [anyOf]. *)
Definition contains_anyOf (root : Schema) : Prop :=
  exists s, within root s /\ AnyOf s <> [].

(** An object schema, in its effective role: not a reference, and of
    declared type [object]. *)
Definition object_variant (v : option Schema) : Prop :=
  exists r, v = Some r /\ IsRef r = false /\ Type_ r = "object".

(** The variant declares the property [name], and [c] is what the
    decoder holds for its [const].  The constant [null] is decoded to
    the nil interface, as no [const] at all is. *)
Definition declares_const (name : string) (v : option Schema) (c : json) : Prop :=
  exists r q, v = Some r /\ map_get name (Properties r) = Some (Some q) /\
              Const q = c.

(** The variant declares the property [name] with a constant the
    decoder kept. *)
Definition declares_tag (name : string) (v : option Schema) (c : json) : Prop :=
  exists r q, v = Some r /\ map_get name (Properties r) = Some (Some q) /\
              Const q = c /\ c <> JNull.

(** The documents of the tests [TestLintUnionWithDiscriminator] and
    [TestLintNullablePattern], and the document of the second scenario
    of the specification. *)
Definition animal_document : string :=
  (text "{
		'$defs': {
			'Animal': {
				'anyOf': [
					{
						'type': 'object',
						'properties': {
							'type': {'const': 'dog'},
							'name': {'type': 'string'}
						}
					},
					{
						'type': 'object',
						'properties': {
							'type': {'const': 'cat'},
							'name': {'type': 'string'}
						}
					}
				]
			}
		}
	}").

Definition nullable_document : string :=
  (text "{
		'$defs': {
			'NullableString': {
				'anyOf': [
					{'type': 'string'},
					{'type': 'null'}
				]
			}
		}
	}").

Definition nullable_scenario : string :=
  (text "{'$defs':{'X':{'anyOf':[{'type':'string'},{'type':'null'}]}}}").

End Syntax.

(** ** Vocabulary of the further properties *)

Module Shapes.
Import SchemaV2 Syntax.

(** The name an entry of a [type] array is recorded as: a string gives
    itself, [null] the empty name. *)
Definition type_name (x : json) : string :=
  match x with
  | JString t => t
  | _ => EmptyString
  end.

Definition is_name (x : json) : bool :=
  match x with
  | JString _ | JNull => true
  | _ => false
  end.

(** A [type] the decoder records: a string, or an array of strings
    and nulls. *)
Definition recorded_type (x : json) : bool :=
  match x with
  | JString _ => true
  | JArray l => forallb is_name l
  | _ => false
  end.

(** The pointer a member of a map or an element of a slice is decoded
    into when the destination is new: nil for [null]. *)
Definition decoded_ptr (x : json) : option Schema :=
  match x with
  | JNull => None
  | _ => Some (fst (unmarshalJSON zero x))
  end.

Definition decoded_ptr_V1 (x : json) : option SchemaV1.Schema :=
  match x with
  | JNull => None
  | _ => Some (fst (SchemaV1.unmarshalJSON SchemaV1.zero x))
  end.

(** The flag and the schema of [additionalProperties] agree: a node
    that holds a schema has the flag set to true. *)
Definition additional_consistent (n : Schema) : Prop :=
  AdditionalPropertiesSchema n <> None -> AdditionalProperties n = Some true.

(** The declared type and the type list agree: a list of one name
    declares that name, a longer list declares none. *)
Definition type_consistent (n : Schema) : Prop :=
  match TypeList n with
  | [] => True
  | [t] => Type_ n = t
  | _ => Type_ n = EmptyString
  end.

(** No property is a nil pointer. *)
Definition properties_set (n : Schema) : Prop :=
  forall name p, In (name, p) (Properties n) -> p <> None.

(** Only a boolean schema has a boolean value. *)
Definition markers_consistent (n : Schema) : Prop :=
  BooleanValue n = true -> IsBooleanSchema n = true.

(** The four together, and at every schema of a document. *)
Definition consistent (n : Schema) : Prop :=
  additional_consistent n /\ type_consistent n /\ properties_set n
  /\ markers_consistent n.

Definition all_consistent (root : Schema) : Prop :=
  forall n, within root n -> consistent n.

Definition no_error (e : option error) : bool :=
  match e with
  | None => true
  | Some _ => false
  end.

Section Acceptance.
(** Whether [UnmarshalJSON] accepts a nested value. *)
Variable rec : json -> bool.

(** A value decoded into a [*Schema]: [null] never reaches the method. *)
Definition ptr_accepted (x : json) : bool :=
  match x with
  | JNull => true
  | _ => rec x
  end.

Definition slice_accepted (x : json) : bool :=
  match x with
  | JNull => true
  | JArray l => forallb ptr_accepted l
  | _ => false
  end.

Definition map_accepted (x : json) : bool :=
  match x with
  | JNull => true
  | JObject ms => forallb (fun kv => ptr_accepted (snd kv)) ms
  | _ => false
  end.

Definition names_accepted (x : json) : bool :=
  match x with
  | JNull => true
  | JArray l => forallb is_name l
  | _ => false
  end.

(** The values a tagged field of [part_001] takes without error. *)
Definition field_accepted (f : field) (x : json) : bool :=
  match f with
  | F_Schema_ | F_ID | F_Ref | F_Title | F_Description => is_name x
  | F_Defs | F_Definitions => map_accepted x
  | F_AnyOf | F_OneOf | F_AllOf => slice_accepted x
  | F_Required => names_accepted x
  | F_Items => ptr_accepted x
  | F_Const | F_Default => numbers_ok x
  | F_Enum =>
      match x with
      | JNull => true
      | JArray l => forallb numbers_ok l
      | _ => false
      end
  | F_XAbstractComponent =>
      match x with
      | JNull | JBool _ => true
      | _ => false
      end
  end.

(** The values a tagged field of [schema.go] takes without error. *)
Definition field_accepted_V1 (f : SchemaV1.field) (x : json) : bool :=
  match same_tag f with
  | Some g => field_accepted g x
  | None =>
      match f with
      | SchemaV1.F_Type_ => is_name x
      | _ => map_accepted x
      end
  end.

(** The members of [properties] that are decoded, each the last of its
    name, are all decodes. *)
Definition props_accepted : list (string * json) -> bool :=
  fix go (pm : list (string * json)) {struct pm} :=
    match pm with
    | [] => true
    | (name, y) :: pm' => (has_key name pm' || rec y) && go pm'
    end.

Definition properties_accepted (x : json) : bool :=
  match x with
  | JNull => true
  | JObject pm => props_accepted pm
  | _ => false
  end.

Definition members_accepted (ms : list (string * json)) : bool :=
  forallb (fun kv => match lookup_field (fst kv) with
                     | Some f => field_accepted f (snd kv)
                     | None => true
                     end) ms
  && raw_apply properties_accepted "properties" ms true.

Definition members_accepted_V1 (ms : list (string * json)) : bool :=
  forallb (fun kv => match SchemaV1.lookup_field (fst kv) with
                     | Some f => field_accepted_V1 f (snd kv)
                     | None => true
                     end) ms.
End Acceptance.

(** The values [UnmarshalJSON] of [part_001] decodes without error. *)
Fixpoint decodes (v : json) {struct v} : bool :=
  match v with
  | JNull | JBool _ => true
  | JObject ms => members_accepted decodes ms
  | _ => false
  end.

(** The values [UnmarshalJSON] of [schema.go] decodes without error. *)
Fixpoint decodes_V1 (v : json) {struct v} : bool :=
  match v with
  | JNull => true
  | JObject ms => members_accepted_V1 decodes_V1 ms
  | _ => false
  end.

End Shapes.

(** ** The module lookup of [schemalint generate] *)

Module Generate.

(** [strings.Split(s, sep)] for a separator of one byte: the pieces of
    [s] between the separators, one piece more than there are
    separators. *)
Fixpoint Split (s : string) (sep : ascii) : list string :=
  match s with
  | EmptyString => [EmptyString]
  | String c s' =>
      if Ascii.eqb c sep then EmptyString :: Split s' sep
      else
        match Split s' sep with
        | l :: ls => String c l :: ls
        | [] => [String c EmptyString]
        end
  end.

(** [strings.Join(parts, sep)]. *)
Fixpoint Join (parts : list string) (sep : string) : string :=
  match parts with
  | [] => EmptyString
  | [l] => l
  | l :: ls => (l ++ sep ++ Join ls sep)%string
  end.

(** [strings.HasPrefix] and [strings.TrimPrefix]. *)
Fixpoint HasPrefix (s p : string) {struct p} : bool :=
  match p with
  | EmptyString => true
  | String b p' =>
      match s with
      | EmptyString => false
      | String a s' => Ascii.eqb a b && HasPrefix s' p'
      end
  end.

Fixpoint drop (n : nat) (s : string) : string :=
  match n, s with
  | S n', String _ s' => drop n' s'
  | _, _ => s
  end.

Definition TrimPrefix (s p : string) : string :=
  if HasPrefix s p then drop (String.length p) s else s.

(** The white space of [unicode.IsSpace], in UTF-8: the six ASCII
    characters, U+0085 and U+00A0 on two bytes, and U+1680,
    U+2000..U+200A, U+2028, U+2029, U+202F, U+205F and U+3000 on
    three. *)
Definition ascii_space (c : ascii) : bool :=
  Ascii.eqb c "009" || Ascii.eqb c "010" || Ascii.eqb c "011" || Ascii.eqb c "012"
  || Ascii.eqb c "013" || Ascii.eqb c " ".

Definition space2 (c d : ascii) : bool :=
  Ascii.eqb c "194" && (Ascii.eqb d "133" || Ascii.eqb d "160").

Definition space3 (c d e : ascii) : bool :=
  (Ascii.eqb c "225" && Ascii.eqb d "154" && Ascii.eqb e "128")
  || (Ascii.eqb c "226" && Ascii.eqb d "128"
      && ((128 <=? nat_of_ascii e)%nat && (nat_of_ascii e <=? 138)%nat
          || Ascii.eqb e "168" || Ascii.eqb e "169" || Ascii.eqb e "175"))
  || (Ascii.eqb c "226" && Ascii.eqb d "129" && Ascii.eqb e "159")
  || (Ascii.eqb c "227" && Ascii.eqb d "128" && Ascii.eqb e "128").

(** The rest of [s] after the white-space character it begins with. *)
Definition space_rune (s : string) : option string :=
  match s with
  | EmptyString => None
  | String c s1 =>
      if ascii_space c then Some s1
      else
        match s1 with
        | EmptyString => None
        | String d s2 =>
            if space2 c d then Some s2
            else
              match s2 with
              | EmptyString => None
              | String e s3 => if space3 c d e then Some s3 else None
              end
        end
  end.

(** [strings.TrimLeftFunc(s, unicode.IsSpace)]: the white space [s]
    begins with is removed; bytes that are no encoding of a character
    are not white space. *)
Fixpoint TrimLeftSpace (s : string) : string :=
  match s with
  | EmptyString => s
  | String c s1 =>
      if ascii_space c then TrimLeftSpace s1
      else
        match s1 with
        | EmptyString => s
        | String d s2 =>
            if space2 c d then TrimLeftSpace s2
            else
              match s2 with
              | EmptyString => s
              | String e s3 => if space3 c d e then TrimLeftSpace s3 else s
              end
        end
  end.

(** The string is made of white space only. *)
Fixpoint all_space (s : string) : bool :=
  match s with
  | EmptyString => true
  | String c s1 =>
      if ascii_space c then all_space s1
      else
        match s1 with
        | EmptyString => false
        | String d s2 =>
            if space2 c d then all_space s2
            else
              match s2 with
              | EmptyString => false
              | String e s3 => if space3 c d e then all_space s3 else false
              end
        end
  end.

(** [strings.TrimRightFunc(s, unicode.IsSpace)]: the white space [s]
    ends with is removed, that is its longest suffix made of white
    space. *)
Fixpoint TrimRightSpace (s : string) : string :=
  match s with
  | EmptyString => EmptyString
  | String c s1 => if all_space s then EmptyString else String c (TrimRightSpace s1)
  end.

(** [strings.TrimSpace]. *)
Definition TrimSpace (s : string) : string := TrimRightSpace (TrimLeftSpace s).

(** The line declares a module. *)
Definition declares_module (line : string) : bool :=
  HasPrefix (TrimSpace line) "module ".

(** The string holds no line feed. *)
Fixpoint one_line (s : string) : bool :=
  match s with
  | EmptyString => true
  | String c s' => negb (Ascii.eqb c "010") && one_line s'
  end.

(** The loop of [parseModuleName] over the lines. *)
Fixpoint module_line (lines : list string) : string :=
  match lines with
  | [] => EmptyString
  | line :: lines' =>
      let line := TrimSpace line in
      if HasPrefix line "module " then TrimSpace (TrimPrefix line "module ")
      else module_line lines'
  end.

(** [parseModuleName]. *)
Definition parseModuleName (content : string) : string :=
  module_line (Split content "010").

(** What [findModule] asks of the operating system: [os.Getenv],
    the result of [os.UserHomeDir] (empty when it fails),
    [filepath.Join], whether [os.Stat] succeeds, and [os.ReadFile]. *)
Record System : Type := mkSystem {
  Getenv : string -> string;
  UserHomeDir : string;
  filepath_Join : list string -> string;
  Stat : string -> bool;
  ReadFile : string -> option string
}.

Section FindModule.
Variable os : System.

Definition gopath : string :=
  let gopath := Getenv os "GOPATH" in
  if String.eqb gopath EmptyString then filepath_Join os [UserHomeDir os; "go"]
  else gopath.

(** The loop of [findModule], from [i] parts down to one. *)
Fixpoint find_local (parts : list string) (i : nat) : option (string * string) :=
  match i with
  | O => None
  | S j =>
      let candidate := filepath_Join os (firstn i parts) in
      let candidatePath := filepath_Join os [gopath; "src"; candidate] in
      let goModPath := filepath_Join os [candidatePath; "go.mod"] in
      if Stat os goModPath then
        match ReadFile os goModPath with
        | None => find_local parts j
        | Some content =>
            let modName := parseModuleName content in
            if negb (String.eqb modName EmptyString) then Some (candidatePath, modName)
            else find_local parts j
        end
      else find_local parts j
  end.

(** The module name guessed for a package that is not found locally. *)
Definition remote_module (pkgPath : string) (parts : list string) : string :=
  if (3 <=? List.length parts)%nat
     && (String.eqb (hd EmptyString parts) "github.com"
         || String.eqb (hd EmptyString parts) "gitlab.com"
         || String.eqb (hd EmptyString parts) "bitbucket.org")
  then Join (firstn 3 parts) "/"
  else pkgPath.

(** [findModule]. *)
Definition findModule (pkgPath : string) : string * string :=
  let parts := Split pkgPath "/" in
  match find_local parts (List.length parts) with
  | Some found => found
  | None => (EmptyString, remote_module pkgPath parts)
  end.
End FindModule.

End Generate.

(** * Properties *)

Import SchemaV2 Linter Syntax Shapes Generate.

(** ** [encoding/json] *)

Lemma skip_space_length (s : string) :
  String.length (skip_space s) <= String.length s.
Proof.
  induction s as [|c r IH]; simpl; [lia|].
  destruct (is_space c); simpl; lia.
Qed.

Lemma next_is_length (c : ascii) (s r : string) :
  next_is c s = Some r -> String.length r < String.length s.
Proof.
  unfold next_is. pose proof (skip_space_length s) as H.
  destruct (skip_space s) as [|c' r']; [discriminate|].
  destruct (Ascii.eqb c' c); [|discriminate].
  intros E. injection E as <-. simpl in H. lia.
Qed.

Lemma starts_with_length (p s r : string) :
  starts_with p s = Some r -> String.length r <= String.length s.
Proof.
  revert s. induction p as [|a p IH]; intros s; simpl.
  - intros E. injection E as <-. lia.
  - destruct s as [|b s']; [discriminate|].
    destruct (Ascii.eqb a b); [|discriminate].
    intros E. apply IH in E. simpl. lia.
Qed.

Lemma scan_string_length (n : nat) :
  forall s ps r, String.length s <= n -> scan_string s = Some (ps, r) ->
                 String.length r < String.length s.
Proof.
  induction n as [|n IH]; intros s ps r Hn; destruct s as [|c s1]; simpl in *;
    try discriminate; try lia.
  destruct (Ascii.eqb c "034").
  { intros E. injection E as _ <-. lia. }
  destruct (Ascii.eqb c "\").
  - destruct s1 as [|e s2]; [discriminate|].
    destruct (escape_char e).
    + destruct (scan_string s2) as [[ps' r']|] eqn:E2; [|discriminate].
      intros E. injection E as _ <-.
      apply IH in E2; simpl in *; lia.
    + destruct (Ascii.eqb e "u"); [|discriminate].
      destruct s2 as [|h1 [|h2 [|h3 [|h4 s6]]]]; try discriminate.
      destruct (getu4 h1 h2 h3 h4); [|discriminate].
      destruct (scan_string s6) as [[ps' r']|] eqn:E6; [|discriminate].
      intros E. injection E as _ <-.
      apply IH in E6; simpl in *; lia.
  - destruct (nat_of_ascii c <? 32)%nat; [discriminate|].
    destruct (scan_string s1) as [[ps' r']|] eqn:E1; [|discriminate].
    intros E. injection E as _ <-.
    apply IH in E1; simpl in *; lia.
Qed.

Lemma parse_string_length (s str r : string) :
  parse_string s = Some (str, r) -> String.length r < String.length s.
Proof.
  unfold parse_string. destruct (scan_string s) as [[ps r']|] eqn:E; [|discriminate].
  intros H. injection H as _ <-.
  apply (scan_string_length (String.length s) s ps r' (Nat.le_refl _) E).
Qed.

Lemma span_number_length (s n r : string) :
  span_number s = (n, r) -> String.length s = String.length n + String.length r.
Proof.
  revert n r. induction s as [|c s IH]; intros n r; simpl.
  - intros E. injection E as <- <-. reflexivity.
  - destruct (is_number_char c).
    + destruct (span_number s) as [n' r'] eqn:E'. intros E. injection E as <- <-.
      simpl. rewrite (IH n' r' eq_refl). reflexivity.
    + intros E. injection E as <- <-. reflexivity.
Qed.

Lemma literal_length (v w : json) (word rest r : string) :
  literal v word rest = Some (w, r) -> String.length r <= String.length rest.
Proof.
  unfold literal. destruct (starts_with word rest) as [r'|] eqn:E; [|discriminate].
  intros H. injection H as _ <-. apply (starts_with_length _ _ _ E).
Qed.

Lemma parse_value_S (fuel : nat) (depth : Z) (s : string) :
  parse_value (S fuel) depth s =
  match skip_space s with
  | EmptyString => None
  | String c r =>
      if Ascii.eqb c "n" then literal JNull "ull" r
      else if Ascii.eqb c "t" then literal (JBool true) "rue" r
      else if Ascii.eqb c "f" then literal (JBool false) "alse" r
      else if Ascii.eqb c "034" then
        match parse_string r with
        | Some (str, r') => Some (JString str, r')
        | None => None
        end
      else if Ascii.eqb c "[" then
        if (maxNestingDepth <=? depth)%Z then None
        else
          match next_is "]" r with
          | Some r' => Some (JArray [], r')
          | None =>
              match parse_elems fuel (depth + 1) r with
              | Some (vs, r') => Some (JArray vs, r')
              | None => None
              end
          end
      else if Ascii.eqb c "{" then
        if (maxNestingDepth <=? depth)%Z then None
        else
          match next_is "}" r with
          | Some r' => Some (JObject [], r')
          | None =>
              match parse_members fuel (depth + 1) r with
              | Some (ms, r') => Some (JObject ms, r')
              | None => None
              end
          end
      else
        let '(n, r') := span_number (String c r) in
        if valid_number n then Some (JNumber n, r') else None
  end.
Proof. reflexivity. Qed.

Lemma parse_elems_S (fuel : nat) (depth : Z) (s : string) :
  parse_elems (S fuel) depth s =
  match parse_value fuel depth s with
  | None => None
  | Some (v, r) =>
      match next_is "," r with
      | Some r' =>
          match parse_elems fuel depth r' with
          | Some (vs, r'') => Some (v :: vs, r'')
          | None => None
          end
      | None =>
          match next_is "]" r with
          | Some r' => Some ([v], r')
          | None => None
          end
      end
  end.
Proof. reflexivity. Qed.

Lemma parse_members_S (fuel : nat) (depth : Z) (s : string) :
  parse_members (S fuel) depth s =
  match next_is "034" s with
  | None => None
  | Some r =>
      match parse_string r with
      | None => None
      | Some (k, r1) =>
          match next_is ":" r1 with
          | None => None
          | Some r2 =>
              match parse_value fuel depth r2 with
              | None => None
              | Some (v, r3) =>
                  match next_is "," r3 with
                  | Some r4 =>
                      match parse_members fuel depth r4 with
                      | Some (ms, r5) => Some ((k, v) :: ms, r5)
                      | None => None
                      end
                  | None =>
                      match next_is "}" r3 with
                      | Some r4 => Some ([(k, v)], r4)
                      | None => None
                      end
                  end
              end
          end
      end
  end.
Proof. reflexivity. Qed.

(** Every step of the parser reads at least one character. *)
Lemma parse_consumes (fuel : nat) :
  (forall d s v r, parse_value fuel d s = Some (v, r) ->
                   String.length r < String.length s) /\
  (forall d s vs r, parse_elems fuel d s = Some (vs, r) ->
                    String.length r < String.length s) /\
  (forall d s ms r, parse_members fuel d s = Some (ms, r) ->
                    String.length r < String.length s).
Proof.
  induction fuel as [|fuel (IHv & IHe & IHm)];
    [repeat split; intros; discriminate|].
  split; [|split].
  - intros d s v r. rewrite parse_value_S.
    pose proof (skip_space_length s) as Hs.
    destruct (skip_space s) as [|c s1]; [discriminate|]. simpl in Hs.
    destruct (Ascii.eqb c "n"); [intros E; apply literal_length in E; lia|].
    destruct (Ascii.eqb c "t"); [intros E; apply literal_length in E; lia|].
    destruct (Ascii.eqb c "f"); [intros E; apply literal_length in E; lia|].
    destruct (Ascii.eqb c "034").
    { destruct (parse_string s1) as [[str r']|] eqn:E1; [|discriminate].
      intros E. injection E as _ <-. apply parse_string_length in E1. lia. }
    destruct (Ascii.eqb c "[").
    { destruct (maxNestingDepth <=? d)%Z; [discriminate|].
      destruct (next_is "]" s1) as [r'|] eqn:E1.
      - intros E. injection E as _ <-. apply next_is_length in E1. lia.
      - destruct (parse_elems fuel (d + 1) s1) as [[vs r']|] eqn:E2; [|discriminate].
        intros E. injection E as _ <-. apply IHe in E2. lia. }
    destruct (Ascii.eqb c "{").
    { destruct (maxNestingDepth <=? d)%Z; [discriminate|].
      destruct (next_is "}" s1) as [r'|] eqn:E1.
      - intros E. injection E as _ <-. apply next_is_length in E1. lia.
      - destruct (parse_members fuel (d + 1) s1) as [[ms r']|] eqn:E2; [|discriminate].
        intros E. injection E as _ <-. apply IHm in E2. lia. }
    destruct (span_number (String c s1)) as [n r'] eqn:E1.
    apply span_number_length in E1.
    destruct (valid_number n) eqn:Ev; [|discriminate].
    intros E. injection E as _ <-.
    destruct n; [discriminate Ev|]. simpl in *. lia.
  - intros d s vs r. rewrite parse_elems_S.
    destruct (parse_value fuel d s) as [[v r1]|] eqn:E1; [|discriminate].
    apply IHv in E1.
    destruct (next_is "," r1) as [r2|] eqn:E2.
    + apply next_is_length in E2.
      destruct (parse_elems fuel d r2) as [[vs' r3]|] eqn:E3; [|discriminate].
      intros E. injection E as _ <-. apply IHe in E3. lia.
    + destruct (next_is "]" r1) as [r2|] eqn:E3; [|discriminate].
      intros E. injection E as _ <-. apply next_is_length in E3. lia.
  - intros d s ms r. rewrite parse_members_S.
    destruct (next_is "034" s) as [r0|] eqn:E0; [|discriminate].
    apply next_is_length in E0.
    destruct (parse_string r0) as [[k r1]|] eqn:E1; [|discriminate].
    apply parse_string_length in E1.
    destruct (next_is ":" r1) as [r2|] eqn:E2; [|discriminate].
    apply next_is_length in E2.
    destruct (parse_value fuel d r2) as [[v r3]|] eqn:E3; [|discriminate].
    apply IHv in E3.
    destruct (next_is "," r3) as [r4|] eqn:E4.
    + apply next_is_length in E4.
      destruct (parse_members fuel d r4) as [[ms' r5]|] eqn:E5; [|discriminate].
      intros E. injection E as _ <-. apply IHm in E5. lia.
    + destruct (next_is "}" r3) as [r4|] eqn:E5; [|discriminate].
      intros E. injection E as _ <-. apply next_is_length in E5. lia.
Qed.

(** Fuel beyond twice the length of the text changes nothing. *)
Lemma parse_fuel (fuel : nat) :
  (forall d s k, 2 * String.length s + 1 <= fuel ->
                 parse_value (fuel + k) d s = parse_value fuel d s) /\
  (forall d s k, 2 * String.length s + 2 <= fuel ->
                 parse_elems (fuel + k) d s = parse_elems fuel d s) /\
  (forall d s k, 2 * String.length s + 2 <= fuel ->
                 parse_members (fuel + k) d s = parse_members fuel d s).
Proof.
  induction fuel as [|fuel (IHv & IHe & IHm)]; [repeat split; intros; lia|].
  destruct (parse_consumes fuel) as (Cv & _ & _).
  split; [|split]; intros d s k Hf; cbn [Nat.add].
  - rewrite !parse_value_S.
    pose proof (skip_space_length s) as Hs.
    destruct (skip_space s) as [|c s1]; [reflexivity|]. simpl in Hs.
    rewrite (IHe (d + 1)%Z s1 k) by lia.
    rewrite (IHm (d + 1)%Z s1 k) by lia.
    reflexivity.
  - rewrite !parse_elems_S.
    rewrite (IHv d s k) by lia.
    destruct (parse_value fuel d s) as [[v r1]|] eqn:E1; [|reflexivity].
    apply Cv in E1.
    destruct (next_is "," r1) as [r2|] eqn:E2; [|reflexivity].
    apply next_is_length in E2.
    rewrite (IHe d r2 k) by lia. reflexivity.
  - rewrite !parse_members_S.
    destruct (next_is "034" s) as [r0|] eqn:E0; [|reflexivity].
    apply next_is_length in E0.
    destruct (parse_string r0) as [[key r1]|] eqn:E1; [|reflexivity].
    apply parse_string_length in E1.
    destruct (next_is ":" r1) as [r2|] eqn:E2; [|reflexivity].
    apply next_is_length in E2.
    rewrite (IHv d r2 k) by lia.
    destruct (parse_value fuel d r2) as [[v r3]|] eqn:E3; [|reflexivity].
    apply Cv in E3.
    destruct (next_is "," r3) as [r4|] eqn:E4; [|reflexivity].
    apply next_is_length in E4.
    rewrite (IHm d r4 k) by lia. reflexivity.
Qed.

(** The fuel [parse] gives the parser is enough: with any more of it the
    parser returns the same value, or fails as well. *)
Lemma parse_fuel_enough (data : string) (k : nat) :
  parse_value (2 * String.length data + 2 + k) 0 data
  = parse_value (2 * String.length data + 2) 0 data.
Proof. apply (proj1 (parse_fuel _)). lia. Qed.

Lemma raw_apply_get {B : Type} (f : json -> B) (key : string) (ms : list (string * json)) :
  forall none : B,
    raw_apply f key ms none =
    match raw_get key ms with
    | Some x => f x
    | None => none
    end.
Proof.
  induction ms as [|[k x] ms IH]; intros none; simpl.
  - reflexivity.
  - rewrite IH. destruct (raw_get key ms); [reflexivity|].
    destruct (String.eqb k key); reflexivity.
Qed.

Lemma raw_get_In (key : string) (ms : list (string * json)) (x : json) :
  raw_get key ms = Some x -> In (key, x) ms.
Proof.
  induction ms as [|[k y] ms IH]; simpl; [discriminate|].
  destruct (raw_get key ms) as [z|].
  - intros H; injection H as ->. right. apply IH. reflexivity.
  - destruct (String.eqb k key) eqn:E; [|discriminate].
    intros H; injection H as ->. apply String.eqb_eq in E. subst. now left.
Qed.

Lemma unmarshalJSON_eq (s : Schema) (v : json) :
  unmarshalJSON s v = unmarshal_body unmarshalJSON s v.
Proof. destruct v; reflexivity. Qed.

Lemma unmarshalJSON_V1_eq (s : SchemaV1.Schema) (v : json) :
  SchemaV1.unmarshalJSON s v = SchemaV1.unmarshal_body SchemaV1.unmarshalJSON s v.
Proof. destruct v; reflexivity. Qed.

(** ** The schema model *)

(** C5. [GetUnionVariants] returns the [anyOf] list whenever it is not
    empty, and the [oneOf] list when [anyOf] is empty; so it returns
    [oneOf] only when [anyOf] is empty (or holds the same variants).
    This holds for the [Schema] of both files. *)
Theorem GetUnionVariants_anyOf_first :
  (forall s : SchemaV2.Schema,
      (SchemaV2.AnyOf s <> [] -> SchemaV2.GetUnionVariants s = SchemaV2.AnyOf s) /\
      (SchemaV2.AnyOf s = [] -> SchemaV2.GetUnionVariants s = SchemaV2.OneOf s) /\
      (SchemaV2.GetUnionVariants s = SchemaV2.OneOf s ->
       SchemaV2.AnyOf s = [] \/ SchemaV2.AnyOf s = SchemaV2.OneOf s)) /\
  (forall s : SchemaV1.Schema,
      (SchemaV1.AnyOf s <> [] -> SchemaV1.GetUnionVariants s = SchemaV1.AnyOf s) /\
      (SchemaV1.AnyOf s = [] -> SchemaV1.GetUnionVariants s = SchemaV1.OneOf s) /\
      (SchemaV1.GetUnionVariants s = SchemaV1.OneOf s ->
       SchemaV1.AnyOf s = [] \/ SchemaV1.AnyOf s = SchemaV1.OneOf s)).
Proof.
  split; intros s.
  - unfold SchemaV2.GetUnionVariants.
    destruct (SchemaV2.AnyOf s) as [|v vs] eqn:E; simpl.
    + repeat split; auto. congruence.
    + repeat split; auto; congruence.
  - unfold SchemaV1.GetUnionVariants.
    destruct (SchemaV1.AnyOf s) as [|v vs] eqn:E; simpl.
    + repeat split; auto. congruence.
    + repeat split; auto; congruence.
Qed.

Lemma GetUnionVariants_anyOf_first_witness :
  SchemaV2.GetUnionVariants (set_OneOf [None; None] (set_AnyOf [None] zero)) = [None].
Proof.
  apply (proj1 (proj1 GetUnionVariants_anyOf_first
                  (set_OneOf [None; None] (set_AnyOf [None] zero)))).
  simpl. discriminate.
Defined.

(** [UnmarshalJSON] on an object, with [raw] read as the code reads it. *)
Lemma unmarshalJSON_object (s : Schema) (ms : list (string * json)) :
  unmarshalJSON s (JObject ms) =
  match unmarshal_fields (alias_field unmarshalJSON) zero ms with
  | (_, Some err) => (s, Some err)
  | (alias, None) =>
      let s1 := match raw_get "type" ms with
                | Some typeRaw => decode_type typeRaw alias
                | None => alias
                end in
      match match raw_get "properties" ms with
            | Some propsRaw => decode_properties unmarshalJSON propsRaw s1
            | None => (s1, None)
            end with
      | (s2, Some err) => (s2, Some err)
      | (s2, None) =>
          (match raw_get "additionalProperties" ms with
           | Some apRaw => decode_additional unmarshalJSON apRaw s2
           | None => s2
           end, None)
      end
  end.
Proof.
  rewrite unmarshalJSON_eq. unfold unmarshal_body. simpl.
  destruct (unmarshal_fields (alias_field unmarshalJSON) zero ms) as [alias [err|]];
    [reflexivity|].
  rewrite !raw_apply_get.
  destruct (match raw_get "properties" ms with
            | Some x => _
            | None => _
            end) as [s2 [err|]]; [reflexivity|].
  rewrite raw_apply_get. reflexivity.
Qed.

Lemma unmarshalJSON_V1_object (s : SchemaV1.Schema) (ms : list (string * json)) :
  SchemaV1.unmarshalJSON s (JObject ms) =
  match unmarshal_fields (SchemaV1.alias_field SchemaV1.unmarshalJSON) SchemaV1.zero ms with
  | (_, Some err) => (s, Some err)
  | (alias, None) =>
      (match raw_get "additionalProperties" ms with
       | Some apRaw => SchemaV1.decode_additional SchemaV1.unmarshalJSON apRaw alias
       | None => alias
       end, None)
  end.
Proof.
  rewrite unmarshalJSON_V1_eq. unfold SchemaV1.unmarshal_body. simpl.
  destruct (unmarshal_fields (SchemaV1.alias_field SchemaV1.unmarshalJSON) SchemaV1.zero ms)
    as [alias [err|]]; [reflexivity|].
  rewrite raw_apply_get. reflexivity.
Qed.

(** What holds of the struct before a member is decoded and is kept by
    every member holds of the struct the decoder returns. *)
Lemma unmarshal_fields_invariant {A : Type} (f : A -> string -> json -> decoded A)
  (I : A -> Prop) :
  (forall a k x, I a -> I (fst (f a k x))) ->
  forall ms a, I a -> I (fst (unmarshal_fields f a ms)).
Proof.
  intros Hstep. induction ms as [|[k x] ms IH]; intros a Ha; simpl; [exact Ha|].
  specialize (Hstep a k x Ha).
  destruct (f a k x) as [a' e]. simpl in Hstep.
  specialize (IH a' Hstep).
  destruct (unmarshal_fields f a' ms) as [a'' e']. exact IH.
Qed.

Ltac alias_cases k :=
  unfold alias_field, SchemaV1.alias_field;
  destruct (lookup_field k) as [[]|]; try destruct (SchemaV1.lookup_field k) as [[]|];
  repeat match goal with
    | |- context [let '(_, _) := ?c in _] => destruct c
    end.

Lemma alias_field_untagged (rec : Schema -> json -> decoded Schema)
  (a : Schema) (k : string) (x : json) :
  untagged (fst (alias_field rec a k x)) = untagged a.
Proof. alias_cases k; reflexivity. Qed.

Lemma alias_untagged (rec : Schema -> json -> decoded Schema) (ms : list (string * json)) :
  untagged (fst (unmarshal_fields (alias_field rec) zero ms)) = untagged zero.
Proof.
  apply (unmarshal_fields_invariant (alias_field rec) (fun a => untagged a = untagged zero));
    [|reflexivity].
  intros a k x Ha. rewrite alias_field_untagged. exact Ha.
Qed.

Lemma decode_type_keeps (typeRaw : json) (s : Schema) :
  let r := decode_type typeRaw s in
  (Properties r, AdditionalProperties r, AdditionalPropertiesSchema r,
   IsBooleanSchema r, BooleanValue r, Ref r, Const r, Enum r) =
  (Properties s, AdditionalProperties s, AdditionalPropertiesSchema s,
   IsBooleanSchema s, BooleanValue s, Ref s, Const s, Enum s).
Proof.
  unfold decode_type.
  destruct (unmarshal_string EmptyString typeRaw) as [strVal [e|]]; [|reflexivity].
  destruct (unmarshal_string_slice [] typeRaw) as [arrVal [e'|]]; [reflexivity|].
  destruct arrVal as [|t [|u r]]; reflexivity.
Qed.

Lemma decode_properties_keeps (rec : Schema -> json -> decoded Schema)
  (propsRaw : json) (s : Schema) :
  let r := fst (decode_properties rec propsRaw s) in
  (Type_ r, TypeList r, AdditionalProperties r, AdditionalPropertiesSchema r,
   IsBooleanSchema r, BooleanValue r, Ref r, Const r, Enum r) =
  (Type_ s, TypeList s, AdditionalProperties s, AdditionalPropertiesSchema s,
   IsBooleanSchema s, BooleanValue s, Ref s, Const s, Enum s).
Proof.
  unfold decode_properties. destruct propsRaw; try reflexivity.
  destruct (decode_props rec members []); reflexivity.
Qed.

Lemma decode_additional_keeps (rec : Schema -> json -> decoded Schema)
  (apRaw : json) (s : Schema) :
  let r := decode_additional rec apRaw s in
  (Type_ r, TypeList r, Properties r, IsBooleanSchema r, BooleanValue r,
   Ref r, Const r, Enum r) =
  (Type_ s, TypeList s, Properties s, IsBooleanSchema s, BooleanValue s,
   Ref s, Const s, Enum s).
Proof.
  unfold decode_additional.
  destruct (unmarshal_bool false apRaw) as [b [e|]]; [|reflexivity].
  destruct (rec zero apRaw) as [sv [e'|]]; reflexivity.
Qed.

Lemma parse_true : parse "true" = Some (JBool true).
Proof. vm_compute. reflexivity. Qed.

Lemma parse_false : parse "false" = Some (JBool false).
Proof. vm_compute. reflexivity. Qed.

(** The stages of a successful decoding of an object. *)
Lemma unmarshalJSON_object_ok (s r : Schema) (ms : list (string * json)) :
  unmarshalJSON s (JObject ms) = (r, None) ->
  exists alias s1 s2,
    unmarshal_fields (alias_field unmarshalJSON) zero ms = (alias, None) /\
    s1 = match raw_get "type" ms with
         | Some typeRaw => decode_type typeRaw alias
         | None => alias
         end /\
    match raw_get "properties" ms with
    | Some propsRaw => decode_properties unmarshalJSON propsRaw s1
    | None => (s1, None)
    end = (s2, None) /\
    r = match raw_get "additionalProperties" ms with
        | Some apRaw => decode_additional unmarshalJSON apRaw s2
        | None => s2
        end.
Proof.
  rewrite unmarshalJSON_object.
  destruct (unmarshal_fields (alias_field unmarshalJSON) zero ms) as [alias [err|]];
    [discriminate|].
  cbv zeta.
  set (s1 := match raw_get "type" ms with Some t => decode_type t alias | None => alias end).
  destruct (match raw_get "properties" ms with
            | Some propsRaw => decode_properties unmarshalJSON propsRaw s1
            | None => (s1, None)
            end) as [s2 [err|]] eqn:E; [discriminate|].
  intros H. injection H as <-.
  exists alias, s1, s2. repeat split; auto.
Qed.

(** C6, as amended.  With the decoder of [part_001], decoding the
    bytes [true] or [false] succeeds and gives a node marked as a
    boolean schema that carries the boolean, and the node decoded from
    a JSON object is never so marked.  The decoder of [schema.go], which
    the claim cites too, has no marker: it returns a type error on
    these bytes and leaves the node as it was. *)
Theorem boolean_schema_is_marked (s : Schema) (b : bool) :
  (let '(r, err) := UnmarshalJSON s (if b then "true" else "false") in
   err = None /\ IsBooleanSchema r = true /\ BooleanValue r = b) /\
  (forall (data : string) (ms : list (string * json)) (r : Schema),
      parse data = Some (JObject ms) ->
      UnmarshalJSON s data = (r, None) ->
      IsBooleanSchema r = false) /\
  (forall s1 : SchemaV1.Schema,
      SchemaV1.UnmarshalJSON s1 (if b then "true" else "false")
      = (s1, Some UnmarshalTypeError)).
Proof.
  split; [|split].
  - unfold UnmarshalJSON, Unmarshal.
    destruct b; [rewrite parse_true | rewrite parse_false];
      rewrite unmarshalJSON_eq; simpl; auto.
  - intros data ms r Hp. unfold UnmarshalJSON, Unmarshal. rewrite Hp.
    intros H. apply unmarshalJSON_object_ok in H.
    destruct H as (alias & s1 & s2 & Ha & Hs1 & Hs2 & ->).
    pose proof (alias_untagged unmarshalJSON ms) as Hu. rewrite Ha in Hu.
    simpl in Hu. unfold untagged in Hu. simpl in Hu.
    assert (H1 : IsBooleanSchema s1 = false).
    { subst s1. destruct (raw_get "type" ms) as [t|].
      - pose proof (decode_type_keeps t alias) as K. simpl in K. congruence.
      - congruence. }
    assert (H2 : IsBooleanSchema s2 = false).
    { destruct (raw_get "properties" ms) as [p|].
      - pose proof (decode_properties_keeps unmarshalJSON p s1) as K.
        rewrite Hs2 in K. simpl in K. congruence.
      - congruence. }
    destruct (raw_get "additionalProperties" ms) as [a|]; [|exact H2].
    pose proof (decode_additional_keeps unmarshalJSON a s2) as K. simpl in K. congruence.
  - intros s1. unfold SchemaV1.UnmarshalJSON, Unmarshal.
    destruct b; [rewrite parse_true | rewrite parse_false];
      rewrite unmarshalJSON_V1_eq; reflexivity.
Qed.

Lemma boolean_schema_is_marked_witness :
  IsBooleanSchema (fst (UnmarshalJSON zero (text "{'type':'object'}"))) = false.
Proof.
  apply (proj1 (proj2 (boolean_schema_is_marked zero true)) (text "{'type':'object'}")
           [("type", JString "object")]).
  - vm_compute. reflexivity.
  - vm_compute. reflexivity.
Defined.

(** C6, as stated, fails for one of the two decoders it cites: the
    decoder of [schema.go] decodes neither [true] nor [false]; it
    returns a type error and marks nothing. *)
Lemma schema_go_rejects_boolean_schemas :
  SchemaV1.UnmarshalJSON SchemaV1.zero "true"
  = (SchemaV1.zero, Some UnmarshalTypeError) /\
  SchemaV1.UnmarshalJSON SchemaV1.zero "false"
  = (SchemaV1.zero, Some UnmarshalTypeError).
Proof. split; vm_compute; reflexivity. Qed.

Lemma unmarshal_strings_of_strings (ts cur : list string) :
  unmarshal_strings cur (map JString ts) = (ts, None).
Proof.
  revert cur. induction ts as [|t ts IH]; intros cur; simpl; [reflexivity|].
  rewrite IH. reflexivity.
Qed.

(** C8. In a decoded node, a [type] given as a string is the declared
    type name; a [type] given as an array of strings is the type list, in
    order, and its only element, if it has just one, is also the declared
    type name; the node has a mixed type exactly when its type list has
    more than one entry. *)
Theorem declared_type_recorded (s r : Schema) (data : string)
  (ms : list (string * json)) :
  parse data = Some (JObject ms) ->
  UnmarshalJSON s data = (r, None) ->
  (forall t : string,
      raw_get "type" ms = Some (JString t) -> Type_ r = t /\ TypeList r = []) /\
  (forall ts : list string,
      raw_get "type" ms = Some (JArray (map JString ts)) ->
      TypeList r = ts /\ (forall t, ts = [t] -> Type_ r = t)) /\
  (HasMixedType r = true <-> 1 < List.length (TypeList r)).
Proof.
  intros Hp. unfold UnmarshalJSON, Unmarshal. rewrite Hp. intros H.
  apply unmarshalJSON_object_ok in H.
  destruct H as (alias & s1 & s2 & Ha & Hs1 & Hs2 & Hr).
  pose proof (alias_untagged unmarshalJSON ms) as Hu. rewrite Ha in Hu.
  unfold untagged in Hu. simpl in Hu.
  assert (H2 : (Type_ s2, TypeList s2) = (Type_ s1, TypeList s1)).
  { destruct (raw_get "properties" ms) as [p|].
    - pose proof (decode_properties_keeps unmarshalJSON p s1) as K.
      rewrite Hs2 in K. simpl in K. congruence.
    - congruence. }
  assert (H3 : (Type_ r, TypeList r) = (Type_ s1, TypeList s1)).
  { rewrite <- H2. subst r.
    destruct (raw_get "additionalProperties" ms) as [a|]; [|reflexivity].
    pose proof (decode_additional_keeps unmarshalJSON a s2) as K. simpl in K. congruence. }
  injection H3 as E1 E2.
  split; [|split]; [rewrite E1, E2 | rewrite E1, E2 |].
  - intros t Ht. rewrite Ht in Hs1. subst s1. simpl. split; [reflexivity|congruence].
  - intros ts Ht. rewrite Ht in Hs1. subst s1. unfold decode_type. simpl.
    rewrite unmarshal_strings_of_strings.
    split.
    + destruct ts as [|t [|u ts]]; reflexivity.
    + intros t ->. reflexivity.
  - unfold HasMixedType. apply Nat.ltb_lt.
Qed.

Lemma declared_type_recorded_witness :
  TypeList (fst (UnmarshalJSON zero (text "{'type':['string','null']}"))) = ["string"; "null"].
Proof.
  apply (proj1 (proj2 (declared_type_recorded zero
                         (fst (UnmarshalJSON zero (text "{'type':['string','null']}")))
                         (text "{'type':['string','null']}")
                         [("type", JArray [JString "string"; JString "null"])]
                         ltac:(vm_compute; reflexivity)
                         ltac:(vm_compute; reflexivity)))
           ["string"; "null"]).
  vm_compute. reflexivity.
Defined.

Lemma alias_field_untagged_V1 (rec : SchemaV1.Schema -> json -> decoded SchemaV1.Schema)
  (a : SchemaV1.Schema) (k : string) (x : json) :
  untagged_V1 (fst (SchemaV1.alias_field rec a k x)) = untagged_V1 a.
Proof.
  unfold SchemaV1.alias_field.
  destruct (SchemaV1.lookup_field k) as [[]|];
    repeat match goal with
      | |- context [let '(_, _) := ?c in _] => destruct c
      end; reflexivity.
Qed.

Lemma alias_untagged_V1 (rec : SchemaV1.Schema -> json -> decoded SchemaV1.Schema)
  (ms : list (string * json)) :
  untagged_V1 (fst (unmarshal_fields (SchemaV1.alias_field rec) SchemaV1.zero ms))
  = untagged_V1 SchemaV1.zero.
Proof.
  apply (unmarshal_fields_invariant (SchemaV1.alias_field rec)
           (fun a => untagged_V1 a = untagged_V1 SchemaV1.zero)); [|reflexivity].
  intros a k x Ha. rewrite alias_field_untagged_V1. exact Ha.
Qed.

(** ** Inputs the decoder accepts *)

Lemma json_size_elem (x : json) (l : list json) :
  In x l -> json_size x < json_size (JArray l).
Proof.
  simpl. induction l as [|y l IH]; simpl; [tauto|].
  intros [->|H]; [lia|]. specialize (IH H). lia.
Qed.

Lemma json_size_member (k : string) (x : json) (ms : list (string * json)) :
  In (k, x) ms -> json_size x < json_size (JObject ms).
Proof.
  simpl. induction ms as [|[k' y] ms IH]; simpl; [tauto|].
  intros [H|H]; [injection H as -> ->; lia|]. specialize (IH H). lia.
Qed.

Lemma first_error_None (e e' : option error) :
  first_error e e' = None <-> e = None /\ e' = None.
Proof. destruct e, e'; simpl; split; intros; try tauto; try discriminate; intuition discriminate. Qed.

Section Accepting.
Context {A : Type} (zero : A) (rec : A -> json -> decoded A).

Lemma unmarshal_ptr_ok (cur : option A) (x : json) :
  (forall s, snd (rec s x) = None) -> snd (unmarshal_ptr zero rec cur x) = None.
Proof.
  intros H. unfold unmarshal_ptr.
  destruct x; try reflexivity;
    match goal with
    | |- context [rec ?s ?v] => specialize (H s); destruct (rec s v); exact H
    end.
Qed.

Lemma unmarshal_ptrs_ok (l : list json) :
  (forall x, In x l -> forall s, snd (rec s x) = None) ->
  forall cur, snd (unmarshal_ptrs zero rec cur l) = None.
Proof.
  induction l as [|x l IH]; intros H cur; simpl; [reflexivity|].
  pose proof (unmarshal_ptr_ok (match cur with c :: _ => c | [] => None end) x
                (H x (or_introl eq_refl))) as Hx.
  destruct (unmarshal_ptr zero rec _ x) as [y e]. simpl in Hx. subst e.
  specialize (IH (fun y Hy => H y (or_intror Hy)) (tl cur)).
  destruct (unmarshal_ptrs zero rec (tl cur) l) as [ys e']. simpl in *. exact IH.
Qed.

Lemma unmarshal_entries_ok (ms : list (string * json)) :
  (forall k x, In (k, x) ms -> forall s, snd (rec s x) = None) ->
  forall cur, snd (unmarshal_entries zero rec cur ms) = None.
Proof.
  induction ms as [|[k x] ms IH]; intros H cur; simpl; [reflexivity|].
  pose proof (unmarshal_ptr_ok None x (H k x (or_introl eq_refl))) as Hx.
  destruct (unmarshal_ptr zero rec None x) as [y e]. simpl in Hx. subst e.
  specialize (IH (fun k' y' Hy => H k' y' (or_intror Hy)) (map_set k y cur)).
  destruct (unmarshal_entries zero rec (map_set k y cur) ms) as [m e']. simpl in *.
  exact IH.
Qed.

Lemma unmarshal_fields_ok (f : A -> string -> json -> decoded A)
  (ms : list (string * json)) :
  (forall k x, In (k, x) ms -> forall a, snd (f a k x) = None) ->
  forall a, snd (unmarshal_fields f a ms) = None.
Proof.
  induction ms as [|[k x] ms IH]; intros H a; simpl; [reflexivity|].
  pose proof (H k x (or_introl eq_refl) a) as Hx.
  destruct (f a k x) as [a' e]. simpl in Hx. subst e.
  specialize (IH (fun k' y' Hy => H k' y' (or_intror Hy)) a').
  destruct (unmarshal_fields f a' ms) as [a'' e']. simpl in *. exact IH.
Qed.
End Accepting.

Lemma unmarshal_strings_ok (l : list json) :
  forallb is_string l = true -> forall cur, snd (unmarshal_strings cur l) = None.
Proof.
  induction l as [|x l IH]; intros H cur; simpl; [reflexivity|].
  simpl in H. apply andb_true_iff in H as [Hx Hl].
  destruct x; try discriminate. simpl.
  specialize (IH Hl (tl cur)). destruct (unmarshal_strings (tl cur) l). exact IH.
Qed.

Lemma decode_props_ok (rec : Schema -> json -> decoded Schema)
  (ms : list (string * json)) :
  (forall k x, In (k, x) ms -> snd (rec zero x) = None) ->
  forall acc, snd (decode_props rec ms acc) = None.
Proof.
  induction ms as [|[k x] ms IH]; intros H acc; simpl; [reflexivity|].
  destruct (has_key k ms).
  - apply IH. intros k' y Hy. apply (H k' y). now right.
  - pose proof (H k x (or_introl eq_refl)) as Hx.
    destruct (rec zero x) as [p e]. simpl in Hx. subst e.
    apply IH. intros k' y Hy. apply (H k' y). now right.
Qed.

(** A member that has the prescribed kind is decoded into its field
    without error, provided the schemas nested in it are. *)
Lemma alias_field_ok (rec : Schema -> json -> decoded Schema) (k : string) (x : json) :
  (forall w, json_size w <= json_size x -> schema_syntax w = true ->
             forall s, snd (rec s w) = None) ->
  member_syntax schema_syntax k x = true ->
  forall a, snd (alias_field rec a k x) = None.
Proof.
  intros IH Hm a. unfold member_syntax in Hm.
  apply andb_true_iff in Hm as [Hm _]. apply andb_true_iff in Hm as [Hm _].
  apply andb_true_iff in Hm as [Hm _].
  unfold alias_field.
  destruct (lookup_field k) as [f|]; [|reflexivity].
  destruct f; simpl in Hm.
  all: try (destruct x; try discriminate; reflexivity).
  all: try (unfold schema_map in Hm; destruct x as [| | | | |ms']; try discriminate;
            unfold unmarshal_map;
            match goal with
            | |- context [unmarshal_entries _ _ ?c _] =>
                pose proof (unmarshal_entries_ok zero rec ms') as K;
                specialize (K (fun k' y Hy => IH y
                                 (Nat.lt_le_incl _ _ (json_size_member k' y ms' Hy))
                                 (proj1 (forallb_forall _ _) Hm (k', y) Hy)) c);
                destruct (unmarshal_entries zero rec c ms'); exact K
            end).
  all: try (unfold schema_array in Hm; destruct x as [| | | |l|]; try discriminate;
            unfold unmarshal_slice;
            match goal with
            | |- context [unmarshal_ptrs _ _ ?c _] =>
                pose proof (unmarshal_ptrs_ok zero rec l) as K;
                specialize (K (fun y Hy => IH y
                                 (Nat.lt_le_incl _ _ (json_size_elem y l Hy))
                                 (proj1 (forallb_forall _ _) Hm y Hy)) c);
                destruct (unmarshal_ptrs zero rec c l); exact K
            end).
  - (* required *)
    unfold string_array in Hm. destruct x as [| | | |l|]; try discriminate. simpl.
    pose proof (unmarshal_strings_ok l Hm (Required a)) as K.
    destruct (unmarshal_strings (Required a) l). exact K.
  - (* items *)
    pose proof (unmarshal_ptr_ok zero rec (Items a) x (IH x (Nat.le_refl _) Hm)) as K.
    destruct (unmarshal_ptr zero rec (Items a) x). exact K.
  - (* const *)
    unfold unmarshal_any. rewrite Hm. reflexivity.
  - (* enum *)
    destruct x as [| | | |l|]; try discriminate. simpl. rewrite Hm. reflexivity.
  - (* default *)
    unfold unmarshal_any. rewrite Hm. reflexivity.
Qed.

Lemma schema_syntax_accepted_size (n : nat) :
  forall v, json_size v <= n -> schema_syntax v = true ->
            forall s, snd (unmarshalJSON s v) = None.
Proof.
  induction n as [|n IHn]; intros v Hsize Hsyn s.
  - destruct v; simpl in Hsize; lia.
  - destruct v as [|b| | | |ms]; try discriminate.
    + rewrite unmarshalJSON_eq. reflexivity.
    + simpl in Hsyn. rewrite unmarshalJSON_object.
      assert (Hsub : forall k x, In (k, x) ms ->
                forall w, json_size w <= json_size x -> schema_syntax w = true ->
                          forall s, snd (unmarshalJSON s w) = None).
      { intros k x Hin w Hw. apply IHn.
        pose proof (json_size_member k x ms Hin). lia. }
      assert (Hmem : forall k x, In (k, x) ms -> member_syntax schema_syntax k x = true).
      { intros k x Hin. apply (proj1 (forallb_forall _ _) Hsyn (k, x) Hin). }
      pose proof (unmarshal_fields_ok (alias_field unmarshalJSON) ms
                    (fun k x Hin => alias_field_ok unmarshalJSON k x (Hsub k x Hin)
                                      (Hmem k x Hin)) zero) as Hal.
      destruct (unmarshal_fields (alias_field unmarshalJSON) zero ms) as [alias e].
      simpl in Hal. subst e. cbv zeta.
      match goal with
      | |- snd (let (_, _) := ?c in _) = None =>
          assert (Hprops : snd c = None);
          [|destruct c as [s2 e]; simpl in Hprops; subst e; reflexivity]
      end.
      destruct (raw_get "properties" ms) as [p|] eqn:Ep; [|reflexivity].
      apply raw_get_In in Ep.
      pose proof (Hmem _ _ Ep) as Hm. unfold member_syntax in Hm.
      apply andb_true_iff in Hm as [Hm _]. apply andb_true_iff in Hm as [_ Hm].
      simpl in Hm. unfold schema_map in Hm.
      destruct p as [| | | | |pm]; try discriminate.
      unfold decode_properties.
      pose proof (decode_props_ok unmarshalJSON pm) as K.
      specialize (K (fun k' y Hy => Hsub _ _ Ep y
                       (Nat.lt_le_incl _ _ (json_size_member k' y pm Hy))
                       (proj1 (forallb_forall _ _) Hm (k', y) Hy) zero) []).
      destruct (decode_props unmarshalJSON pm []). exact K.
Qed.

Lemma schema_syntax_accepted (v : json) :
  schema_syntax v = true -> forall s, snd (unmarshalJSON s v) = None.
Proof. apply (schema_syntax_accepted_size (json_size v)). apply Nat.le_refl. Qed.

Lemma alias_field_ref (rec : Schema -> json -> decoded Schema)
  (a : Schema) (k : string) (x : json) :
  Ref (fst (alias_field rec a k x)) =
  match lookup_field k with
  | Some F_Ref => fst (unmarshal_string (Ref a) x)
  | _ => Ref a
  end.
Proof. alias_cases k; reflexivity. Qed.

Lemma last_ref_In (ms : list (string * json)) (y : json) :
  last_ref ms = Some y -> exists k, In (k, y) ms /\ lookup_field k = Some F_Ref.
Proof.
  induction ms as [|[k x] ms IH]; simpl; [discriminate|].
  destruct (last_ref ms) as [z|].
  - intros H. injection H as ->. destruct (IH eq_refl) as (k' & Hin & Hk).
    exists k'. split; [now right|exact Hk].
  - destruct (lookup_field k) as [[]|] eqn:Ek; try discriminate.
    intros H. injection H as ->. exists k. split; [now left|exact Ek].
Qed.

(** The reference a decoded object holds is the text of its last
    [$ref] member. *)
Lemma alias_ref (rec : Schema -> json -> decoded Schema) (ms : list (string * json)) :
  (forall k x, In (k, x) ms -> lookup_field k = Some F_Ref -> is_string x = true) ->
  forall a,
    Ref (fst (unmarshal_fields (alias_field rec) a ms)) =
    match last_ref ms with
    | Some (JString t) => t
    | _ => Ref a
    end.
Proof.
  induction ms as [|[k x] ms IH]; intros H a; simpl; [reflexivity|].
  pose proof (alias_field_ref rec a k x) as Hstep.
  destruct (alias_field rec a k x) as [a' e]. simpl in Hstep.
  specialize (IH (fun k' y Hy => H k' y (or_intror Hy)) a').
  destruct (unmarshal_fields (alias_field rec) a' ms) as [a'' e']. simpl in *.
  rewrite IH. destruct (last_ref ms) as [y|] eqn:El.
  - destruct (last_ref_In ms y El) as (k' & Hin & Hk).
    pose proof (H k' y (or_intror Hin) Hk) as Hy.
    destruct y; try discriminate. reflexivity.
  - rewrite Hstep. destruct (lookup_field k) as [[]|] eqn:Ek; try reflexivity.
    pose proof (H k x (or_introl eq_refl) Ek) as Hx.
    destruct x; try discriminate. reflexivity.
Qed.

Lemma schema_syntax_ref_members (ms : list (string * json)) :
  schema_syntax (JObject ms) = true ->
  forall k x, In (k, x) ms -> lookup_field k = Some F_Ref -> is_string x = true.
Proof.
  simpl. intros Hsyn k x Hin Hk.
  pose proof (proj1 (forallb_forall _ _) Hsyn (k, x) Hin) as Hm.
  unfold member_syntax in Hm. simpl in Hm. rewrite Hk in Hm. simpl in Hm.
  repeat (apply andb_true_iff in Hm as [Hm _]). exact Hm.
Qed.

(** C7, as amended.  An input that is valid JSON and follows JSON
    Schema syntax (keywords recognised up to letter case for the tagged
    fields, numbers of [const], [default] and [enum] within the range of
    a float64) is decoded without error, and the [Ref] of the node is the
    text of its last [$ref] member, whatever the document defines.  An
    input that is not valid JSON is rejected with a syntax error. *)
Theorem schema_syntax_is_decoded (s : Schema) (data : string) :
  (forall v : json,
      parse data = Some v ->
      schema_syntax v = true ->
      snd (UnmarshalJSON s data) = None /\
      (forall ms : list (string * json),
          v = JObject ms ->
          Ref (fst (UnmarshalJSON s data)) =
          match last_ref ms with
          | Some (JString t) => t
          | _ => EmptyString
          end)) /\
  (parse data = None -> UnmarshalJSON s data = (s, Some SyntaxError)).
Proof.
  split.
  - intros v Hp Hsyn. unfold UnmarshalJSON, Unmarshal. rewrite Hp.
    pose proof (schema_syntax_accepted v Hsyn s) as Hok.
    split; [exact Hok|].
    intros ms ->.
    destruct (unmarshalJSON s (JObject ms)) as [r e] eqn:E. simpl in Hok. subst e.
    apply unmarshalJSON_object_ok in E.
    destruct E as (alias & s1 & s2 & Ha & Hs1 & Hs2 & Hr).
    pose proof (alias_ref unmarshalJSON ms (schema_syntax_ref_members ms Hsyn) zero) as Hal.
    rewrite Ha in Hal. simpl in Hal.
    assert (H1 : Ref s1 = Ref alias).
    { subst s1. destruct (raw_get "type" ms) as [t|]; [|reflexivity].
      pose proof (decode_type_keeps t alias) as K. simpl in K. congruence. }
    assert (H2 : Ref s2 = Ref s1).
    { destruct (raw_get "properties" ms) as [p|].
      - pose proof (decode_properties_keeps unmarshalJSON p s1) as K.
        rewrite Hs2 in K. simpl in K. congruence.
      - congruence. }
    simpl. rewrite <- Hal, <- H1, <- H2. subst r.
    destruct (raw_get "additionalProperties" ms) as [a|]; [|reflexivity].
    pose proof (decode_additional_keeps unmarshalJSON a s2) as K. simpl in K. congruence.
  - intros Hp. unfold UnmarshalJSON, Unmarshal. rewrite Hp. reflexivity.
Qed.

Lemma schema_syntax_is_decoded_witness :
  Ref (fst (UnmarshalJSON zero (text "{'$defs':{'A':{'$ref':'#/$defs/A'}},'$ref':'#/$defs/A'}")))
  = "#/$defs/A".
Proof.
  apply (proj2 (proj1 (schema_syntax_is_decoded zero
                         (text "{'$defs':{'A':{'$ref':'#/$defs/A'}},'$ref':'#/$defs/A'}"))
                  (JObject [("$defs", JObject [("A", JObject [("$ref", JString "#/$defs/A")])]);
                            ("$ref", JString "#/$defs/A")])
                  ltac:(vm_compute; reflexivity)
                  ltac:(vm_compute; reflexivity))
           [("$defs", JObject [("A", JObject [("$ref", JString "#/$defs/A")])]);
            ("$ref", JString "#/$defs/A")]
           eq_refl).
Defined.

(** C7, as stated, fails: this input is valid JSON and the decoder
    returns an error on it. *)
Lemma valid_json_is_rejected :
  ~ (snd (UnmarshalJSON zero (text "{'$ref':5}")) <> None ->
     parse (text "{'$ref':5}") = None).
Proof.
  intros H.
  assert (E : parse (text "{'$ref':5}") = None).
  { apply H. vm_compute. discriminate. }
  vm_compute in E. discriminate.
Qed.

(** The reference is stored as [encoding/json] unquotes it: a byte of
    the literal that begins no well-formed UTF-8 encoding is stored as
    U+FFFD, and an escape as the character it stands for. *)
Example ref_text_is_unquoted :
  Ref (fst (UnmarshalJSON zero (text "{'$ref':'" ++ String "255" (text "'}"))))
  = String "239" (String "191" (String "189" EmptyString)) /\
  Ref (fst (UnmarshalJSON zero (text "{'$ref':'#/a\n'}")))
  = String "#" (String "/" (String "a" (String "010" EmptyString))).
Proof. split; vm_compute; reflexivity. Qed.

(** C9, as amended.  A nested object under [additionalProperties] is
    handed to [UnmarshalJSON] on a new node.  When that decode
    succeeds, the nested schema is kept in [AdditionalPropertiesSchema]
    and the flag [AdditionalProperties] is set to true; when it fails,
    the member is dropped without an error and both fields stay nil.
    The decoder of [part_001] decodes every nested object that conforms
    to the schema syntax, so for it such a schema is always kept.  A
    boolean sets the flag only.  Both decoders do so. *)
Theorem additionalProperties_flag_and_schema :
  (forall (s r : Schema) (data : string) (ms : list (string * json)),
      parse data = Some (JObject ms) ->
      UnmarshalJSON s data = (r, None) ->
      (forall am : list (string * json),
          raw_get "additionalProperties" ms = Some (JObject am) ->
          (schema_syntax (JObject am) = true ->
           AdditionalPropertiesSchema r = Some (fst (unmarshalJSON zero (JObject am))) /\
           AdditionalProperties r = Some true) /\
          (forall nested : Schema,
              unmarshalJSON zero (JObject am) = (nested, None) ->
              AdditionalPropertiesSchema r = Some nested /\
              AdditionalProperties r = Some true) /\
          (snd (unmarshalJSON zero (JObject am)) <> None ->
           AdditionalPropertiesSchema r = None /\ AdditionalProperties r = None)) /\
      (forall b : bool,
          raw_get "additionalProperties" ms = Some (JBool b) ->
          AdditionalProperties r = Some b /\ AdditionalPropertiesSchema r = None)) /\
  (forall (s r : SchemaV1.Schema) (data : string) (ms : list (string * json)),
      parse data = Some (JObject ms) ->
      SchemaV1.UnmarshalJSON s data = (r, None) ->
      (forall am : list (string * json),
          raw_get "additionalProperties" ms = Some (JObject am) ->
          (forall nested : SchemaV1.Schema,
              SchemaV1.unmarshalJSON SchemaV1.zero (JObject am) = (nested, None) ->
              SchemaV1.AdditionalPropertiesSchema r = Some nested /\
              SchemaV1.AdditionalProperties r = Some true) /\
          (snd (SchemaV1.unmarshalJSON SchemaV1.zero (JObject am)) <> None ->
           SchemaV1.AdditionalPropertiesSchema r = None /\
           SchemaV1.AdditionalProperties r = None)) /\
      (forall b : bool,
          raw_get "additionalProperties" ms = Some (JBool b) ->
          SchemaV1.AdditionalProperties r = Some b /\
          SchemaV1.AdditionalPropertiesSchema r = None)).
Proof.
  split.
  - intros s r data ms Hp. unfold UnmarshalJSON, Unmarshal. rewrite Hp. intros H.
    apply unmarshalJSON_object_ok in H.
    destruct H as (alias & s1 & s2 & Ha & Hs1 & Hs2 & Hr).
    pose proof (alias_untagged unmarshalJSON ms) as Hu. rewrite Ha in Hu.
    unfold untagged in Hu. simpl in Hu.
    assert (H1 : (AdditionalProperties s1, AdditionalPropertiesSchema s1) = (None, None)).
    { subst s1. destruct (raw_get "type" ms) as [t|].
      - pose proof (decode_type_keeps t alias) as K. simpl in K. congruence.
      - congruence. }
    assert (H2 : (AdditionalProperties s2, AdditionalPropertiesSchema s2) = (None, None)).
    { destruct (raw_get "properties" ms) as [p|].
      - pose proof (decode_properties_keeps unmarshalJSON p s1) as K.
        rewrite Hs2 in K. simpl in K. congruence.
      - congruence. }
    injection H2 as H2a H2b.
    split.
    + intros am Hraw. rewrite Hraw in Hr. subst r.
      unfold decode_additional. simpl unmarshal_bool. cbv iota beta.
      pose proof (fun Hs => schema_syntax_accepted (JObject am) Hs zero) as Hsyn.
      destruct (unmarshalJSON zero (JObject am)) as [sv [e|]] eqn:E;
        try rewrite E in Hsyn; simpl in Hsyn.
      * split; [|split].
        -- intros Hs. specialize (Hsyn Hs). discriminate Hsyn.
        -- intros nested Hn. discriminate Hn.
        -- intros _. split; assumption.
      * split; [|split].
        -- intros _. split; reflexivity.
        -- intros nested Hn. injection Hn as <-. split; reflexivity.
        -- intros Hn. contradiction Hn. reflexivity.
    + intros b Hraw. rewrite Hraw in Hr. subst r. simpl. split; [reflexivity|exact H2b].
  - intros s r data ms Hp. unfold SchemaV1.UnmarshalJSON, Unmarshal. rewrite Hp.
    rewrite unmarshalJSON_V1_object.
    pose proof (alias_untagged_V1 SchemaV1.unmarshalJSON ms) as Hu.
    destruct (unmarshal_fields (SchemaV1.alias_field SchemaV1.unmarshalJSON) SchemaV1.zero ms)
      as [alias [err|]]; [discriminate|].
    unfold untagged_V1 in Hu. simpl in Hu. injection Hu as Hua Hub.
    intros H. injection H as <-.
    split.
    + intros am Hraw. rewrite Hraw.
      unfold SchemaV1.decode_additional. simpl unmarshal_bool. cbv iota beta.
      destruct (SchemaV1.unmarshalJSON SchemaV1.zero (JObject am)) as [sv [e|]].
      * split.
        -- intros nested Hn. discriminate Hn.
        -- intros _. split; assumption.
      * split.
        -- intros nested Hn. injection Hn as <-. split; reflexivity.
        -- intros Hn. contradiction Hn. reflexivity.
    + intros b Hraw. rewrite Hraw. simpl. split; [reflexivity|congruence].
Qed.

Lemma additionalProperties_flag_and_schema_witness :
  (AdditionalPropertiesSchema
     (fst (UnmarshalJSON zero (text "{'additionalProperties':{'type':['string','null']}}")))
   = Some (fst (unmarshalJSON zero
                  (JObject [("type", JArray [JString "string"; JString "null"])])))
   /\ AdditionalProperties
        (fst (UnmarshalJSON zero
                (text "{'additionalProperties':{'type':['string','null']}}")))
      = Some true)
  /\ (SchemaV1.AdditionalPropertiesSchema
        (fst (SchemaV1.UnmarshalJSON SchemaV1.zero
                (text "{'additionalProperties':{'type':'string'}}")))
      = Some (SchemaV1.set_Type_ "string" SchemaV1.zero)
      /\ SchemaV1.AdditionalProperties
           (fst (SchemaV1.UnmarshalJSON SchemaV1.zero
                   (text "{'additionalProperties':{'type':'string'}}")))
         = Some true).
Proof.
  split.
  - apply (proj1 (proj1 (proj1 additionalProperties_flag_and_schema zero
                           (fst (UnmarshalJSON zero
                                   (text "{'additionalProperties':{'type':['string','null']}}")))
                           (text "{'additionalProperties':{'type':['string','null']}}")
                           [("additionalProperties",
                             JObject [("type", JArray [JString "string"; JString "null"])])]
                           ltac:(vm_compute; reflexivity)
                           ltac:(vm_compute; reflexivity))
                    [("type", JArray [JString "string"; JString "null"])]
                    ltac:(vm_compute; reflexivity))).
    vm_compute. reflexivity.
  - apply (proj1 (proj1 (proj2 additionalProperties_flag_and_schema SchemaV1.zero
                           (fst (SchemaV1.UnmarshalJSON SchemaV1.zero
                                   (text "{'additionalProperties':{'type':'string'}}")))
                           (text "{'additionalProperties':{'type':'string'}}")
                           [("additionalProperties", JObject [("type", JString "string")])]
                           ltac:(vm_compute; reflexivity)
                           ltac:(vm_compute; reflexivity))
                    [("type", JString "string")]
                    ltac:(vm_compute; reflexivity))
             (SchemaV1.set_Type_ "string" SchemaV1.zero)).
    vm_compute. reflexivity.
Defined.

(** C9, as stated, fails: a nested schema is not always kept.  The
    decoder of [schema.go] cannot decode a schema whose [type] is an
    array, and the decoder of [part_001] cannot decode one whose
    [const] is a number beyond the range of a float64; under
    [additionalProperties] either is dropped without an error, and
    neither the schema nor the flag is set. *)
Lemma nested_schema_is_dropped :
  (let data := text "{'additionalProperties':{'type':['string','null']}}" in
   snd (SchemaV1.UnmarshalJSON SchemaV1.zero data) = None /\
   SchemaV1.AdditionalPropertiesSchema (fst (SchemaV1.UnmarshalJSON SchemaV1.zero data))
   = None /\
   SchemaV1.AdditionalProperties (fst (SchemaV1.UnmarshalJSON SchemaV1.zero data)) = None)
  /\
  (let data := text "{'additionalProperties':{'const':1e999}}" in
   snd (UnmarshalJSON zero data) = None /\
   AdditionalPropertiesSchema (fst (UnmarshalJSON zero data)) = None /\
   AdditionalProperties (fst (UnmarshalJSON zero data)) = None).
Proof. split; vm_compute; repeat split. Qed.

(** ** The two decoders *)

Lemma field_matches_fold (tag name : string) :
  field_matches tag name = true -> foldName name = foldName tag.
Proof.
  unfold field_matches. intros H. apply orb_true_iff in H as [H|H].
  - apply String.eqb_eq in H. now subst.
  - now apply String.eqb_eq in H.
Qed.

Ltac clash :=
  exfalso;
  match goal with
  | H1 : field_matches ?t1 ?k = true, H2 : field_matches ?t2 ?k = true |- _ =>
      apply field_matches_fold in H1; apply field_matches_fold in H2;
      rewrite H1 in H2; vm_compute in H2; discriminate H2
  end.

Ltac scan_fields k :=
  repeat match goal with
    | |- context [if field_matches ?t k then _ else _] =>
        let E := fresh "E" in
        destruct (field_matches t k) eqn:E; try clash
    end.

(** A member name designates the same tagged field in both structs. *)
Lemma lookup_field_same_tag (k : string) :
  lookup_field k =
  match SchemaV1.lookup_field k with
  | Some f => same_tag f
  | None => None
  end.
Proof.
  unfold lookup_field, SchemaV1.lookup_field, fields, SchemaV1.fields.
  cbn [find tag SchemaV1.tag].
  scan_fields k; reflexivity.
Qed.

Section Transfer.
Context {A1 A2 : Type} (z1 : A1) (z2 : A2).
Variable rec1 : A1 -> json -> decoded A1.
Variable rec2 : A2 -> json -> decoded A2.

Lemma unmarshal_ptr_transfer (c1 : option A1) (c2 : option A2) (x : json) :
  ((exists s1, snd (rec1 s1 x) = None) -> forall s2, snd (rec2 s2 x) = None) ->
  snd (unmarshal_ptr z1 rec1 c1 x) = None ->
  snd (unmarshal_ptr z2 rec2 c2 x) = None.
Proof.
  intros T. unfold unmarshal_ptr.
  destruct x; try reflexivity;
    match goal with
    | |- context [rec1 ?s ?v] =>
        destruct (rec1 s v) as [y e] eqn:E; simpl; intros ->;
        match goal with
        | |- context [rec2 ?s2 v] =>
            specialize (T (ex_intro _ s (f_equal snd E)) s2);
            destruct (rec2 s2 v); exact T
        end
    end.
Qed.

Lemma unmarshal_ptrs_transfer (l : list json) :
  (forall x, In x l ->
     (exists s1, snd (rec1 s1 x) = None) -> forall s2, snd (rec2 s2 x) = None) ->
  forall c1 c2,
    snd (unmarshal_ptrs z1 rec1 c1 l) = None ->
    snd (unmarshal_ptrs z2 rec2 c2 l) = None.
Proof.
  induction l as [|x l IH]; intros T c1 c2; simpl; [reflexivity|].
  pose proof (unmarshal_ptr_transfer (match c1 with c :: _ => c | [] => None end)
                (match c2 with c :: _ => c | [] => None end) x
                (T x (or_introl eq_refl))) as Hx.
  destruct (unmarshal_ptr z1 rec1 _ x) as [y1 e1].
  destruct (unmarshal_ptr z2 rec2 _ x) as [y2 e2].
  specialize (IH (fun y Hy => T y (or_intror Hy)) (tl c1) (tl c2)).
  destruct (unmarshal_ptrs z1 rec1 (tl c1) l) as [ys1 e1'].
  destruct (unmarshal_ptrs z2 rec2 (tl c2) l) as [ys2 e2'].
  simpl in *. intros H. apply first_error_None in H as [H1 H2].
  apply first_error_None. split; auto.
Qed.

Lemma unmarshal_entries_transfer (ms : list (string * json)) :
  (forall k x, In (k, x) ms ->
     (exists s1, snd (rec1 s1 x) = None) -> forall s2, snd (rec2 s2 x) = None) ->
  forall c1 c2,
    snd (unmarshal_entries z1 rec1 c1 ms) = None ->
    snd (unmarshal_entries z2 rec2 c2 ms) = None.
Proof.
  induction ms as [|[k x] ms IH]; intros T c1 c2; simpl; [reflexivity|].
  pose proof (unmarshal_ptr_transfer None None x (T k x (or_introl eq_refl))) as Hx.
  destruct (unmarshal_ptr z1 rec1 None x) as [y1 e1].
  destruct (unmarshal_ptr z2 rec2 None x) as [y2 e2].
  specialize (IH (fun k' y Hy => T k' y (or_intror Hy))
                (map_set k y1 c1) (map_set k y2 c2)).
  destruct (unmarshal_entries z1 rec1 (map_set k y1 c1) ms) as [m1 e1'].
  destruct (unmarshal_entries z2 rec2 (map_set k y2 c2) ms) as [m2 e2'].
  simpl in *. intros H. apply first_error_None in H as [H1 H2].
  apply first_error_None. split; auto.
Qed.

Lemma unmarshal_fields_transfer (f1 : A1 -> string -> json -> decoded A1)
  (f2 : A2 -> string -> json -> decoded A2) (ms : list (string * json)) :
  (forall k x, In (k, x) ms ->
     forall a1 a2, snd (f1 a1 k x) = None -> snd (f2 a2 k x) = None) ->
  forall a1 a2,
    snd (unmarshal_fields f1 a1 ms) = None ->
    snd (unmarshal_fields f2 a2 ms) = None.
Proof.
  induction ms as [|[k x] ms IH]; intros T a1 a2; simpl; [reflexivity|].
  pose proof (T k x (or_introl eq_refl) a1 a2) as Hx.
  destruct (f1 a1 k x) as [b1 e1]. destruct (f2 a2 k x) as [b2 e2].
  specialize (IH (fun k' y Hy => T k' y (or_intror Hy)) b1 b2).
  destruct (unmarshal_fields f1 b1 ms) as [d1 e1'].
  destruct (unmarshal_fields f2 b2 ms) as [d2 e2'].
  simpl in *. intros H. apply first_error_None in H as [H1 H2].
  apply first_error_None. split; auto.
Qed.
End Transfer.

(** A struct decoded without error had each member decoded without
    error. *)
Lemma unmarshal_fields_members {A : Type} (f : A -> string -> json -> decoded A)
  (ms : list (string * json)) :
  forall a0,
    snd (unmarshal_fields f a0 ms) = None ->
    forall k x, In (k, x) ms -> exists a, snd (f a k x) = None.
Proof.
  induction ms as [|[k x] ms IH]; intros a0; simpl; [tauto|].
  destruct (f a0 k x) as [b e] eqn:E.
  specialize (IH b). destruct (unmarshal_fields f b ms) as [d e'].
  simpl. intros H. apply first_error_None in H as [H1 H2].
  intros k' y [Hy|Hy].
  - injection Hy as <- <-. exists a0. rewrite E. exact H1.
  - apply (IH H2 k' y Hy).
Qed.

Lemma unmarshal_entries_members {A : Type} (z : A) (rec : A -> json -> decoded A)
  (ms : list (string * json)) :
  forall c,
    snd (unmarshal_entries z rec c ms) = None ->
    forall k x, In (k, x) ms -> snd (unmarshal_ptr z rec None x) = None.
Proof.
  induction ms as [|[k x] ms IH]; intros c; simpl; [tauto|].
  destruct (unmarshal_ptr z rec None x) as [y e] eqn:E.
  specialize (IH (map_set k y c)).
  destruct (unmarshal_entries z rec (map_set k y c) ms) as [m e'].
  simpl. intros H. apply first_error_None in H as [H1 H2].
  intros k' y' [Hy|Hy].
  - injection Hy as <- <-. rewrite E. exact H1.
  - apply (IH H2 k' y' Hy).
Qed.

(** A member the decoder of [schema.go] stores without error is stored
    without error by the decoder of [part_001], provided this holds of
    the schemas nested in it. *)
Lemma alias_field_transfer
  (rec1 : SchemaV1.Schema -> json -> decoded SchemaV1.Schema)
  (rec2 : Schema -> json -> decoded Schema) (k : string) (x : json) :
  (forall w, json_size w <= json_size x ->
     (exists s1, snd (rec1 s1 w) = None) -> forall s2, snd (rec2 s2 w) = None) ->
  forall a1 a2,
    snd (SchemaV1.alias_field rec1 a1 k x) = None ->
    snd (alias_field rec2 a2 k x) = None.
Proof.
  intros T a1 a2. unfold SchemaV1.alias_field, alias_field.
  rewrite lookup_field_same_tag.
  destruct (SchemaV1.lookup_field k) as [f1|]; [|reflexivity].
  destruct f1; cbn [same_tag]; try reflexivity.
  all: try (destruct x; simpl; intros H; first [reflexivity | discriminate H]).
  all: try (unfold unmarshal_map; destruct x as [| | | | |xm]; simpl;
            try (intros H; first [reflexivity | discriminate H]);
            match goal with
            | |- context [unmarshal_entries SchemaV1.zero _ ?c1 _] =>
                match goal with
                | |- context [unmarshal_entries zero _ ?c2 _] =>
                    pose proof (unmarshal_entries_transfer SchemaV1.zero zero rec1 rec2 xm
                                  (fun k' y Hy => T y (Nat.lt_le_incl _ _
                                                         (json_size_member k' y xm Hy)))
                                  c1 c2) as K;
                    destruct (unmarshal_entries SchemaV1.zero rec1 c1 xm);
                    destruct (unmarshal_entries zero rec2 c2 xm); exact K
                end
            end).
  all: try (unfold unmarshal_slice; destruct x as [| | | |xl|]; simpl;
            try (intros H; first [reflexivity | discriminate H]);
            match goal with
            | |- context [unmarshal_ptrs SchemaV1.zero _ ?c1 _] =>
                match goal with
                | |- context [unmarshal_ptrs zero _ ?c2 _] =>
                    pose proof (unmarshal_ptrs_transfer SchemaV1.zero zero rec1 rec2 xl
                                  (fun y Hy => T y (Nat.lt_le_incl _ _
                                                      (json_size_elem y xl Hy)))
                                  c1 c2) as K;
                    destruct (unmarshal_ptrs SchemaV1.zero rec1 c1 xl);
                    destruct (unmarshal_ptrs zero rec2 c2 xl); exact K
                end
            end).
  - (* required *)
    unfold unmarshal_string_slice. destruct x as [| | | |xl|]; simpl;
      try (intros H; first [reflexivity | discriminate H]).
    assert (K : forall c1 c2, snd (unmarshal_strings c1 xl) = None ->
                              snd (unmarshal_strings c2 xl) = None).
    { clear. induction xl as [|y xl IH]; intros c1 c2; simpl; [reflexivity|].
      specialize (IH (tl c1) (tl c2)).
      destruct (unmarshal_strings (tl c1) xl); destruct (unmarshal_strings (tl c2) xl).
      destruct y; simpl in *; auto. }
    specialize (K (SchemaV1.Required a1) (Required a2)).
    destruct (unmarshal_strings (SchemaV1.Required a1) xl);
      destruct (unmarshal_strings (Required a2) xl); exact K.
  - (* items *)
    pose proof (unmarshal_ptr_transfer SchemaV1.zero zero rec1 rec2
                  (SchemaV1.Items a1) (Items a2) x (T x (Nat.le_refl _))) as K.
    destruct (unmarshal_ptr SchemaV1.zero rec1 (SchemaV1.Items a1) x);
      destruct (unmarshal_ptr zero rec2 (Items a2) x); exact K.
  - (* const *)
    unfold unmarshal_any. destruct (numbers_ok x); simpl; auto.
  - (* enum *)
    unfold unmarshal_any_slice. destruct x as [| | | |xl|]; simpl; auto.
    destruct (forallb numbers_ok xl); simpl; auto.
  - (* default *)
    unfold unmarshal_any. destruct (numbers_ok x); simpl; auto.
Qed.

Lemma unmarshalJSON_null (s : Schema) :
  unmarshalJSON s JNull = (set_BooleanValue false (set_IsBooleanSchema true s), None).
Proof. rewrite unmarshalJSON_eq. reflexivity. Qed.

(** Every value the decoder of [schema.go] accepts is accepted by the
    decoder of [part_001]. *)
Lemma accepted_by_V1_accepted_size (n : nat) :
  forall v, json_size v <= n ->
    (exists s1, snd (SchemaV1.unmarshalJSON s1 v) = None) ->
    forall s2, snd (unmarshalJSON s2 v) = None.
Proof.
  induction n as [|n IHn]; intros v Hsize [s1 H1] s2.
  - destruct v; simpl in Hsize; lia.
  - destruct v as [|b|lit|str|l|ms].
    + rewrite unmarshalJSON_null. reflexivity.
    + rewrite unmarshalJSON_V1_eq in H1. discriminate H1.
    + rewrite unmarshalJSON_V1_eq in H1. discriminate H1.
    + rewrite unmarshalJSON_V1_eq in H1. discriminate H1.
    + rewrite unmarshalJSON_V1_eq in H1. discriminate H1.
    + rewrite unmarshalJSON_V1_object in H1. rewrite unmarshalJSON_object.
      assert (Hsub : forall k x, In (k, x) ms ->
                forall w, json_size w <= json_size x ->
                  (exists s1, snd (SchemaV1.unmarshalJSON s1 w) = None) ->
                  forall s2, snd (unmarshalJSON s2 w) = None).
      { intros k x Hin w Hw. apply IHn.
        pose proof (json_size_member k x ms Hin). lia. }
      destruct (unmarshal_fields (SchemaV1.alias_field SchemaV1.unmarshalJSON)
                  SchemaV1.zero ms) as [alias1 e1] eqn:E1.
      assert (He1 : e1 = None) by (destruct e1; [discriminate H1|reflexivity]).
      subst e1.
      pose proof (unmarshal_fields_transfer
                    (SchemaV1.alias_field SchemaV1.unmarshalJSON)
                    (alias_field unmarshalJSON) ms
                    (fun k x Hin => alias_field_transfer SchemaV1.unmarshalJSON
                                      unmarshalJSON k x (Hsub k x Hin))
                    SchemaV1.zero zero) as Hal.
      rewrite E1 in Hal. specialize (Hal eq_refl).
      destruct (unmarshal_fields (alias_field unmarshalJSON) zero ms) as [alias e].
      simpl in Hal. subst e. cbv zeta.
      match goal with
      | |- snd (let (_, _) := ?c in _) = None =>
          assert (Hprops : snd c = None);
          [|destruct c as [s3 e]; simpl in Hprops; subst e; reflexivity]
      end.
      destruct (raw_get "properties" ms) as [p|] eqn:Ep; [|reflexivity].
      apply raw_get_In in Ep.
      destruct (unmarshal_fields_members
                  (SchemaV1.alias_field SchemaV1.unmarshalJSON) ms SchemaV1.zero
                  ltac:(rewrite E1; reflexivity) _ _ Ep) as [a Hp].
      unfold SchemaV1.alias_field in Hp.
      replace (SchemaV1.lookup_field "properties") with (Some SchemaV1.F_Properties) in Hp
        by (vm_compute; reflexivity).
      unfold unmarshal_map in Hp. unfold decode_properties.
      destruct p as [| | | | |pm]; try discriminate Hp; [reflexivity|].
      destruct (unmarshal_entries SchemaV1.zero SchemaV1.unmarshalJSON
                  (SchemaV1.Properties a) pm) as [m e] eqn:Em.
      simpl in Hp. subst e.
      pose proof (decode_props_ok unmarshalJSON pm) as K.
      assert (Hvals : forall k' y, In (k', y) pm -> snd (unmarshalJSON zero y) = None).
      { intros k' y Hy.
        pose proof (unmarshal_entries_members SchemaV1.zero SchemaV1.unmarshalJSON pm
                      (SchemaV1.Properties a) ltac:(rewrite Em; reflexivity) k' y Hy) as Hptr.
        destruct y as [|b|lit|str|l|ym];
          try (apply (Hsub _ _ Ep);
               [apply Nat.lt_le_incl; apply (json_size_member k' _ pm Hy)|];
               exists SchemaV1.zero; unfold unmarshal_ptr in Hptr;
               match type of Hptr with
               | context [SchemaV1.unmarshalJSON ?s ?v] =>
                   destruct (SchemaV1.unmarshalJSON s v); exact Hptr
               end).
        rewrite unmarshalJSON_null. reflexivity. }
      specialize (K Hvals []).
      destruct (decode_props unmarshalJSON pm []). exact K.
Qed.

Lemma accepted_by_V1_accepted (v : json) (s1 : SchemaV1.Schema) (s2 : Schema) :
  snd (SchemaV1.unmarshalJSON s1 v) = None -> snd (unmarshalJSON s2 v) = None.
Proof.
  intros H. apply (accepted_by_V1_accepted_size (json_size v) v (Nat.le_refl _)).
  now exists s1.
Qed.

Lemma unmarshal_fields_related {A1 A2 : Type}
  (f1 : A1 -> string -> json -> decoded A1) (f2 : A2 -> string -> json -> decoded A2)
  (R : A1 -> A2 -> Prop) :
  (forall a1 a2 k x, R a1 a2 -> R (fst (f1 a1 k x)) (fst (f2 a2 k x))) ->
  forall ms a1 a2, R a1 a2 ->
    R (fst (unmarshal_fields f1 a1 ms)) (fst (unmarshal_fields f2 a2 ms)).
Proof.
  intros Hstep. induction ms as [|[k x] ms IH]; intros a1 a2 HR; simpl; [exact HR|].
  specialize (Hstep a1 a2 k x HR).
  destruct (f1 a1 k x) as [b1 e1]. destruct (f2 a2 k x) as [b2 e2]. simpl in Hstep.
  specialize (IH b1 b2 Hstep).
  destruct (unmarshal_fields f1 b1 ms). destruct (unmarshal_fields f2 b2 ms). exact IH.
Qed.

(** The reference, the constant and the enumeration are filled alike. *)
Lemma alias_field_plain_fields
  (rec1 : SchemaV1.Schema -> json -> decoded SchemaV1.Schema)
  (rec2 : Schema -> json -> decoded Schema)
  (a1 : SchemaV1.Schema) (a2 : Schema) (k : string) (x : json) :
  (SchemaV1.Ref a1, SchemaV1.Const a1, SchemaV1.Enum a1) = (Ref a2, Const a2, Enum a2) ->
  let b1 := fst (SchemaV1.alias_field rec1 a1 k x) in
  let b2 := fst (alias_field rec2 a2 k x) in
  (SchemaV1.Ref b1, SchemaV1.Const b1, SchemaV1.Enum b1) = (Ref b2, Const b2, Enum b2).
Proof.
  intros H. injection H as HR HC HE.
  unfold SchemaV1.alias_field, alias_field. rewrite lookup_field_same_tag.
  destruct (SchemaV1.lookup_field k) as [f1|]; [|simpl; congruence].
  destruct f1; cbn [same_tag]; rewrite ?HR, ?HC, ?HE;
    repeat match goal with
      | |- context [let '(_, _) := ?c in _] => destruct c
      end; simpl; congruence.
Qed.

Lemma decode_additional_keeps_V1
  (rec : SchemaV1.Schema -> json -> decoded SchemaV1.Schema)
  (apRaw : json) (s : SchemaV1.Schema) :
  let r := SchemaV1.decode_additional rec apRaw s in
  (SchemaV1.Ref r, SchemaV1.Const r, SchemaV1.Enum r) =
  (SchemaV1.Ref s, SchemaV1.Const s, SchemaV1.Enum s).
Proof.
  unfold SchemaV1.decode_additional.
  destruct (unmarshal_bool false apRaw) as [b [e|]]; [|reflexivity].
  destruct (rec SchemaV1.zero apRaw) as [sv [e'|]]; reflexivity.
Qed.

(** C10, as amended.  Every input the decoder of [src/linter/schema.go]
    decodes into a new [Schema] without error, the decoder of
    [src/unnamed/part_001] decodes without error too, and the two nodes
    hold the same [$ref], [const] and [enum]. *)
Theorem decoder_of_part_001_extends_schema_go (data : string) (r1 : SchemaV1.Schema) :
  SchemaV1.UnmarshalJSON SchemaV1.zero data = (r1, None) ->
  exists r2 : Schema,
    UnmarshalJSON zero data = (r2, None) /\
    SchemaV1.Ref r1 = Ref r2 /\
    SchemaV1.Const r1 = Const r2 /\
    SchemaV1.Enum r1 = Enum r2.
Proof.
  unfold SchemaV1.UnmarshalJSON, UnmarshalJSON, Unmarshal.
  destruct (parse data) as [v|]; [|discriminate].
  intros H1.
  pose proof (accepted_by_V1_accepted v SchemaV1.zero zero ltac:(rewrite H1; reflexivity))
    as H2.
  destruct (unmarshalJSON zero v) as [r2 e2] eqn:E2. simpl in H2. subst e2.
  exists r2. split; [reflexivity|].
  destruct v as [|b|lit|str|l|ms];
    try (rewrite unmarshalJSON_V1_eq in H1; discriminate H1).
  - rewrite unmarshalJSON_V1_eq in H1. injection H1 as <-.
    rewrite unmarshalJSON_null in E2. injection E2 as <-. repeat split.
  - rewrite unmarshalJSON_V1_object in H1.
    apply unmarshalJSON_object_ok in E2.
    destruct E2 as (alias & s1 & s2 & Ha & Hs1 & Hs2 & Hr).
    pose proof (unmarshal_fields_related
                  (SchemaV1.alias_field SchemaV1.unmarshalJSON)
                  (alias_field unmarshalJSON)
                  (fun a1 a2 => (SchemaV1.Ref a1, SchemaV1.Const a1, SchemaV1.Enum a1)
                                = (Ref a2, Const a2, Enum a2))
                  (fun a1 a2 k x => alias_field_plain_fields SchemaV1.unmarshalJSON
                                      unmarshalJSON a1 a2 k x)
                  ms SchemaV1.zero zero eq_refl) as Hrel.
    rewrite Ha in Hrel.
    destruct (unmarshal_fields (SchemaV1.alias_field SchemaV1.unmarshalJSON)
                SchemaV1.zero ms) as [alias1 [e1|]]; [discriminate H1|].
    simpl in Hrel. injection H1 as <-.
    assert (K1 : (Ref s1, Const s1, Enum s1) = (Ref alias, Const alias, Enum alias)).
    { subst s1. destruct (raw_get "type" ms) as [t|]; [|reflexivity].
      pose proof (decode_type_keeps t alias) as K. simpl in K. congruence. }
    assert (K2 : (Ref s2, Const s2, Enum s2) = (Ref s1, Const s1, Enum s1)).
    { destruct (raw_get "properties" ms) as [p|].
      - pose proof (decode_properties_keeps unmarshalJSON p s1) as K.
        rewrite Hs2 in K. simpl in K. congruence.
      - congruence. }
    assert (K3 : (Ref r2, Const r2, Enum r2) = (Ref s2, Const s2, Enum s2)).
    { subst r2. destruct (raw_get "additionalProperties" ms) as [a|]; [|reflexivity].
      pose proof (decode_additional_keeps unmarshalJSON a s2) as K. simpl in K. congruence. }
    assert (K4 : forall r,
               r = match raw_get "additionalProperties" ms with
                   | Some apRaw =>
                       SchemaV1.decode_additional SchemaV1.unmarshalJSON apRaw alias1
                   | None => alias1
                   end ->
               (SchemaV1.Ref r, SchemaV1.Const r, SchemaV1.Enum r) =
               (SchemaV1.Ref alias1, SchemaV1.Const alias1, SchemaV1.Enum alias1)).
    { intros r ->. destruct (raw_get "additionalProperties" ms) as [a|]; [|reflexivity].
      apply (decode_additional_keeps_V1 SchemaV1.unmarshalJSON a alias1). }
    specialize (K4 _ eq_refl).
    rewrite K1, <- Hrel, <- K4 in K2. rewrite K2 in K3.
    injection K3 as -> -> ->. repeat split.
Qed.

Lemma decoder_of_part_001_extends_schema_go_witness :
  exists r2 : Schema,
    UnmarshalJSON zero (text "{'$ref':'#/$defs/Dog','enum':[1,2]}") = (r2, None) /\
    "#/$defs/Dog" = Ref r2 /\ JNull = Const r2 /\ [JNumber "1"; JNumber "2"] = Enum r2.
Proof.
  apply (decoder_of_part_001_extends_schema_go
           (text "{'$ref':'#/$defs/Dog','enum':[1,2]}")
           (SchemaV1.set_Enum [JNumber "1"; JNumber "2"]
              (SchemaV1.set_Ref "#/$defs/Dog" SchemaV1.zero))).
  vm_compute. reflexivity.
Defined.

(** C10, as stated, fails: the decoder of [part_001] accepts the boolean
    schema [true], which the decoder of [schema.go] rejects. *)
Lemma decoders_accept_different_inputs :
  snd (SchemaV1.UnmarshalJSON SchemaV1.zero "true") = Some UnmarshalTypeError /\
  snd (UnmarshalJSON zero "true") = None.
Proof. split; vm_compute; reflexivity. Qed.

(** Where both decoders succeed they need not agree on the other shared
    fields: a property whose value is [null] is a nil pointer for one
    and a boolean schema for the other, and an array of types nested in
    [additionalProperties] is dropped by one and kept by the other. *)
Example decoders_differ_on_properties :
  let data := (text "{'properties':{'a':null}}") in
  snd (SchemaV1.UnmarshalJSON SchemaV1.zero data) = None /\
  snd (UnmarshalJSON zero data) = None /\
  SchemaV1.Properties (fst (SchemaV1.UnmarshalJSON SchemaV1.zero data)) = [("a", None)] /\
  Properties (fst (UnmarshalJSON zero data))
  = [("a", Some (set_IsBooleanSchema true zero))].
Proof. vm_compute. repeat split. Qed.

Example decoders_differ_on_additionalProperties :
  let data := (text "{'additionalProperties':{'type':['string','null']}}") in
  snd (SchemaV1.UnmarshalJSON SchemaV1.zero data) = None /\
  snd (UnmarshalJSON zero data) = None /\
  SchemaV1.AdditionalProperties (fst (SchemaV1.UnmarshalJSON SchemaV1.zero data)) = None /\
  AdditionalProperties (fst (UnmarshalJSON zero data)) = Some true.
Proof. vm_compute. repeat split. Qed.

Example decoders_differ_on_type :
  let data := (text "{'Type':'string'}") in
  snd (SchemaV1.UnmarshalJSON SchemaV1.zero data) = None /\
  snd (UnmarshalJSON zero data) = None /\
  SchemaV1.Type_ (fst (SchemaV1.UnmarshalJSON SchemaV1.zero data)) = "string" /\
  Type_ (fst (UnmarshalJSON zero data)) = EmptyString.
Proof. vm_compute. repeat split. Qed.

(** ** The linter *)

Lemma nodes_eq (path : string) (s : Schema) :
  nodes path s =
  (path, s)
  :: walk_map nodes (path ++ "/$defs") (Defs s)
  ++ walk_map nodes (path ++ "/definitions") (Definitions s)
  ++ walk_slice nodes (path ++ "/anyOf") 0 (AnyOf s)
  ++ walk_slice nodes (path ++ "/oneOf") 0 (OneOf s)
  ++ walk_slice nodes (path ++ "/allOf") 0 (AllOf s)
  ++ walk_map nodes (path ++ "/properties") (Properties s)
  ++ walk_ptr nodes (path ++ "/additionalProperties") (AdditionalPropertiesSchema s)
  ++ walk_ptr nodes (path ++ "/items") (Items s).
Proof. destruct s; reflexivity. Qed.

Section Covering.
Variable visit : string -> Schema -> list (string * Schema).

Lemma walk_map_covers (path name : string) (c : Schema)
  (m : list (string * option Schema)) :
  In (name, Some c) m ->
  incl (visit (path ++ "/" ++ name) c) (walk_map visit path m).
Proof.
  induction m as [|[k p] m IH]; simpl; [tauto|].
  intros [H|H] n Hn.
  - injection H as -> ->. apply in_or_app. left. exact Hn.
  - apply in_or_app. right. apply (IH H n Hn).
Qed.

Lemma walk_slice_covers (path : string) (c : Schema) (l : list (option Schema)) :
  In (Some c) l ->
  forall i, exists j, incl (visit (path ++ "/" ++ index_string j) c)
                        (walk_slice visit path i l).
Proof.
  induction l as [|p l IH]; simpl; [tauto|].
  intros [H|H] i.
  - subst p. exists i. intros n Hn. apply in_or_app. left. exact Hn.
  - destruct (IH H (S i)) as [j Hj]. exists j.
    intros n Hn. apply in_or_app. right. apply (Hj n Hn).
Qed.
End Covering.

Lemma child_nodes (s c : Schema) :
  child s c -> forall p, exists p', incl (nodes p' c) (nodes p s).
Proof.
  intros H p. rewrite nodes_eq.
  destruct H as [name H|name H|H|H|H|name H|H|H].
  - exists ((p ++ "/$defs") ++ "/" ++ name)%string. intros n Hn. right.
    apply in_or_app. left. apply (walk_map_covers nodes _ _ _ _ H n Hn).
  - exists ((p ++ "/definitions") ++ "/" ++ name)%string. intros n Hn. right.
    apply in_or_app. right. apply in_or_app. left.
    apply (walk_map_covers nodes _ _ _ _ H n Hn).
  - destruct (walk_slice_covers nodes (p ++ "/anyOf") c _ H 0) as [j Hj].
    exists ((p ++ "/anyOf") ++ "/" ++ index_string j)%string. intros n Hn. right.
    do 2 (apply in_or_app; right). apply in_or_app. left. apply (Hj n Hn).
  - destruct (walk_slice_covers nodes (p ++ "/oneOf") c _ H 0) as [j Hj].
    exists ((p ++ "/oneOf") ++ "/" ++ index_string j)%string. intros n Hn. right.
    do 3 (apply in_or_app; right). apply in_or_app. left. apply (Hj n Hn).
  - destruct (walk_slice_covers nodes (p ++ "/allOf") c _ H 0) as [j Hj].
    exists ((p ++ "/allOf") ++ "/" ++ index_string j)%string. intros n Hn. right.
    do 4 (apply in_or_app; right). apply in_or_app. left. apply (Hj n Hn).
  - exists ((p ++ "/properties") ++ "/" ++ name)%string. intros n Hn. right.
    do 5 (apply in_or_app; right). apply in_or_app. left.
    apply (walk_map_covers nodes _ _ _ _ H n Hn).
  - exists (p ++ "/additionalProperties")%string. intros n Hn. right.
    do 6 (apply in_or_app; right). apply in_or_app. left. rewrite H. exact Hn.
  - exists (p ++ "/items")%string. intros n Hn. right.
    do 7 (apply in_or_app; right). rewrite H. exact Hn.
Qed.

(** The walk reaches every schema of the document. *)
Lemma within_nodes (root s : Schema) :
  within root s -> forall p0, exists p, In (p, s) (nodes p0 root).
Proof.
  intros H p0.
  assert (K : exists p, incl (nodes p s) (nodes p0 root)).
  { induction H as [|s c Hs IH Hc].
    - exists p0. apply incl_refl.
    - destruct IH as [p Hp]. destruct (child_nodes s c Hc p) as [p' Hp'].
      exists p'. intros n Hn. apply Hp, Hp', Hn. }
  destruct K as [p Hp]. exists p. apply Hp. rewrite nodes_eq. now left.
Qed.

Lemma apply_rule_issue (c : Config) (path : string) (s : Schema) (r : Rule) (i : Issue) :
  In i (apply_rule c path s r) ->
  Code i = rule_code r /\ Severity i = rule_severity r /\
  rule_active r (Profile c) = true.
Proof.
  unfold apply_rule. destruct (rule_active r (Profile c)); [|simpl; tauto].
  intros H. apply in_map_iff in H as (f & <- & _). simpl. auto.
Qed.

Lemma node_issues_rule (c : Config) (path : string) (s : Schema) (i : Issue) :
  In i (node_issues c path s) ->
  exists r, In r rules /\ In i (apply_rule c path s r).
Proof. unfold node_issues. intros H. apply in_flat_map in H. exact H. Qed.

Lemma LintSchema_issue (l : Linter) (root : Schema) (i : Issue) :
  In i (Issues (LintSchema l root)) <->
  exists p s, In (p, s) (nodes "$" root) /\ In i (node_issues (config l) p s).
Proof.
  unfold LintSchema. simpl. rewrite in_flat_map. split.
  - intros [[p s] [H1 H2]]. exists p, s. auto.
  - intros (p & s & H1 & H2). exists (p, s). auto.
Qed.

(** C4, as amended.  Modelled from the spec.  When the document is
    decoded and a schema of the decoded tree, the root or one reached
    through [$defs], [definitions], [anyOf], [oneOf], [allOf],
    [properties], [additionalProperties] and [items], holds a non-empty
    [anyOf], the run under the scale profile reports at least one
    [composition-disallowed] issue of error severity, and the run under
    the default profile reports none. *)
Theorem scale_profile_disallows_anyOf (data : string) (root : Schema)
  (cs cd : Config) :
  UnmarshalJSON zero data = (root, None) ->
  contains_anyOf root ->
  Profile cs = ProfileScale ->
  Profile cd = ProfileDefault ->
  (exists i, In i (Issues (fst (Lint (New cs) data))) /\
             Code i = CodeCompositionDisallowed /\ Severity i = SeverityError) /\
  (forall i, In i (Issues (fst (Lint (New cd) data))) ->
             Code i <> CodeCompositionDisallowed).
Proof.
  intros Hdec (s & Hs & Hany) Hcs Hcd. unfold Lint. rewrite Hdec. simpl fst. split.
  - destruct (within_nodes root s Hs "$") as [p Hp].
    exists (mkIssue CodeCompositionDisallowed SeverityError (p ++ "/anyOf")%string
              "anyOf is not allowed").
    split; [|split; reflexivity].
    apply LintSchema_issue. exists p, s. split; [exact Hp|].
    unfold node_issues, rules. cbn [flat_map]. unfold apply_rule at 4.
    cbn [rule_active rule_code rule_severity rule_check config].
    rewrite Hcs. cbn [scale_only].
    do 3 (apply in_or_app; right). apply in_or_app. left.
    unfold check_composition.
    destruct (AnyOf s) as [|v vs]; [congruence|]. simpl. now left.
  - intros i Hi. apply LintSchema_issue in Hi as (p & n & _ & Hi).
    apply node_issues_rule in Hi as (r & Hr & Hi).
    apply apply_rule_issue in Hi as (Hc & _ & Hact). simpl in Hact.
    rewrite Hcd in Hact. rewrite Hc.
    unfold rules in Hr. simpl in Hr.
    repeat (destruct Hr as [<-|Hr]; [simpl in *; congruence|]). contradiction.
Qed.

Lemma scale_profile_disallows_anyOf_witness :
  exists i, In i (Issues (fst (Lint (New (mkConfig ProfileScale 10)) animal_document))) /\
            Code i = CodeCompositionDisallowed /\ Severity i = SeverityError.
Proof.
  refine (proj1 (scale_profile_disallows_anyOf animal_document
                   (fst (UnmarshalJSON zero animal_document))
                   (mkConfig ProfileScale 10) DefaultConfig _ _ eq_refl eq_refl)).
  - vm_compute. reflexivity.
  - eexists. split.
    + eapply within_child; [apply within_root|].
      eapply (child_defs _ _ "Animal"). vm_compute. left. reflexivity.
    + vm_compute. discriminate.
Defined.

(** C4, as stated, fails: an [anyOf] is not reported wherever it is.
    The schema struct has no field for [not], so the decoder drops the
    member and the [anyOf] below it is no part of the decoded tree; an
    empty [anyOf] is decoded to an empty list.  The run under the scale
    profile reports nothing on either document. *)
Lemma anyOf_out_of_reach_is_not_reported :
  Lint (New (mkConfig ProfileScale 10))
    (text "{'type':'object','not':{'anyOf':[{'type':'string'},{'type':'null'}]}}")
  = (mkResult [], None) /\
  Lint (New (mkConfig ProfileScale 10)) (text "{'type':'object','anyOf':[]}")
  = (mkResult [], None).
Proof. split; vm_compute; reflexivity. Qed.

Lemma classify_all_refs (vs : list (option Schema)) :
  (forall v, In v vs -> is_ref_variant v = true) ->
  classify vs <> Some Ambiguous.
Proof.
  intros H. unfold classify.
  destruct (List.length vs <? 2)%nat; [discriminate|].
  destruct (nullable_of vs); [discriminate|].
  replace (forallb is_ref_variant vs) with true; [discriminate|].
  symmetry. apply forallb_forall. exact H.
Qed.

(** Only a union classified [Ambiguous] is reported without
    discriminator. *)
Lemma union_no_discriminator_needs_ambiguous (c : Config) (path : string) (s : Schema)
  (i : Issue) :
  In i (node_issues c path s) ->
  Code i = CodeUnionNoDiscriminator ->
  classify (GetUnionVariants s) = Some Ambiguous.
Proof.
  intros Hi Hcode. apply node_issues_rule in Hi as (r & Hr & Hi).
  pose proof (apply_rule_issue c path s r i Hi) as (Hc & _ & _).
  rewrite Hcode in Hc. unfold rules in Hr. simpl in Hr.
  destruct Hr as [<-|Hr].
  - unfold apply_rule in Hi. simpl in Hi.
    unfold check_union_no_discriminator, when in Hi.
    destruct (IsUnion s); simpl in Hi; [|contradiction].
    destruct (classify (GetUnionVariants s)) as [[]|]; simpl in Hi;
      try contradiction. reflexivity.
  - repeat (destruct Hr as [<-|Hr]; [simpl in Hc; discriminate Hc|]). contradiction.
Qed.

(** C3.  Modelled from the spec.  At a union node all of whose variants
    are [$ref] schemas, the run reports no [union-no-discriminator]
    issue. *)
Theorem reference_only_union_not_flagged (c : Config) (path : string) (s : Schema) :
  IsUnion s = true ->
  (forall v, In v (GetUnionVariants s) -> exists r, v = Some r /\ IsRef r = true) ->
  forall i, In i (node_issues c path s) -> Code i <> CodeUnionNoDiscriminator.
Proof.
  intros _ Hrefs i Hi Hcode.
  apply (classify_all_refs (GetUnionVariants s)).
  - intros v Hv. destruct (Hrefs v Hv) as (r & -> & Hr). exact Hr.
  - apply (union_no_discriminator_needs_ambiguous c path s i Hi Hcode).
Qed.

Lemma reference_only_union_not_flagged_witness :
  existsb (fun i => code_eqb (Code i) CodeUnionNoDiscriminator)
    (node_issues DefaultConfig "$/$defs/Animal"
       (set_AnyOf [Some (set_Ref "#/$defs/Dog" zero);
                   Some (set_Ref "#/$defs/Cat" zero)] zero))
  = false.
Proof.
  destruct (existsb _ _) eqn:E; [|reflexivity].
  apply existsb_exists in E as (i & Hi & Hc).
  exfalso.
  apply (reference_only_union_not_flagged DefaultConfig "$/$defs/Animal"
           (set_AnyOf [Some (set_Ref "#/$defs/Dog" zero);
                       Some (set_Ref "#/$defs/Cat" zero)] zero)
           eq_refl
           ltac:(simpl; intros v [<-|[<-|[]]]; eexists; split; reflexivity)
           i Hi).
  destruct (Code i); simpl in Hc; try discriminate Hc. reflexivity.
Defined.

(** C2.  Modelled from the spec.  A union of exactly two variants one of
    which has the declared type [null] is classified [Nullable], in
    either order of the variants, with the other variant as [T] when only
    one of them is null; and the run on the document of the scenario
    under the default profile reports no issue. *)
Theorem nullable_union_either_order :
  (forall (a b : option Schema) (r : Schema),
      (a = Some r \/ b = Some r) ->
      Type_ r = "null" ->
      (exists T T', classify [a; b] = Some (Nullable T) /\
                    classify [b; a] = Some (Nullable T')) /\
      (is_null_variant a = false ->
       classify [a; b] = Some (Nullable a) /\ classify [b; a] = Some (Nullable a)) /\
      (is_null_variant b = false ->
       classify [a; b] = Some (Nullable b) /\ classify [b; a] = Some (Nullable b))) /\
  Lint NewWithDefaults nullable_scenario = (mkResult [], None) /\
  Lint NewWithDefaults nullable_document = (mkResult [], None).
Proof.
  split; [|split; vm_compute; reflexivity].
  intros a b r Hab Hr.
  assert (Hnull : is_null_variant a = true \/ is_null_variant b = true).
  { destruct Hab as [->| ->]; [left|right]; simpl; rewrite Hr; reflexivity. }
  unfold classify, nullable_of. simpl.
  destruct (is_null_variant a) eqn:Ea, (is_null_variant b) eqn:Eb.
  - split; [eauto|]. split; discriminate.
  - split; [eauto|]. split; [discriminate|]. auto.
  - split; [eauto|]. split; [auto|discriminate].
  - destruct Hnull; discriminate.
Qed.

Lemma nullable_union_either_order_witness :
  classify [Some (set_Type_ "string" zero); Some (set_Type_ "null" zero)]
  = Some (Nullable (Some (set_Type_ "string" zero))) /\
  classify [Some (set_Type_ "null" zero); Some (set_Type_ "string" zero)]
  = Some (Nullable (Some (set_Type_ "string" zero))).
Proof.
  apply (proj1 (proj2 (proj1 nullable_union_either_order
                         (Some (set_Type_ "string" zero)) (Some (set_Type_ "null" zero))
                         (set_Type_ "null" zero) (or_intror eq_refl) eq_refl))).
  reflexivity.
Defined.

Lemma json_eqb_eq_size (n : nat) :
  forall a, json_size a <= n -> forall b, json_eqb a b = true -> a = b.
Proof.
  induction n as [|n IHn]; intros a Hs b H.
  - destruct a; simpl in Hs; lia.
  - destruct a as [|x|x|x|l|m], b as [|y|y|y|l'|m']; simpl in H; try discriminate.
    + reflexivity.
    + f_equal. apply Bool.eqb_prop. exact H.
    + f_equal. apply String.eqb_eq. exact H.
    + f_equal. apply String.eqb_eq. exact H.
    + f_equal.
      assert (IH : forall x, In x l -> forall y, json_eqb x y = true -> x = y).
      { intros x Hx. apply IHn. pose proof (json_size_elem x l Hx). lia. }
      clear Hs. revert l' H. induction l as [|x l IHl]; intros [|y l'] H;
        try discriminate; [reflexivity|].
      apply andb_true_iff in H as [H1 H2]. f_equal.
      * apply IH; [now left|exact H1].
      * apply IHl; [|exact H2]. intros z Hz. apply IH. now right.
    + f_equal.
      assert (IH : forall k x, In (k, x) m -> forall y, json_eqb x y = true -> x = y).
      { intros k x Hx. apply IHn. pose proof (json_size_member k x m Hx). lia. }
      clear Hs. revert m' H. induction m as [|[k x] m IHm]; intros [|[k' y] m'] H;
        try discriminate; [reflexivity|].
      apply andb_true_iff in H as [H1 H2]. apply andb_true_iff in H1 as [H0 H1].
      apply String.eqb_eq in H0. subst k'. f_equal.
      * f_equal. apply (IH k); [now left|exact H1].
      * apply IHm; [|exact H2]. intros k' z Hz. apply (IH k'). now right.
Qed.

Lemma json_eqb_eq (a b : json) : json_eqb a b = true -> a = b.
Proof. apply (json_eqb_eq_size (json_size a)). apply Nat.le_refl. Qed.

Lemma const_of_declared (name : string) (v : option Schema) (c : json) :
  declares_tag name v c -> const_of name v = Some c.
Proof.
  intros (r & q & -> & Hq & <- & Hc). unfold const_of, property_of. rewrite Hq.
  destruct (json_eqb (Const q) JNull) eqn:E; [|reflexivity].
  apply json_eqb_eq in E. contradiction.
Qed.

Lemma consts_of_declared (name : string) (vs : list (option Schema)) (cs : list json) :
  Forall2 (declares_tag name) vs cs -> consts_of name vs = cs.
Proof.
  unfold consts_of. induction 1 as [|v c vs cs Hv Hvs IH]; simpl; [reflexivity|].
  rewrite (const_of_declared name v c Hv). simpl. now rewrite IH.
Qed.

Lemma accepted_declared (name : string) (vs : list (option Schema)) (cs : list json) :
  Forall2 (declares_tag name) vs cs -> accepted vs name = true.
Proof.
  unfold accepted. induction 1 as [|v c vs cs Hv Hvs IH]; simpl; [reflexivity|].
  rewrite (const_of_declared name v c Hv). exact IH.
Qed.

Lemma map_get_In_fst {A : Type} (k : string) (m : list (string * A)) (x : A) :
  map_get k m = Some x -> In k (map fst m).
Proof.
  induction m as [|[k' y] m IH]; simpl; [discriminate|].
  destruct (String.eqb k' k) eqn:E.
  - apply String.eqb_eq in E. now left.
  - intros H. right. now apply IH.
Qed.

Lemma candidate_declared (name : string) (vs : list (option Schema)) (cs : list json) :
  vs <> [] -> Forall2 (declares_tag name) vs cs -> In name (candidates vs).
Proof.
  intros Hne H. destruct H as [|v c vs cs Hv Hvs]; [congruence|].
  unfold candidates. apply filter_In. split.
  - destruct Hv as (r & q & -> & Hq & _). simpl. apply (map_get_In_fst _ _ _ Hq).
  - clear Hv Hne. induction Hvs as [|w d ws ds Hw Hws IH]; simpl; [reflexivity|].
    rewrite IH. destruct Hw as (r & q & -> & Hq & _). simpl. rewrite Hq. reflexivity.
Qed.

Lemma best_is_greatest (vs : list (option Schema)) (names : list string) (n : string) :
  In n names ->
  exists f, best vs names = Some f /\ In f names /\
            distinct_count n vs <= distinct_count f vs.
Proof.
  induction names as [|m rest IH]; simpl; [tauto|].
  intros [->|Hn].
  - destruct (best vs rest) as [b|] eqn:Eb.
    + destruct (distinct_count n vs <? distinct_count b vs)%nat eqn:E.
      * exists b. apply Nat.ltb_lt in E. repeat split; [|lia].
        right. clear - Eb. revert b Eb.
        induction rest as [|x rest IH]; simpl; [discriminate|].
        intros b. destruct (best vs rest) as [b'|].
        -- destruct (distinct_count x vs <? distinct_count b' vs)%nat;
             intros H; injection H as <-; [right; now apply IH|now left].
        -- intros H; injection H as <-. now left.
      * exists n. repeat split; [now left|lia].
    + exists n. repeat split; [now left|lia].
  - destruct (IH Hn) as (b & Eb & Hb & Hle). rewrite Eb.
    destruct (distinct_count m vs <? distinct_count b vs)%nat eqn:E.
    + exists b. repeat split; [now right|exact Hle].
    + exists m. apply Nat.ltb_ge in E. repeat split; [now left|lia].
Qed.

Lemma distinct_length (l : list json) : List.length (distinct l) <= List.length l.
Proof.
  induction l as [|c r IH]; simpl; [lia|].
  destruct (existsb (json_eqb c) r); simpl; lia.
Qed.

Lemma distinct_NoDup (l : list json) : NoDup l -> distinct l = l.
Proof.
  induction 1 as [|c r Hc Hr IH]; simpl; [reflexivity|].
  destruct (existsb (json_eqb c) r) eqn:E.
  - apply existsb_exists in E as (x & Hx & Hcx). apply json_eqb_eq in Hcx.
    subst x. contradiction.
  - now rewrite IH.
Qed.

Lemma consts_of_length (name : string) (vs : list (option Schema)) :
  List.length (consts_of name vs) <= List.length vs.
Proof.
  unfold consts_of. induction vs as [|v vs IH]; simpl; [lia|].
  destruct (const_of name v); simpl; lia.
Qed.

Lemma Forall2_length_eq {A B : Type} (R : A -> B -> Prop) (l : list A) (l' : list B) :
  Forall2 R l l' -> List.length l = List.length l'.
Proof. induction 1; simpl; congruence. Qed.

(** The detector finds a discriminator among variants that declare a
    common property with pairwise distinct constants. *)
Lemma detect_declared (name : string) (vs : list (option Schema)) (cs : list json) :
  2 <= List.length vs ->
  Forall2 (declares_tag name) vs cs ->
  NoDup cs ->
  exists field tags, detect vs = inl (field, tags).
Proof.
  intros Hlen Hdecl Hnd. unfold detect.
  replace (List.length vs <? 2)%nat with false by (symmetry; apply Nat.ltb_ge; lia).
  assert (Hne : vs <> []) by (destruct vs; [simpl in Hlen; lia|discriminate]).
  pose proof (candidate_declared name vs cs Hne Hdecl) as Hcand.
  assert (Hin : In name (filter (accepted vs) (candidates vs))).
  { apply filter_In. split; [exact Hcand|apply (accepted_declared name vs cs Hdecl)]. }
  destruct (candidates vs) as [|n0 ns] eqn:Ec; [contradiction|].
  destruct (best_is_greatest vs _ name Hin) as (f & Hbest & _ & Hle).
  rewrite Hbest.
  assert (Hcount : distinct_count name vs = List.length vs).
  { unfold distinct_count. rewrite (consts_of_declared name vs cs Hdecl).
    rewrite (distinct_NoDup cs Hnd). symmetry. apply (Forall2_length_eq _ _ _ Hdecl). }
  replace (distinct_count f vs <? List.length vs)%nat with false
    by (symmetry; apply Nat.ltb_ge; lia).
  eauto.
Qed.

Lemma nullable_of_objects (vs : list (option Schema)) :
  Forall object_variant vs -> nullable_of vs = None.
Proof.
  intros H. unfold nullable_of.
  destruct vs as [|a [|b [|c vs]]]; try reflexivity.
  inversion H as [|? ? (ra & -> & _ & Ha) H']; subst.
  inversion H' as [|? ? (rb & -> & _ & Hb) _]; subst.
  simpl. rewrite Ha, Hb. reflexivity.
Qed.

Lemma filter_objects (vs : list (option Schema)) :
  Forall object_variant vs -> filter (fun v => negb (is_ref_variant v)) vs = vs.
Proof.
  induction 1 as [|v vs (r & -> & Hr & _) Hvs IH]; simpl; [reflexivity|].
  rewrite Hr. simpl. now rewrite IH.
Qed.

Lemma classify_declared (name : string) (vs : list (option Schema)) (cs : list json) :
  2 <= List.length vs ->
  Forall object_variant vs ->
  Forall2 (declares_tag name) vs cs ->
  NoDup cs ->
  exists field tags, classify vs = Some (Discriminated field tags).
Proof.
  intros Hlen Hobj Hdecl Hnd. unfold classify.
  replace (List.length vs <? 2)%nat with false by (symmetry; apply Nat.ltb_ge; lia).
  rewrite (nullable_of_objects vs Hobj).
  assert (Href : forallb is_ref_variant vs = false).
  { destruct Hobj as [|v vs (r & -> & Hr & _) _]; [simpl in Hlen; lia|].
    simpl. rewrite Hr. reflexivity. }
  rewrite Href, (filter_objects vs Hobj).
  destruct (detect_declared name vs cs Hlen Hdecl Hnd) as (f & tags & ->).
  eauto.
Qed.

Lemma declares_tags (name : string) (vs : list (option Schema)) (cs : list json) :
  Forall2 (declares_const name) vs cs ->
  Forall (fun c => c <> JNull) cs ->
  Forall2 (declares_tag name) vs cs.
Proof.
  induction 1 as [|v c vs cs (r & q & Hv & Hq & Hc) Hvs IH]; intros Hn;
    [constructor|].
  inversion Hn as [|? ? Hc' Hcs]; subst.
  constructor; [|exact (IH Hcs)].
  exists r, q. repeat split; try assumption; reflexivity.
Qed.

(** C1, as amended.  Modelled from the spec.  A union of two or more
    variants that are all object schemas and declare one common property
    with pairwise distinct [const] values, none of them [null], is
    classified [Discriminated], and the run reports no
    [union-no-discriminator] issue at its node.  The document of
    [TestLintUnionWithDiscriminator] is decoded and linted under the
    default profile without any error; its union is [Discriminated] with
    the discriminator field [type]. *)
Theorem discriminated_union_not_flagged :
  (forall (s : Schema) (name : string) (cs : list json),
      IsUnion s = true ->
      2 <= List.length (GetUnionVariants s) ->
      Forall object_variant (GetUnionVariants s) ->
      Forall2 (declares_const name) (GetUnionVariants s) cs ->
      Forall (fun c => c <> JNull) cs ->
      NoDup cs ->
      (exists field tags,
          classify (GetUnionVariants s) = Some (Discriminated field tags)) /\
      (forall (path : string) (i : Issue),
          In i (node_issues (config NewWithDefaults) path s) ->
          Code i <> CodeUnionNoDiscriminator)) /\
  (exists root animal : Schema,
      UnmarshalJSON zero animal_document = (root, None) /\
      map_get "Animal" (Defs root) = Some (Some animal) /\
      classify (GetUnionVariants animal)
      = Some (Discriminated "type" [(JString "dog", 0); (JString "cat", 1)]) /\
      snd (Lint NewWithDefaults animal_document) = None /\
      HasErrors (fst (Lint NewWithDefaults animal_document)) = false).
Proof.
  split.
  - intros s name cs _ Hlen Hobj Hdecl Hnull Hnd.
    destruct (classify_declared name _ cs Hlen Hobj (declares_tags name _ cs Hdecl Hnull) Hnd)
      as (f & tags & Hc).
    split; [eauto|].
    intros path i Hi Hcode.
    pose proof (union_no_discriminator_needs_ambiguous _ path s i Hi Hcode) as Ha.
    rewrite Hc in Ha. discriminate Ha.
  - eexists. eexists. split; [vm_compute; reflexivity|].
    split; [vm_compute; reflexivity|].
    split; [vm_compute; reflexivity|].
    split; vm_compute; reflexivity.
Qed.

Lemma discriminated_union_not_flagged_witness :
  exists field tags,
    classify [Some (set_Properties [("kind", Some (set_Const (JString "dog") zero))]
                      (set_Type_ "object" zero));
              Some (set_Properties [("kind", Some (set_Const (JString "cat") zero))]
                      (set_Type_ "object" zero))]
    = Some (Discriminated field tags).
Proof.
  refine (proj1 (proj1 discriminated_union_not_flagged
                   (set_AnyOf
                      [Some (set_Properties [("kind", Some (set_Const (JString "dog") zero))]
                               (set_Type_ "object" zero));
                       Some (set_Properties [("kind", Some (set_Const (JString "cat") zero))]
                               (set_Type_ "object" zero))] zero)
                   "kind" [JString "dog"; JString "cat"] eq_refl _ _ _ _ _)).
  - simpl. lia.
  - repeat constructor; eexists; repeat split; reflexivity.
  - repeat constructor; eexists; eexists; repeat split; reflexivity.
  - repeat constructor; discriminate.
  - repeat constructor; simpl; intuition discriminate.
Defined.

(** C1, as stated, fails when one of the distinct constants is [null].
    The decoder holds the constant [null] as the nil interface, which is
    also what a property without [const] holds, so the detector sees a
    variant without a constant: the union below has two object variants
    whose common property [k] is declared with the distinct constants
    [null] and ["x"], it is classified [Ambiguous], and the run reports
    [union-no-discriminator]. *)
Lemma null_constant_is_no_tag :
  exists root : Schema,
    UnmarshalJSON zero
      (text "{'anyOf':[{'type':'object','properties':{'k':{'const':null}}},{'type':'object','properties':{'k':{'const':'x'}}}]}")
    = (root, None) /\
    Forall object_variant (GetUnionVariants root) /\
    Forall2 (declares_const "k") (GetUnionVariants root) [JNull; JString "x"] /\
    NoDup [JNull; JString "x"] /\
    classify (GetUnionVariants root) = Some Ambiguous /\
    existsb (fun i => code_eqb (Code i) CodeUnionNoDiscriminator)
      (Issues (fst (Lint NewWithDefaults
                      (text "{'anyOf':[{'type':'object','properties':{'k':{'const':null}}},{'type':'object','properties':{'k':{'const':'x'}}}]}"))))
    = true.
Proof.
  eexists. split; [vm_compute; reflexivity|].
  split; [repeat constructor; eexists; repeat split; reflexivity|].
  split; [repeat constructor; eexists; eexists; repeat split; reflexivity|].
  split; [repeat constructor; simpl; intuition discriminate|].
  split; vm_compute; reflexivity.
Qed.

(** * Further properties of the schema model *)

Lemma raw_get_app (key : string) (l1 l2 : list (string * json)) :
  raw_get key (l1 ++ l2) =
  match raw_get key l2 with
  | Some y => Some y
  | None => raw_get key l1
  end.
Proof.
  induction l1 as [|[k x] l1 IH]; simpl.
  - destruct (raw_get key l2); reflexivity.
  - rewrite IH. destruct (raw_get key l2); reflexivity.
Qed.

Lemma unmarshal_fields_app {A : Type} (f : A -> string -> json -> decoded A)
  (l1 l2 : list (string * json)) :
  forall a,
    unmarshal_fields f a (l1 ++ l2) =
    let '(a1, e1) := unmarshal_fields f a l1 in
    let '(a2, e2) := unmarshal_fields f a1 l2 in
    (a2, first_error e1 e2).
Proof.
  induction l1 as [|[k x] l1 IH]; intros a; simpl.
  - destruct (unmarshal_fields f a l2) as [a2 e2]. reflexivity.
  - destruct (f a k x) as [a' e]. rewrite IH.
    destruct (unmarshal_fields f a' l1) as [a1 e1].
    destruct (unmarshal_fields f a1 l2) as [a2 e2].
    destruct e, e1, e2; reflexivity.
Qed.

(** X1.  A member whose name designates no field of the struct and is
    none of [type], [properties], [additionalProperties] is ignored: the
    document decodes as if the member were not there, whatever its
    value. *)
Theorem unknown_member_is_ignored (s : Schema) (d1 d2 : string)
  (ms1 ms2 : list (string * json)) (k : string) (x : json) :
  lookup_field k = None ->
  k <> "type" -> k <> "properties" -> k <> "additionalProperties" ->
  parse d1 = Some (JObject (ms1 ++ (k, x) :: ms2)) ->
  parse d2 = Some (JObject (ms1 ++ ms2)) ->
  UnmarshalJSON s d1 = UnmarshalJSON s d2.
Proof.
  intros Hk Ht Hp Ha H1 H2. unfold UnmarshalJSON, Unmarshal. rewrite H1, H2.
  rewrite !unmarshalJSON_object.
  assert (Hf : unmarshal_fields (alias_field unmarshalJSON) zero (ms1 ++ (k, x) :: ms2)
               = unmarshal_fields (alias_field unmarshalJSON) zero (ms1 ++ ms2)).
  { rewrite !unmarshal_fields_app.
    destruct (unmarshal_fields (alias_field unmarshalJSON) zero ms1) as [a1 e1].
    simpl. unfold alias_field at 1. rewrite Hk.
    destruct (unmarshal_fields (alias_field unmarshalJSON) a1 ms2) as [a2 e2].
    reflexivity. }
  assert (Hr : forall key, k <> key ->
                 raw_get key (ms1 ++ (k, x) :: ms2) = raw_get key (ms1 ++ ms2)).
  { intros key Hne. rewrite !raw_get_app. simpl.
    destruct (raw_get key ms2); [reflexivity|].
    destruct (String.eqb k key) eqn:E; [|reflexivity].
    apply String.eqb_eq in E. contradiction. }
  rewrite Hf, (Hr "type" Ht), (Hr "properties" Hp), (Hr "additionalProperties" Ha).
  reflexivity.
Qed.

Lemma unknown_member_is_ignored_witness :
  UnmarshalJSON zero (text "{'$ref':'#/a','minimum':1e999,'title':'t'}")
  = UnmarshalJSON zero (text "{'$ref':'#/a','title':'t'}").
Proof.
  apply (unknown_member_is_ignored zero _ _
           [("$ref", JString "#/a")] [("title", JString "t")] "minimum" (JNumber "1e999")).
  - vm_compute. reflexivity.
  - discriminate.
  - discriminate.
  - discriminate.
  - vm_compute. reflexivity.
  - vm_compute. reflexivity.
Defined.

(** ** When the decoders return an error *)

Lemma no_error_first (e1 e2 : option error) :
  no_error (first_error e1 e2) = no_error e1 && no_error e2.
Proof. destruct e1, e2; reflexivity. Qed.

Lemma no_error_true (e : option error) : no_error e = true <-> e = None.
Proof. destruct e; simpl; split; congruence. Qed.

Lemma has_key_raw_get (key : string) (ms : list (string * json)) :
  has_key key ms = match raw_get key ms with Some _ => true | None => false end.
Proof.
  unfold has_key. induction ms as [|[k x] ms IH]; simpl; [reflexivity|].
  rewrite IH.
  destruct (raw_get key ms); [apply orb_true_r|].
  rewrite orb_false_r. destruct (String.eqb k key); reflexivity.
Qed.

Lemma unmarshal_strings_error (l : list json) :
  forall cur, no_error (snd (unmarshal_strings cur l)) = forallb is_name l.
Proof.
  induction l as [|x l IH]; intros cur; simpl; [reflexivity|].
  specialize (IH (tl cur)).
  destruct (unmarshal_string (hd EmptyString cur) x) as [y e] eqn:E.
  destruct (unmarshal_strings (tl cur) l) as [ys e']. simpl in *.
  rewrite no_error_first, IH. f_equal.
  destruct x; simpl in E; inversion E; reflexivity.
Qed.

Section Errors.
Context {A : Type}.
Variable zero : A.
Variable dec : A -> json -> decoded A.
Variable acc : json -> bool.

Lemma unmarshal_ptr_error (cur : option A) (x : json) :
  (forall c, no_error (snd (dec c x)) = acc x) ->
  no_error (snd (unmarshal_ptr zero dec cur x)) = ptr_accepted acc x.
Proof.
  intros H. unfold unmarshal_ptr, ptr_accepted.
  destruct x; try reflexivity;
    match goal with
    | |- context [dec ?c ?v] => specialize (H c); destruct (dec c v); exact H
    end.
Qed.

Lemma unmarshal_ptrs_error (l : list json) :
  (forall y, In y l -> forall c, no_error (snd (dec c y)) = acc y) ->
  forall cur,
    no_error (snd (unmarshal_ptrs zero dec cur l)) = forallb (ptr_accepted acc) l.
Proof.
  induction l as [|x l IH]; intros H cur; simpl; [reflexivity|].
  pose proof (unmarshal_ptr_error (match cur with c :: _ => c | [] => None end) x
                (H x (or_introl eq_refl))) as Hx.
  destruct (unmarshal_ptr zero dec (match cur with c :: _ => c | [] => None end) x)
    as [y e].
  specialize (IH (fun y Hy => H y (or_intror Hy)) (tl cur)).
  destruct (unmarshal_ptrs zero dec (tl cur) l) as [ys e'].
  simpl in Hx, IH |- *. rewrite no_error_first, Hx, IH. reflexivity.
Qed.

Lemma unmarshal_entries_error (ms : list (string * json)) :
  (forall k y, In (k, y) ms -> forall c, no_error (snd (dec c y)) = acc y) ->
  forall cur,
    no_error (snd (unmarshal_entries zero dec cur ms))
    = forallb (fun kv => ptr_accepted acc (snd kv)) ms.
Proof.
  induction ms as [|[k x] ms IH]; intros H cur; simpl; [reflexivity|].
  pose proof (unmarshal_ptr_error None x (H k x (or_introl eq_refl))) as Hx.
  destruct (unmarshal_ptr zero dec None x) as [y e].
  specialize (IH (fun k' y' Hy => H k' y' (or_intror Hy)) (map_set k y cur)).
  destruct (unmarshal_entries zero dec (map_set k y cur) ms) as [m e'].
  simpl in Hx, IH |- *. rewrite no_error_first, Hx, IH. reflexivity.
Qed.

Lemma unmarshal_fields_error (f : A -> string -> json -> decoded A)
  (g : string -> json -> bool) (ms : list (string * json)) :
  (forall k x, In (k, x) ms -> forall a, no_error (snd (f a k x)) = g k x) ->
  forall a,
    no_error (snd (unmarshal_fields f a ms))
    = forallb (fun kv => g (fst kv) (snd kv)) ms.
Proof.
  induction ms as [|[k x] ms IH]; intros H a; simpl; [reflexivity|].
  pose proof (H k x (or_introl eq_refl) a) as Hx.
  destruct (f a k x) as [a' e].
  specialize (IH (fun k' y' Hy => H k' y' (or_intror Hy)) a').
  destruct (unmarshal_fields f a' ms) as [a'' e'].
  simpl in Hx, IH |- *. rewrite no_error_first, Hx, IH. reflexivity.
Qed.
End Errors.

Ltac open_let :=
  match goal with
  | |- no_error (snd (let (_, _) := ?c in _)) = ?r =>
      let E := fresh "E" in
      assert (E : no_error (snd c) = r); [|destruct c; exact E]
  end.

Lemma decode_props_error (rec : Schema -> json -> decoded Schema) (acc : json -> bool)
  (pm : list (string * json)) :
  (forall k y, In (k, y) pm -> no_error (snd (rec zero y)) = acc y) ->
  forall m, no_error (snd (decode_props rec pm m)) = props_accepted acc pm.
Proof.
  induction pm as [|[name y] pm IH]; intros H m; simpl; [reflexivity|].
  specialize (IH (fun k' y' Hy => H k' y' (or_intror Hy))).
  destruct (has_key name pm); [apply IH|]. simpl.
  pose proof (H name y (or_introl eq_refl)) as Hy.
  destruct (rec zero y) as [p [err|]]; simpl in Hy; rewrite <- Hy; [reflexivity|].
  apply IH.
Qed.

Lemma alias_field_error (rec : Schema -> json -> decoded Schema) (acc : json -> bool)
  (a : Schema) (k : string) (x : json) :
  (forall w, json_size w <= json_size x -> forall c, no_error (snd (rec c w)) = acc w) ->
  no_error (snd (alias_field rec a k x))
  = match lookup_field k with
    | Some f => field_accepted acc f x
    | None => true
    end.
Proof.
  intros H. unfold alias_field.
  destruct (lookup_field k) as [[]|]; try open_let; try reflexivity;
    unfold field_accepted, unmarshal_map, unmarshal_slice, unmarshal_string_slice,
      unmarshal_any, unmarshal_any_slice, map_accepted, slice_accepted, names_accepted;
    try (destruct x; reflexivity).
  all: try (destruct x as [| | | |l|ms]; try reflexivity;
            first [ apply unmarshal_entries_error; intros k' y Hy;
                    apply H; apply Nat.lt_le_incl; apply (json_size_member k' y ms Hy)
                  | apply unmarshal_ptrs_error; intros y Hy;
                    apply H; apply Nat.lt_le_incl; apply (json_size_elem y l Hy)
                  | apply unmarshal_strings_error ]).
  - apply unmarshal_ptr_error. apply H. apply Nat.le_refl.
  - destruct (numbers_ok x); reflexivity.
  - destruct x as [| | | |l|ms]; try reflexivity. destruct (forallb numbers_ok l); reflexivity.
  - destruct (numbers_ok x); reflexivity.
Qed.

Lemma alias_field_error_V1 (rec : SchemaV1.Schema -> json -> decoded SchemaV1.Schema)
  (acc : json -> bool) (a : SchemaV1.Schema) (k : string) (x : json) :
  (forall w, json_size w <= json_size x -> forall c, no_error (snd (rec c w)) = acc w) ->
  no_error (snd (SchemaV1.alias_field rec a k x))
  = match SchemaV1.lookup_field k with
    | Some f => field_accepted_V1 acc f x
    | None => true
    end.
Proof.
  intros H. unfold SchemaV1.alias_field.
  destruct (SchemaV1.lookup_field k) as [[]|]; try open_let; try reflexivity;
    unfold field_accepted_V1, same_tag, field_accepted, unmarshal_map, unmarshal_slice,
      unmarshal_string_slice, unmarshal_any, unmarshal_any_slice, map_accepted,
      slice_accepted, names_accepted;
    try (destruct x; reflexivity).
  all: try (destruct x as [| | | |l|ms]; try reflexivity;
            first [ apply unmarshal_entries_error; intros k' y Hy;
                    apply H; apply Nat.lt_le_incl; apply (json_size_member k' y ms Hy)
                  | apply unmarshal_ptrs_error; intros y Hy;
                    apply H; apply Nat.lt_le_incl; apply (json_size_elem y l Hy)
                  | apply unmarshal_strings_error ]).
  - apply unmarshal_ptr_error. apply H. apply Nat.le_refl.
  - destruct (numbers_ok x); reflexivity.
  - destruct x as [| | | |l|ms]; try reflexivity. destruct (forallb numbers_ok l); reflexivity.
  - destruct (numbers_ok x); reflexivity.
Qed.

Lemma decodes_error_size (n : nat) :
  forall v, json_size v <= n ->
    forall s, no_error (snd (unmarshalJSON s v)) = decodes v.
Proof.
  induction n as [|n IHn]; intros v Hsize s.
  - destruct v; simpl in Hsize; lia.
  - destruct v as [|b|lit|str|l|ms]; try (rewrite unmarshalJSON_eq; reflexivity).
    rewrite unmarshalJSON_object.
    change (decodes (JObject ms)) with (members_accepted decodes ms).
    unfold members_accepted. rewrite raw_apply_get.
    assert (Hsub : forall k x, In (k, x) ms ->
              forall w, json_size w <= json_size x ->
                forall c, no_error (snd (unmarshalJSON c w)) = decodes w).
    { intros k x Hin w Hw c. apply IHn.
      pose proof (json_size_member k x ms Hin). lia. }
    pose proof (unmarshal_fields_error (alias_field unmarshalJSON)
                  (fun k x => match lookup_field k with
                              | Some f => field_accepted decodes f x
                              | None => true
                              end) ms
                  (fun k x Hin a => alias_field_error unmarshalJSON decodes a k x
                                      (Hsub k x Hin)) zero) as Hal.
    destruct (unmarshal_fields (alias_field unmarshalJSON) zero ms) as [alias e].
    simpl in Hal. rewrite <- Hal.
    destruct e as [err|]; [reflexivity|]. simpl.
    destruct (raw_get "properties" ms) as [p|] eqn:Ep; [|reflexivity].
    apply raw_get_In in Ep.
    destruct p as [| | | | |pm]; try reflexivity.
    unfold decode_properties, properties_accepted.
    pose proof (decode_props_error unmarshalJSON decodes pm
                  (fun k y Hy => Hsub _ _ Ep y
                                   (Nat.lt_le_incl _ _ (json_size_member k y pm Hy)) zero)
                  []) as Hp.
    destruct (decode_props unmarshalJSON pm []) as [props e].
    simpl in Hp. rewrite <- Hp. destruct e; reflexivity.
Qed.

Lemma decodes_error_size_V1 (n : nat) :
  forall v, json_size v <= n ->
    forall s, no_error (snd (SchemaV1.unmarshalJSON s v)) = decodes_V1 v.
Proof.
  induction n as [|n IHn]; intros v Hsize s.
  - destruct v; simpl in Hsize; lia.
  - destruct v as [|b|lit|str|l|ms]; try (rewrite unmarshalJSON_V1_eq; reflexivity).
    rewrite unmarshalJSON_V1_object.
    change (decodes_V1 (JObject ms)) with (members_accepted_V1 decodes_V1 ms).
    unfold members_accepted_V1.
    assert (Hsub : forall k x, In (k, x) ms ->
              forall w, json_size w <= json_size x ->
                forall c, no_error (snd (SchemaV1.unmarshalJSON c w)) = decodes_V1 w).
    { intros k x Hin w Hw c. apply IHn.
      pose proof (json_size_member k x ms Hin). lia. }
    pose proof (unmarshal_fields_error (SchemaV1.alias_field SchemaV1.unmarshalJSON)
                  (fun k x => match SchemaV1.lookup_field k with
                              | Some f => field_accepted_V1 decodes_V1 f x
                              | None => true
                              end) ms
                  (fun k x Hin a => alias_field_error_V1 SchemaV1.unmarshalJSON decodes_V1
                                      a k x (Hsub k x Hin)) SchemaV1.zero) as Hal.
    destruct (unmarshal_fields (SchemaV1.alias_field SchemaV1.unmarshalJSON)
                SchemaV1.zero ms) as [alias e].
    simpl in Hal. rewrite <- Hal.
    destruct e as [err|]; reflexivity.
Qed.

(** X2.  The decoder of [part_001] returns no error exactly when its
    input is valid JSON for [null], a boolean, or an object in which
    every member that designates a tagged field has a value of that
    field's kind and the last [properties] member is [null] or an
    object whose decoded members are themselves accepted.  What [type]
    and [additionalProperties] hold never makes the decoder fail. *)
Theorem UnmarshalJSON_accepts (s : Schema) (data : string) :
  snd (UnmarshalJSON s data) = None <->
  exists v, parse data = Some v /\ decodes v = true.
Proof.
  unfold UnmarshalJSON, Unmarshal.
  destruct (parse data) as [v|].
  - rewrite <- no_error_true, (decodes_error_size (json_size v) v (Nat.le_refl _) s).
    split.
    + intros H. exists v. split; [reflexivity|exact H].
    + intros [w [Hw H]]. injection Hw as ->. exact H.
  - simpl. split; [discriminate|]. intros [w [Hw _]]. discriminate Hw.
Qed.

(** X3.  The decoder of [schema.go] returns no error exactly when its
    input is valid JSON for [null] or for an object in which every
    member that designates a tagged field, [type] and [properties]
    among them, has a value of that field's kind. *)
Theorem UnmarshalJSON_V1_accepts (s : SchemaV1.Schema) (data : string) :
  snd (SchemaV1.UnmarshalJSON s data) = None <->
  exists v, parse data = Some v /\ decodes_V1 v = true.
Proof.
  unfold SchemaV1.UnmarshalJSON, Unmarshal.
  destruct (parse data) as [v|].
  - rewrite <- no_error_true, (decodes_error_size_V1 (json_size v) v (Nat.le_refl _) s).
    split.
    + intros H. exists v. split; [reflexivity|exact H].
    + intros [w [Hw H]]. injection Hw as ->. exact H.
  - simpl. split; [discriminate|]. intros [w [Hw _]]. discriminate Hw.
Qed.

(** ** What becomes of the receiver *)

(** X4.  Decoding a JSON object overwrites the receiver: when it
    succeeds, the node is the one any other receiver would hold, so no
    field of the old value survives.  This holds for both decoders. *)
Theorem object_decoding_resets_receiver (data : string) (ms : list (string * json)) :
  parse data = Some (JObject ms) ->
  (forall s s' r, UnmarshalJSON s data = (r, None) -> UnmarshalJSON s' data = (r, None)) /\
  (forall s s' r, SchemaV1.UnmarshalJSON s data = (r, None) ->
                  SchemaV1.UnmarshalJSON s' data = (r, None)).
Proof.
  intros Hp. split; intros s s' r.
  - unfold UnmarshalJSON, Unmarshal. rewrite Hp, !unmarshalJSON_object.
    destruct (unmarshal_fields (alias_field unmarshalJSON) zero ms) as [alias [err|]];
      [discriminate|].
    intros H. exact H.
  - unfold SchemaV1.UnmarshalJSON, Unmarshal. rewrite Hp, !unmarshalJSON_V1_object.
    destruct (unmarshal_fields (SchemaV1.alias_field SchemaV1.unmarshalJSON)
                SchemaV1.zero ms) as [alias [err|]]; [discriminate|].
    intros H. exact H.
Qed.

Lemma object_decoding_resets_receiver_witness :
  UnmarshalJSON (set_Title "old" (set_Ref "#/old" zero)) (text "{'title':'new'}")
  = (set_Title "new" zero, None).
Proof.
  apply (proj1 (object_decoding_resets_receiver (text "{'title':'new'}")
                  [("title", JString "new")] ltac:(vm_compute; reflexivity)) zero).
  vm_compute. reflexivity.
Defined.

(** X5.  The bytes [null] are no error for either decoder, and the two
    treat them differently: the decoder of [part_001] keeps every field
    of the receiver and marks it as the boolean schema [false]; the
    decoder of [schema.go] overwrites the receiver with the empty
    schema. *)
Theorem null_document (data : string) :
  parse data = Some JNull ->
  (forall s, UnmarshalJSON s data
             = (set_BooleanValue false (set_IsBooleanSchema true s), None)) /\
  (forall s, SchemaV1.UnmarshalJSON s data = (SchemaV1.zero, None)).
Proof.
  intros Hp. split; intros s.
  - unfold UnmarshalJSON, Unmarshal. rewrite Hp. apply unmarshalJSON_null.
  - unfold SchemaV1.UnmarshalJSON, Unmarshal. rewrite Hp.
    rewrite unmarshalJSON_V1_eq. reflexivity.
Qed.

Lemma null_document_witness :
  UnmarshalJSON (set_Ref "#/a" zero) " null "
  = (set_BooleanValue false (set_IsBooleanSchema true (set_Ref "#/a" zero)), None)
  /\ SchemaV1.UnmarshalJSON (SchemaV1.set_Ref "#/a" SchemaV1.zero) " null "
     = (SchemaV1.zero, None).
Proof.
  split.
  - apply (proj1 (null_document " null " ltac:(vm_compute; reflexivity))).
  - apply (proj2 (null_document " null " ltac:(vm_compute; reflexivity))).
Defined.

(** X6.  A decode of [schema.go] that fails leaves the receiver as it
    was.  A decode of [part_001] that fails leaves it as it was unless
    the document is an object with a [properties] member; with one, the
    receiver can already be overwritten when the error is returned. *)
Theorem failed_decode_and_receiver :
  (forall s data r e, SchemaV1.UnmarshalJSON s data = (r, Some e) -> r = s) /\
  (forall s data r e,
      UnmarshalJSON s data = (r, Some e) ->
      (forall ms, parse data = Some (JObject ms) -> raw_get "properties" ms = None) ->
      r = s) /\
  (exists s data r e, UnmarshalJSON s data = (r, Some e) /\ r <> s).
Proof.
  split; [|split].
  - intros s data r e. unfold SchemaV1.UnmarshalJSON, Unmarshal.
    destruct (parse data) as [v|]; [|congruence].
    destruct v as [|b|lit|str|l|ms]; try (rewrite unmarshalJSON_V1_eq; unfold SchemaV1.unmarshal_body; simpl; congruence).
    rewrite unmarshalJSON_V1_object.
    destruct (unmarshal_fields (SchemaV1.alias_field SchemaV1.unmarshalJSON)
                SchemaV1.zero ms) as [alias [err|]]; congruence.
  - intros s data r e. unfold UnmarshalJSON, Unmarshal.
    destruct (parse data) as [v|]; [|congruence].
    destruct v as [|b|lit|str|l|ms]; try (rewrite unmarshalJSON_eq; unfold unmarshal_body; simpl; congruence).
    rewrite unmarshalJSON_object. intros H Hnone.
    rewrite (Hnone ms eq_refl) in H.
    destruct (unmarshal_fields (alias_field unmarshalJSON) zero ms) as [alias [err|]];
      congruence.
  - exists zero, (text "{'$ref':'#/a','properties':5}"),
      (set_Ref "#/a" zero), UnmarshalTypeError.
    split; [vm_compute; reflexivity|discriminate].
Qed.

Lemma failed_decode_and_receiver_witness :
  fst (SchemaV1.UnmarshalJSON (SchemaV1.set_Ref "#/a" SchemaV1.zero) (text "{'$ref':5}"))
  = SchemaV1.set_Ref "#/a" SchemaV1.zero
  /\ fst (UnmarshalJSON (set_Ref "#/a" zero) (text "{'$ref':5}")) = set_Ref "#/a" zero.
Proof.
  split.
  - apply (proj1 failed_decode_and_receiver _ (text "{'$ref':5}") _ UnmarshalTypeError).
    vm_compute. reflexivity.
  - apply (proj1 (proj2 failed_decode_and_receiver) _ (text "{'$ref':5}") _
             UnmarshalTypeError).
    + vm_compute. reflexivity.
    + intros ms Hms. vm_compute in Hms. injection Hms as <-. reflexivity.
Defined.

(** ** The keywords decoded by hand *)

Lemma decoded_object_type (s r : Schema) (ms : list (string * json)) :
  unmarshalJSON s (JObject ms) = (r, None) ->
  exists alias,
    Type_ alias = EmptyString /\ TypeList alias = [] /\
    (Type_ r, TypeList r)
    = match raw_get "type" ms with
      | Some typeRaw =>
          (Type_ (decode_type typeRaw alias), TypeList (decode_type typeRaw alias))
      | None => (Type_ alias, TypeList alias)
      end.
Proof.
  intros H. apply unmarshalJSON_object_ok in H.
  destruct H as (alias & s1 & s2 & Ha & Hs1 & Hs2 & Hr).
  pose proof (alias_untagged unmarshalJSON ms) as Hu. rewrite Ha in Hu.
  unfold untagged in Hu. simpl in Hu.
  exists alias. split; [congruence|]. split; [congruence|].
  assert (H2 : (Type_ s2, TypeList s2) = (Type_ s1, TypeList s1)).
  { destruct (raw_get "properties" ms) as [p|].
    - pose proof (decode_properties_keeps unmarshalJSON p s1) as K.
      rewrite Hs2 in K. simpl in K. congruence.
    - congruence. }
  assert (H3 : (Type_ r, TypeList r) = (Type_ s1, TypeList s1)).
  { rewrite <- H2. subst r.
    destruct (raw_get "additionalProperties" ms) as [a|]; [|reflexivity].
    pose proof (decode_additional_keeps unmarshalJSON a s2) as K. simpl in K. congruence. }
  rewrite H3, Hs1. destruct (raw_get "type" ms); reflexivity.
Qed.

Lemma decoded_object_additional (s r : Schema) (ms : list (string * json)) :
  unmarshalJSON s (JObject ms) = (r, None) ->
  exists s2,
    AdditionalProperties s2 = None /\ AdditionalPropertiesSchema s2 = None /\
    r = match raw_get "additionalProperties" ms with
        | Some apRaw => decode_additional unmarshalJSON apRaw s2
        | None => s2
        end.
Proof.
  intros H. apply unmarshalJSON_object_ok in H.
  destruct H as (alias & s1 & s2 & Ha & Hs1 & Hs2 & Hr).
  pose proof (alias_untagged unmarshalJSON ms) as Hu. rewrite Ha in Hu.
  unfold untagged in Hu. simpl in Hu.
  assert (H1 : (AdditionalProperties s1, AdditionalPropertiesSchema s1) = (None, None)).
  { subst s1. destruct (raw_get "type" ms) as [t|]; [|congruence].
    pose proof (decode_type_keeps t alias) as K. simpl in K. congruence. }
  assert (H2 : (AdditionalProperties s2, AdditionalPropertiesSchema s2) = (None, None)).
  { destruct (raw_get "properties" ms) as [p|].
    - pose proof (decode_properties_keeps unmarshalJSON p s1) as K.
      rewrite Hs2 in K. simpl in K. congruence.
    - congruence. }
  exists s2. split; [congruence|]. split; [congruence|exact Hr].
Qed.

Lemma unmarshal_strings_names (l : list json) :
  forallb is_name l = true -> unmarshal_strings [] l = (map type_name l, None).
Proof.
  induction l as [|x l IH]; simpl; [reflexivity|].
  intros H. apply andb_true_iff in H. destruct H as [Hx Hl].
  rewrite (IH Hl). destruct x; try discriminate Hx; reflexivity.
Qed.

(** X7.  When the document has no [type], or a [type] that is neither
    a string nor an array of strings and nulls (a number, an object, an
    array holding a number, [null]), the decoder of [part_001] reports
    no error for it and records nothing: the declared type is empty,
    the type list is empty and [HasType] is false. *)
Theorem unrecorded_type_is_dropped (s r : Schema) (data : string)
  (ms : list (string * json)) :
  parse data = Some (JObject ms) ->
  UnmarshalJSON s data = (r, None) ->
  match raw_get "type" ms with
  | Some typeRaw => recorded_type typeRaw = false
  | None => True
  end ->
  Type_ r = EmptyString /\ TypeList r = [] /\ HasType r = false.
Proof.
  intros Hp. unfold UnmarshalJSON, Unmarshal. rewrite Hp. intros H Ht.
  apply decoded_object_type in H. destruct H as (alias & H1 & H2 & H).
  assert (E : (Type_ r, TypeList r) = (EmptyString, [])).
  { rewrite H. destruct (raw_get "type" ms) as [x|]; [|congruence].
    unfold decode_type.
    destruct x as [|b|lit|str|l|tm]; simpl in Ht |- *; try discriminate Ht;
      try (destruct alias; simpl in *; congruence).
    pose proof (unmarshal_strings_error l []) as K. rewrite Ht in K.
    destruct (unmarshal_strings [] l) as [arr [e|]]; [|discriminate K].
    congruence. }
  injection E as E1 E2. unfold HasType. rewrite E1, E2. repeat split; reflexivity.
Qed.

Lemma unrecorded_type_is_dropped_witness :
  HasType (fst (UnmarshalJSON zero (text "{'type':['string',5],'title':'t'}"))) = false.
Proof.
  apply (unrecorded_type_is_dropped zero _ (text "{'type':['string',5],'title':'t'}")
           [("type", JArray [JString "string"; JNumber "5"]); ("title", JString "t")]).
  - vm_compute. reflexivity.
  - vm_compute. reflexivity.
  - vm_compute. reflexivity.
Defined.

(** X8.  A [type] array of strings and nulls is recorded entry by
    entry, a [null] entry as the empty name; an array of one entry
    also sets the declared type, any other leaves it empty. *)
Theorem type_array_is_recorded (s r : Schema) (data : string)
  (ms : list (string * json)) (l : list json) :
  parse data = Some (JObject ms) ->
  UnmarshalJSON s data = (r, None) ->
  raw_get "type" ms = Some (JArray l) ->
  forallb is_name l = true ->
  TypeList r = map type_name l /\
  Type_ r = match l with
            | [x] => type_name x
            | _ => EmptyString
            end.
Proof.
  intros Hp. unfold UnmarshalJSON, Unmarshal. rewrite Hp. intros H Ht Hl.
  apply decoded_object_type in H. destruct H as (alias & H1 & H2 & H).
  rewrite Ht in H. unfold decode_type in H. simpl in H.
  rewrite (unmarshal_strings_names l Hl) in H.
  destruct l as [|x [|y l]]; simpl in H; injection H as E1 E2; split; simpl; congruence.
Qed.

Lemma type_array_is_recorded_witness :
  TypeList (fst (UnmarshalJSON zero (text "{'type':['string',null]}")))
  = ["string"; EmptyString]
  /\ Type_ (fst (UnmarshalJSON zero (text "{'type':['string',null]}"))) = EmptyString.
Proof.
  apply (type_array_is_recorded zero _ (text "{'type':['string',null]}")
           [("type", JArray [JString "string"; JNull])] [JString "string"; JNull]).
  - vm_compute. reflexivity.
  - vm_compute. reflexivity.
  - vm_compute. reflexivity.
  - vm_compute. reflexivity.
Defined.

(** X9.  An [additionalProperties] that is [null] sets the flag to
    false; one that is not a value the decoder accepts as a schema is
    dropped without an error, flag and schema both staying nil, as when
    the member is absent. *)
Theorem additionalProperties_null_or_undecodable (s r : Schema) (data : string)
  (ms : list (string * json)) :
  parse data = Some (JObject ms) ->
  UnmarshalJSON s data = (r, None) ->
  (raw_get "additionalProperties" ms = Some JNull ->
   AdditionalProperties r = Some false /\ AdditionalPropertiesSchema r = None) /\
  (forall x, raw_get "additionalProperties" ms = Some x -> decodes x = false ->
             AdditionalProperties r = None /\ AdditionalPropertiesSchema r = None) /\
  (raw_get "additionalProperties" ms = None ->
   AdditionalProperties r = None /\ AdditionalPropertiesSchema r = None).
Proof.
  intros Hp. unfold UnmarshalJSON, Unmarshal. rewrite Hp. intros H.
  apply decoded_object_additional in H. destruct H as (s2 & H1 & H2 & Hr).
  split; [|split].
  - intros Ha. rewrite Ha in Hr. subst r. simpl. split; [reflexivity|exact H2].
  - intros x Ha Hx. rewrite Ha in Hr. subst r. unfold decode_additional.
    pose proof (decodes_error_size (json_size x) x (Nat.le_refl _) zero) as K.
    rewrite Hx in K.
    destruct (unmarshal_bool false x) as [b [e|]] eqn:Eb.
    + destruct (unmarshalJSON zero x) as [sv [e'|]]; [split; assumption|discriminate K].
    + destruct x; try discriminate Eb; discriminate Hx.
  - intros Ha. rewrite Ha in Hr. subst r. split; assumption.
Qed.

Lemma additionalProperties_null_or_undecodable_witness :
  AdditionalProperties
    (fst (UnmarshalJSON zero (text "{'additionalProperties':{'$ref':5}}"))) = None
  /\ AdditionalPropertiesSchema
       (fst (UnmarshalJSON zero (text "{'additionalProperties':{'$ref':5}}"))) = None.
Proof.
  apply (proj1 (proj2 (additionalProperties_null_or_undecodable zero _
                         (text "{'additionalProperties':{'$ref':5}}")
                         [("additionalProperties", JObject [("$ref", JNumber "5")])]
                         ltac:(vm_compute; reflexivity) ltac:(vm_compute; reflexivity)))
           (JObject [("$ref", JNumber "5")])).
  - vm_compute. reflexivity.
  - vm_compute. reflexivity.
Defined.

(** ** Maps and lists of nested schemas *)

Lemma map_get_set_same {A : Type} (k : string) (x : A) (m : list (string * A)) :
  map_get k (map_set k x m) = Some x.
Proof.
  induction m as [|[k' y] m IH]; simpl.
  - rewrite String.eqb_refl. reflexivity.
  - destruct (String.eqb k' k) eqn:E; simpl.
    + rewrite String.eqb_refl. reflexivity.
    + rewrite E. exact IH.
Qed.

Lemma map_get_set_other {A : Type} (k k' : string) (x : A) (m : list (string * A)) :
  String.eqb k k' = false -> map_get k' (map_set k x m) = map_get k' m.
Proof.
  intros Hne. induction m as [|[k0 y] m IH]; simpl.
  - rewrite Hne. reflexivity.
  - destruct (String.eqb k0 k) eqn:E; simpl.
    + apply String.eqb_eq in E. subst k0. rewrite Hne. reflexivity.
    + destruct (String.eqb k0 k'); [reflexivity|exact IH].
Qed.

Lemma decode_props_lookup (rec : Schema -> json -> decoded Schema)
  (pm : list (string * json)) :
  forall acc m,
    decode_props rec pm acc = (m, None) ->
    forall name,
      map_get name m
      = match raw_get name pm with
        | Some y => Some (Some (fst (rec zero y)))
        | None => map_get name acc
        end.
Proof.
  induction pm as [|[k y] pm IH]; intros acc m H name; simpl in H |- *.
  - injection H as <-. reflexivity.
  - destruct (has_key k pm) eqn:Ek.
    + rewrite (IH _ _ H name).
      destruct (raw_get name pm) eqn:En; [reflexivity|].
      destruct (String.eqb k name) eqn:E; [|reflexivity].
      apply String.eqb_eq in E. subst k.
      rewrite has_key_raw_get, En in Ek. discriminate Ek.
    + destruct (rec zero y) as [p [err|]] eqn:Ey; [discriminate H|].
      rewrite (IH _ _ H name).
      destruct (raw_get name pm) eqn:En; [reflexivity|].
      destruct (String.eqb k name) eqn:E.
      * apply String.eqb_eq in E. subst k. rewrite ?Ey. apply map_get_set_same.
      * apply map_get_set_other. exact E.
Qed.

Lemma decoded_object_properties (s r : Schema) (ms : list (string * json)) :
  unmarshalJSON s (JObject ms) = (r, None) ->
  exists s1 s2,
    Properties s1 = [] /\
    match raw_get "properties" ms with
    | Some propsRaw => decode_properties unmarshalJSON propsRaw s1
    | None => (s1, None)
    end = (s2, None) /\
    Properties r = Properties s2.
Proof.
  intros H. apply unmarshalJSON_object_ok in H.
  destruct H as (alias & s1 & s2 & Ha & Hs1 & Hs2 & Hr).
  pose proof (alias_untagged unmarshalJSON ms) as Hu. rewrite Ha in Hu.
  unfold untagged in Hu. simpl in Hu.
  exists s1, s2. split; [|split; [exact Hs2|]].
  - subst s1. destruct (raw_get "type" ms) as [t|]; [|congruence].
    pose proof (decode_type_keeps t alias) as K. simpl in K. congruence.
  - subst r. destruct (raw_get "additionalProperties" ms) as [a|]; [|reflexivity].
    pose proof (decode_additional_keeps unmarshalJSON a s2) as K. simpl in K. congruence.
Qed.

(** X10.  After a successful decode the properties map holds one
    entry per member name of the [properties] object, decoded from the
    last member of that name into a new schema; an entry is never a nil
    pointer, a [null] property being decoded by the method itself.
    Without a [properties] object the map has no entry. *)
Theorem properties_lookup (s r : Schema) (data : string) (ms : list (string * json)) :
  parse data = Some (JObject ms) ->
  UnmarshalJSON s data = (r, None) ->
  (forall pm, raw_get "properties" ms = Some (JObject pm) ->
     forall name,
       map_get name (Properties r)
       = match raw_get name pm with
         | Some y => Some (Some (fst (unmarshalJSON zero y)))
         | None => None
         end) /\
  (raw_get "properties" ms = None \/ raw_get "properties" ms = Some JNull ->
   Properties r = []).
Proof.
  intros Hp. unfold UnmarshalJSON, Unmarshal. rewrite Hp. intros H.
  apply decoded_object_properties in H. destruct H as (s1 & s2 & H1 & H2 & Hr).
  rewrite Hr. split.
  - intros pm Hpm name. rewrite Hpm in H2. unfold decode_properties in H2.
    destruct (decode_props unmarshalJSON pm []) as [props e] eqn:E.
    injection H2 as <- ->. simpl.
    destruct s1. simpl.
    exact (decode_props_lookup unmarshalJSON pm [] props E name).
  - intros [Hn|Hn]; rewrite Hn in H2.
    + injection H2 as <-. exact H1.
    + simpl in H2. injection H2 as <-. destruct s1; reflexivity.
Qed.

Lemma properties_lookup_witness :
  map_get "a" (Properties (fst (UnmarshalJSON zero (text "{'properties':{'a':null}}"))))
  = Some (Some (set_BooleanValue false (set_IsBooleanSchema true zero))).
Proof.
  apply (proj1 (properties_lookup zero _ (text "{'properties':{'a':null}}")
                  [("properties", JObject [("a", JNull)])]
                  ltac:(vm_compute; reflexivity) ltac:(vm_compute; reflexivity))
           [("a", JNull)] eq_refl "a").
Defined.

Lemma unmarshal_fields_invariant_In {A : Type} (f : A -> string -> json -> decoded A)
  (I : A -> Prop) (ms : list (string * json)) :
  (forall a k x, In (k, x) ms -> I a -> I (fst (f a k x))) ->
  forall a, I a -> I (fst (unmarshal_fields f a ms)).
Proof.
  induction ms as [|[k x] ms IH]; intros Hstep a Ha; simpl; [exact Ha|].
  pose proof (Hstep a k x (or_introl eq_refl) Ha) as Hx.
  destruct (f a k x) as [a' e]. simpl in Hx.
  specialize (IH (fun a0 k0 x0 Hin => Hstep a0 k0 x0 (or_intror Hin)) a' Hx).
  destruct (unmarshal_fields f a' ms) as [a'' e']. exact IH.
Qed.

Lemma alias_field_keeps_Defs (rec : Schema -> json -> decoded Schema)
  (a : Schema) (k : string) (x : json) :
  lookup_field k <> Some F_Defs -> Defs (fst (alias_field rec a k x)) = Defs a.
Proof.
  unfold alias_field. destruct (lookup_field k) as [[]|]; intros H;
    repeat match goal with
      | |- context [let '(_, _) := ?c in _] => destruct c
      end;
    try reflexivity; contradiction H; reflexivity.
Qed.

Lemma alias_field_keeps_AnyOf (rec : Schema -> json -> decoded Schema)
  (a : Schema) (k : string) (x : json) :
  lookup_field k <> Some F_AnyOf -> AnyOf (fst (alias_field rec a k x)) = AnyOf a.
Proof.
  unfold alias_field. destruct (lookup_field k) as [[]|]; intros H;
    repeat match goal with
      | |- context [let '(_, _) := ?c in _] => destruct c
      end;
    try reflexivity; contradiction H; reflexivity.
Qed.

Lemma unmarshal_fields_cons {A : Type} (f : A -> string -> json -> decoded A)
  (a : A) (k : string) (x : json) (ms : list (string * json)) :
  unmarshal_fields f a ((k, x) :: ms)
  = let '(a', e) := f a k x in
    let '(a'', e') := unmarshal_fields f a' ms in
    (a'', first_error e e').
Proof. reflexivity. Qed.

Lemma alias_only_Defs (rec : Schema -> json -> decoded Schema)
  (ms1 ms2 : list (string * json)) (k : string) (x : json) :
  lookup_field k = Some F_Defs ->
  (forall k' x', In (k', x') (ms1 ++ ms2) -> lookup_field k' <> Some F_Defs) ->
  Defs (fst (unmarshal_fields (alias_field rec) zero (ms1 ++ (k, x) :: ms2)))
  = fst (unmarshal_map zero rec [] x).
Proof.
  intros Hk Hothers. rewrite unmarshal_fields_app.
  pose proof (unmarshal_fields_invariant_In (alias_field rec) (fun a => Defs a = []) ms1
                (fun a k' x' Hin Ha =>
                   eq_trans (alias_field_keeps_Defs rec a k' x'
                               (Hothers k' x' (in_or_app _ _ _ (or_introl Hin)))) Ha)
                zero eq_refl) as H1.
  destruct (unmarshal_fields (alias_field rec) zero ms1) as [a1 e1]. simpl in H1.
  assert (Hk' : alias_field rec a1 k x
                = let '(y, e) := unmarshal_map zero rec (Defs a1) x in (set_Defs y a1, e))
    by (unfold alias_field; rewrite Hk; reflexivity).
  rewrite unmarshal_fields_cons, Hk', H1.
  destruct (unmarshal_map zero rec [] x) as [y e].
  pose proof (unmarshal_fields_invariant_In (alias_field rec) (fun a => Defs a = y) ms2
                (fun a k' x' Hin Ha =>
                   eq_trans (alias_field_keeps_Defs rec a k' x'
                               (Hothers k' x' (in_or_app _ _ _ (or_intror Hin)))) Ha)
                (set_Defs y a1) eq_refl) as H2.
  destruct (unmarshal_fields (alias_field rec) (set_Defs y a1) ms2) as [a2 e2].
  exact H2.
Qed.

Lemma alias_only_AnyOf (rec : Schema -> json -> decoded Schema)
  (ms1 ms2 : list (string * json)) (k : string) (x : json) :
  lookup_field k = Some F_AnyOf ->
  (forall k' x', In (k', x') (ms1 ++ ms2) -> lookup_field k' <> Some F_AnyOf) ->
  AnyOf (fst (unmarshal_fields (alias_field rec) zero (ms1 ++ (k, x) :: ms2)))
  = fst (unmarshal_slice zero rec [] x).
Proof.
  intros Hk Hothers. rewrite unmarshal_fields_app.
  pose proof (unmarshal_fields_invariant_In (alias_field rec) (fun a => AnyOf a = []) ms1
                (fun a k' x' Hin Ha =>
                   eq_trans (alias_field_keeps_AnyOf rec a k' x'
                               (Hothers k' x' (in_or_app _ _ _ (or_introl Hin)))) Ha)
                zero eq_refl) as H1.
  destruct (unmarshal_fields (alias_field rec) zero ms1) as [a1 e1]. simpl in H1.
  assert (Hk' : alias_field rec a1 k x
                = let '(y, e) := unmarshal_slice zero rec (AnyOf a1) x in
                  (set_AnyOf y a1, e))
    by (unfold alias_field; rewrite Hk; reflexivity).
  rewrite unmarshal_fields_cons, Hk', H1.
  destruct (unmarshal_slice zero rec [] x) as [y e].
  pose proof (unmarshal_fields_invariant_In (alias_field rec) (fun a => AnyOf a = y) ms2
                (fun a k' x' Hin Ha =>
                   eq_trans (alias_field_keeps_AnyOf rec a k' x'
                               (Hothers k' x' (in_or_app _ _ _ (or_intror Hin)))) Ha)
                (set_AnyOf y a1) eq_refl) as H2.
  destruct (unmarshal_fields (alias_field rec) (set_AnyOf y a1) ms2) as [a2 e2].
  exact H2.
Qed.

Lemma decoded_object_tagged (s r : Schema) (ms : list (string * json)) :
  unmarshalJSON s (JObject ms) = (r, None) ->
  exists alias,
    unmarshal_fields (alias_field unmarshalJSON) zero ms = (alias, None) /\
    (Defs r, Definitions r, AnyOf r, OneOf r, AllOf r, Items r, Required r)
    = (Defs alias, Definitions alias, AnyOf alias, OneOf alias, AllOf alias,
       Items alias, Required alias).
Proof.
  intros H. apply unmarshalJSON_object_ok in H.
  destruct H as (alias & s1 & s2 & Ha & Hs1 & Hs2 & Hr).
  exists alias. split; [exact Ha|].
  assert (H1 : (Defs s1, Definitions s1, AnyOf s1, OneOf s1, AllOf s1, Items s1,
                Required s1)
               = (Defs alias, Definitions alias, AnyOf alias, OneOf alias, AllOf alias,
                  Items alias, Required alias)).
  { subst s1. destruct (raw_get "type" ms) as [t|]; [|reflexivity].
    unfold decode_type.
    destruct (unmarshal_string EmptyString t) as [strVal [e|]]; [|reflexivity].
    destruct (unmarshal_string_slice [] t) as [arrVal [e'|]]; [reflexivity|].
    destruct arrVal as [|u [|w arrVal]]; reflexivity. }
  assert (H2 : (Defs s2, Definitions s2, AnyOf s2, OneOf s2, AllOf s2, Items s2,
                Required s2)
               = (Defs s1, Definitions s1, AnyOf s1, OneOf s1, AllOf s1, Items s1,
                  Required s1)).
  { destruct (raw_get "properties" ms) as [p|]; [|congruence].
    unfold decode_properties in Hs2.
    destruct p as [| | | | |pm]; try discriminate Hs2.
    - injection Hs2 as <-. reflexivity.
    - destruct (decode_props unmarshalJSON pm []) as [props e].
      injection Hs2 as <- _. reflexivity. }
  rewrite <- H1, <- H2. subst r.
  destruct (raw_get "additionalProperties" ms) as [ap|]; [|reflexivity].
  unfold decode_additional.
  destruct (unmarshal_bool false ap) as [b [e|]]; [|reflexivity].
  destruct (unmarshalJSON zero ap) as [sv [e'|]]; reflexivity.
Qed.

Lemma unmarshal_ptr_fresh (x : json) :
  fst (unmarshal_ptr zero unmarshalJSON None x) = decoded_ptr x.
Proof.
  unfold unmarshal_ptr, decoded_ptr.
  destruct x; try reflexivity; destruct (unmarshalJSON zero _); reflexivity.
Qed.

Lemma unmarshal_entries_lookup (dm : list (string * json)) :
  forall cur name,
    map_get name (fst (unmarshal_entries zero unmarshalJSON cur dm))
    = match raw_get name dm with
      | Some y => Some (decoded_ptr y)
      | None => map_get name cur
      end.
Proof.
  induction dm as [|[k x] dm IH]; intros cur name; simpl; [reflexivity|].
  pose proof (unmarshal_ptr_fresh x) as Hx.
  destruct (unmarshal_ptr zero unmarshalJSON None x) as [y e]. simpl in Hx. subst y.
  specialize (IH (map_set k (decoded_ptr x) cur) name).
  destruct (unmarshal_entries zero unmarshalJSON (map_set k (decoded_ptr x) cur) dm)
    as [m e'].
  simpl in IH |- *. rewrite IH.
  destruct (raw_get name dm); [reflexivity|].
  destruct (String.eqb k name) eqn:E.
  - apply String.eqb_eq in E. subst k. apply map_get_set_same.
  - apply map_get_set_other. exact E.
Qed.

Lemma unmarshal_ptrs_fresh (l : list json) :
  fst (unmarshal_ptrs zero unmarshalJSON [] l) = map decoded_ptr l.
Proof.
  induction l as [|x l IH]; simpl; [reflexivity|].
  pose proof (unmarshal_ptr_fresh x) as Hx.
  destruct (unmarshal_ptr zero unmarshalJSON None x) as [y e]. simpl in Hx. subst y.
  destruct (unmarshal_ptrs zero unmarshalJSON [] l) as [ys e']. simpl in IH |- *.
  rewrite IH. reflexivity.
Qed.

(** X11.  When one member of the document designates [$defs] and
    holds an object, the decoded map has one entry per name in that
    object, taken from the last member of that name: a nil pointer for
    [null], and else a schema decoded from the value into a new node. *)
Theorem defs_lookup (s r : Schema) (data : string) (ms1 ms2 : list (string * json))
  (k : string) (dm : list (string * json)) :
  parse data = Some (JObject (ms1 ++ (k, JObject dm) :: ms2)) ->
  lookup_field k = Some F_Defs ->
  (forall k' x, In (k', x) (ms1 ++ ms2) -> lookup_field k' <> Some F_Defs) ->
  UnmarshalJSON s data = (r, None) ->
  forall name, map_get name (Defs r) = option_map decoded_ptr (raw_get name dm).
Proof.
  intros Hp Hk Hothers. unfold UnmarshalJSON, Unmarshal. rewrite Hp. intros H name.
  apply decoded_object_tagged in H. destruct H as (alias & Ha & Ht).
  injection Ht as -> _ _ _ _ _ _.
  pose proof (alias_only_Defs unmarshalJSON ms1 ms2 k (JObject dm) Hk Hothers) as Hd.
  rewrite Ha in Hd. simpl in Hd. rewrite Hd, unmarshal_entries_lookup.
  destruct (raw_get name dm); reflexivity.
Qed.

Lemma defs_lookup_witness :
  map_get "A" (Defs (fst (UnmarshalJSON zero (text "{'$defs':{'A':null,'B':true}}"))))
  = Some None.
Proof.
  apply (defs_lookup zero _ (text "{'$defs':{'A':null,'B':true}}") [] [] "$defs"
           [("A", JNull); ("B", JBool true)]).
  - vm_compute. reflexivity.
  - vm_compute. reflexivity.
  - intros k' x [].
  - vm_compute. reflexivity.
Defined.

(** X12.  When one member of the document designates [anyOf] and
    holds an array, the decoded variants are the elements of the array
    in their order, a [null] element giving a nil variant; when the
    array is not empty they are what [GetUnionVariants] returns. *)
Theorem anyOf_elements (s r : Schema) (data : string) (ms1 ms2 : list (string * json))
  (k : string) (l : list json) :
  parse data = Some (JObject (ms1 ++ (k, JArray l) :: ms2)) ->
  lookup_field k = Some F_AnyOf ->
  (forall k' x, In (k', x) (ms1 ++ ms2) -> lookup_field k' <> Some F_AnyOf) ->
  UnmarshalJSON s data = (r, None) ->
  AnyOf r = map decoded_ptr l /\
  (l <> [] -> GetUnionVariants r = map decoded_ptr l /\ IsUnion r = true).
Proof.
  intros Hp Hk Hothers. unfold UnmarshalJSON, Unmarshal. rewrite Hp. intros H.
  apply decoded_object_tagged in H. destruct H as (alias & Ha & Ht).
  injection Ht as _ _ Ht _ _ _ _.
  pose proof (alias_only_AnyOf unmarshalJSON ms1 ms2 k (JArray l) Hk Hothers) as Hd.
  rewrite Ha in Hd. simpl in Hd. rewrite unmarshal_ptrs_fresh in Hd.
  assert (E : AnyOf r = map decoded_ptr l) by congruence.
  split; [exact E|].
  intros Hl. unfold GetUnionVariants, IsUnion. rewrite E.
  destruct l as [|x l]; [contradiction Hl; reflexivity|]. split; reflexivity.
Qed.

Lemma anyOf_elements_witness :
  AnyOf (fst (UnmarshalJSON zero (text "{'anyOf':[null,true]}")))
  = [None; Some (set_BooleanValue true (set_IsBooleanSchema true zero))].
Proof.
  apply (proj1 (anyOf_elements zero _ (text "{'anyOf':[null,true]}") [] [] "anyOf"
                  [JNull; JBool true]
                  ltac:(vm_compute; reflexivity) ltac:(vm_compute; reflexivity)
                  ltac:(intros k' x [])
                  ltac:(vm_compute; reflexivity))).
Defined.

(** ** What every decoded schema satisfies *)

Lemma within_child_first (root c m : Schema) :
  child root c -> within c m -> within root m.
Proof.
  intros Hc Hw. induction Hw as [|s c' Hw IH Hc'].
  - exact (within_child root root c (within_root root) Hc).
  - exact (within_child root s c' IH Hc').
Qed.

Lemma within_inv (root m : Schema) :
  within root m -> m = root \/ exists c, child root c /\ within c m.
Proof.
  induction 1 as [|s c Hw IH Hc]; [left; reflexivity|].
  right. destruct IH as [->|[c0 [Hc0 Hw0]]].
  - exists c. split; [exact Hc|apply within_root].
  - exists c0. split; [exact Hc0|]. exact (within_child c0 s c Hw0 Hc).
Qed.

Lemma all_consistent_intro (s : Schema) :
  consistent s -> (forall c, child s c -> all_consistent c) -> all_consistent s.
Proof.
  intros Hs Hc m Hm. apply within_inv in Hm.
  destruct Hm as [->|[c [H1 H2]]]; [exact Hs|exact (Hc c H1 m H2)].
Qed.

Lemma all_consistent_child (s c : Schema) :
  all_consistent s -> child s c -> all_consistent c.
Proof. intros Hs Hc m Hm. apply Hs. exact (within_child_first s c m Hc Hm). Qed.

Lemma zero_has_no_child (c : Schema) : ~ child zero c.
Proof. intros H. inversion H; simpl in *; try contradiction; discriminate. Qed.

Lemma all_consistent_zero : all_consistent zero.
Proof.
  apply all_consistent_intro.
  - split; [|split; [|split]].
    + intros H. contradiction H. reflexivity.
    + exact I.
    + intros name q H. contradiction H.
    + intros H. discriminate H.
  - intros c Hc. destruct (zero_has_no_child c Hc).
Qed.

Lemma map_set_In {B : Type} (k : string) (x : B) (m : list (string * B))
  (k' : string) (o : B) :
  In (k', o) (map_set k x m) -> o = x \/ In (k', o) m.
Proof.
  induction m as [|[k0 y] m IH]; simpl.
  - intros [H|[]]. injection H as _ <-. left. reflexivity.
  - destruct (String.eqb k0 k); simpl.
    + intros [H|H]; [injection H as _ <-; left; reflexivity|right; right; exact H].
    + intros [H|H]; [right; left; exact H|].
      destruct (IH H) as [E|E]; [left; exact E|right; right; exact E].
Qed.

Section Provenance.
Context {A : Type}.
Variable z : A.
Variable dec : A -> json -> decoded A.

Lemma unmarshal_ptr_from (cur : option A) (x : json) (c : A) :
  fst (unmarshal_ptr z dec cur x) = Some c ->
  exists c0, (c0 = z \/ cur = Some c0) /\ c = fst (dec c0 x).
Proof.
  unfold unmarshal_ptr. intros H.
  destruct x; [discriminate H|..];
    (exists (match cur with Some c1 => c1 | None => z end);
     split; [destruct cur; [right|left]; reflexivity|];
     match type of H with
     | context [dec ?a ?b] => destruct (dec a b); injection H as <-; reflexivity
     end).
Qed.

Lemma unmarshal_ptrs_from (l : list json) :
  forall cur c,
    In (Some c) (fst (unmarshal_ptrs z dec cur l)) ->
    exists y c0, In y l /\ (c0 = z \/ In (Some c0) cur) /\ c = fst (dec c0 y).
Proof.
  induction l as [|x l IH]; intros cur c H; simpl in H; [contradiction H|].
  destruct (unmarshal_ptr z dec (match cur with c1 :: _ => c1 | [] => None end) x)
    as [y e] eqn:E.
  specialize (IH (tl cur) c).
  destruct (unmarshal_ptrs z dec (tl cur) l) as [ys e'].
  simpl in H, IH. destruct H as [H|H].
  - subst y. apply (f_equal fst) in E. simpl in E.
    apply unmarshal_ptr_from in E. destruct E as (c0 & Hc0 & ->).
    exists x, c0. split; [left; reflexivity|]. split; [|reflexivity].
    destruct Hc0 as [->|Hc0]; [left; reflexivity|right].
    destruct cur as [|o cur]; [discriminate Hc0|]. subst o. left. reflexivity.
  - destruct (IH H) as (y0 & c0 & Hy & Hc0 & ->).
    exists y0, c0. split; [right; exact Hy|]. split; [|reflexivity].
    destruct Hc0 as [->|Hc0]; [left; reflexivity|right].
    destruct cur as [|o cur]; [contradiction Hc0|right; exact Hc0].
Qed.

Lemma unmarshal_entries_from (ms : list (string * json)) :
  forall cur name c,
    In (name, Some c) (fst (unmarshal_entries z dec cur ms)) ->
    In (name, Some c) cur \/ exists k y, In (k, y) ms /\ c = fst (dec z y).
Proof.
  induction ms as [|[k x] ms IH]; intros cur name c H; simpl in H; [left; exact H|].
  destruct (unmarshal_ptr z dec None x) as [y e] eqn:E.
  specialize (IH (map_set k y cur) name c).
  destruct (unmarshal_entries z dec (map_set k y cur) ms) as [m e'].
  simpl in H, IH. destruct (IH H) as [Hin|(k0 & y0 & Hy & ->)].
  - apply map_set_In in Hin. destruct Hin as [Hy|Hin]; [|left; exact Hin].
    right. exists k, x. split; [left; reflexivity|].
    apply (f_equal fst) in E. simpl in E. rewrite <- Hy in E.
    apply unmarshal_ptr_from in E. destruct E as (c0 & [->|Hc0] & ->);
      [reflexivity|discriminate Hc0].
  - right. exists k0, y0. split; [right; exact Hy|reflexivity].
Qed.
End Provenance.

Ltac a_child :=
  first [ eapply child_defs; eassumption
        | eapply child_definitions; eassumption
        | eapply child_anyOf; eassumption
        | eapply child_oneOf; eassumption
        | eapply child_allOf; eassumption
        | eapply child_properties; eassumption
        | eapply child_additionalProperties; eassumption
        | eapply child_items; eassumption ].

Ltac old_child := left; a_child.

(** Where the children of the alias come from: a child is either one
    the alias had, or the result of decoding a value nested in the
    member into a new schema or into a child the alias had. *)
Lemma alias_field_child (rec : Schema -> json -> decoded Schema)
  (a : Schema) (k : string) (x : json) (c : Schema) :
  child (fst (alias_field rec a k x)) c ->
  child a c \/
  exists y c0, json_size y <= json_size x /\ (c0 = zero \/ child a c0) /\ c = fst (rec c0 y).
Proof.
  unfold alias_field.
  destruct (lookup_field k) as [[]|];
    try match goal with
      | |- context [let '(_, _) := ?p in _] => destruct p as [y e] eqn:E
      end;
    intros Hc; inversion Hc as [name H|name H|H|H|H|name H|H|H]; simpl in H;
    try old_child.
  1, 2: destruct x as [| | | | |ms]; simpl in E;
    try (injection E as <- _; first [contradiction H|old_child]);
    apply (f_equal fst) in E; simpl in E; rewrite <- E in H;
    apply unmarshal_entries_from in H;
    destruct H as [H|(k0 & y0 & Hy & ->)]; [old_child|];
    right; exists y0, zero;
    (split; [apply Nat.lt_le_incl; apply (json_size_member k0 y0 ms Hy)|]);
    split; [left; reflexivity|reflexivity].
  1, 2, 3: destruct x as [| | | |l|]; simpl in E;
    try (injection E as <- _; first [contradiction H|old_child]);
    apply (f_equal fst) in E; simpl in E; rewrite <- E in H;
    apply unmarshal_ptrs_from in H;
    destruct H as (y0 & c0 & Hy & Hc0 & ->);
    right; exists y0, c0;
    (split; [apply Nat.lt_le_incl; apply (json_size_elem y0 l Hy)|]);
    (split; [|reflexivity]);
    (destruct Hc0 as [->|Hc0]; [left; reflexivity|right; a_child]).
  apply (f_equal fst) in E. simpl in E. rewrite H in E.
  apply unmarshal_ptr_from in E. destruct E as (c0 & Hc0 & ->).
  right. exists x, c0. split; [apply Nat.le_refl|]. split; [|reflexivity].
  destruct Hc0 as [->|Hc0]; [left; reflexivity|right; a_child].
Qed.

Lemma decode_type_child (typeRaw : json) (s c : Schema) :
  child (decode_type typeRaw s) c -> child s c.
Proof.
  unfold decode_type.
  destruct (unmarshal_string EmptyString typeRaw) as [strVal [e|]];
    [destruct (unmarshal_string_slice [] typeRaw) as [arrVal [e'|]];
     [|destruct arrVal as [|u [|w arrVal]]]|];
    intros Hc; try exact Hc;
    inversion Hc as [name H|name H|H|H|H|name H|H|H]; simpl in H; a_child.
Qed.

Lemma decode_type_consistent (typeRaw : json) (s : Schema) :
  Type_ s = EmptyString -> TypeList s = [] -> type_consistent (decode_type typeRaw s).
Proof.
  intros H1 H2. unfold decode_type, type_consistent.
  destruct (unmarshal_string EmptyString typeRaw) as [strVal [e|]].
  - destruct (unmarshal_string_slice [] typeRaw) as [arrVal [e'|]].
    + rewrite H2. exact I.
    + destruct arrVal as [|u [|w arrVal]]; simpl; [exact I|reflexivity|exact H1].
  - simpl. rewrite H2. exact I.
Qed.

Lemma decode_props_from (rec : Schema -> json -> decoded Schema)
  (pm : list (string * json)) :
  forall acc name o,
    In (name, o) (fst (decode_props rec pm acc)) ->
    In (name, o) acc \/ exists k y, In (k, y) pm /\ o = Some (fst (rec zero y)).
Proof.
  induction pm as [|[k y] pm IH]; intros acc name o H; simpl in H; [left; exact H|].
  destruct (has_key k pm).
  - destruct (IH acc name o H) as [Hin|(k0 & y0 & Hy & ->)]; [left; exact Hin|].
    right. exists k0, y0. split; [right; exact Hy|reflexivity].
  - destruct (rec zero y) as [p [err|]] eqn:Ey; [left; exact H|].
    destruct (IH _ name o H) as [Hin|(k0 & y0 & Hy & ->)].
    + apply map_set_In in Hin. destruct Hin as [->|Hin]; [|left; exact Hin].
      right. exists k, y. split; [left; reflexivity|]. rewrite Ey. reflexivity.
    + right. exists k0, y0. split; [right; exact Hy|reflexivity].
Qed.

Lemma decode_properties_child (rec : Schema -> json -> decoded Schema)
  (propsRaw : json) (s c : Schema) :
  child (fst (decode_properties rec propsRaw s)) c ->
  child s c \/ exists y, json_size y < json_size propsRaw /\ c = fst (rec zero y).
Proof.
  unfold decode_properties.
  destruct propsRaw as [| | | | |pm]; try (intros Hc; left; exact Hc).
  - intros Hc. inversion Hc as [name H|name H|H|H|H|name H|H|H]; simpl in H;
      first [contradiction H|old_child].
  - destruct (decode_props rec pm []) as [props e] eqn:E.
    intros Hc. inversion Hc as [name H|name H|H|H|H|name H|H|H]; simpl in H;
      try old_child.
    apply (f_equal fst) in E. simpl in E. rewrite <- E in H.
    apply decode_props_from in H. destruct H as [[]|(k0 & y0 & Hy & Ho)].
    injection Ho as ->. right. exists y0.
    split; [exact (json_size_member k0 y0 pm Hy)|reflexivity].
Qed.

Lemma decode_properties_set (rec : Schema -> json -> decoded Schema)
  (propsRaw : json) (s : Schema) :
  properties_set s -> properties_set (fst (decode_properties rec propsRaw s)).
Proof.
  unfold decode_properties, properties_set.
  destruct propsRaw as [| | | | |pm]; try (intros Hs; exact Hs).
  - intros _ name q H. contradiction H.
  - destruct (decode_props rec pm []) as [props e] eqn:E.
    intros _ name q H. simpl in H.
    apply (f_equal fst) in E. simpl in E. rewrite <- E in H.
    apply decode_props_from in H. destruct H as [[]|(k0 & y0 & Hy & ->)]. discriminate.
Qed.

Lemma decode_additional_child (rec : Schema -> json -> decoded Schema)
  (apRaw : json) (s c : Schema) :
  child (decode_additional rec apRaw s) c -> child s c \/ c = fst (rec zero apRaw).
Proof.
  unfold decode_additional.
  destruct (unmarshal_bool false apRaw) as [b [e|]].
  - destruct (rec zero apRaw) as [sv [e'|]]; [intros Hc; left; exact Hc|].
    intros Hc. inversion Hc as [name H|name H|H|H|H|name H|H|H]; simpl in H;
      try old_child.
    injection H as ->. right. reflexivity.
  - intros Hc. inversion Hc as [name H|name H|H|H|H|name H|H|H]; simpl in H; old_child.
Qed.

Lemma decode_additional_consistent (rec : Schema -> json -> decoded Schema)
  (apRaw : json) (s : Schema) :
  AdditionalPropertiesSchema s = None ->
  additional_consistent (decode_additional rec apRaw s).
Proof.
  intros Hs. unfold decode_additional, additional_consistent.
  destruct (unmarshal_bool false apRaw) as [b [e|]].
  - destruct (rec zero apRaw) as [sv [e'|]]; [|reflexivity].
    intros H. contradiction (H Hs).
  - simpl. intros H. contradiction (H Hs).
Qed.

Lemma alias_children (ms : list (string * json)) :
  (forall k x, In (k, x) ms ->
     forall w, json_size w <= json_size x ->
       forall c, all_consistent c -> all_consistent (fst (unmarshalJSON c w))) ->
  forall c, child (fst (unmarshal_fields (alias_field unmarshalJSON) zero ms)) c ->
            all_consistent c.
Proof.
  intros Hsub.
  apply (unmarshal_fields_invariant_In (alias_field unmarshalJSON)
           (fun a => forall c, child a c -> all_consistent c) ms).
  - intros a k x Hin Ha c Hc.
    apply alias_field_child in Hc.
    destruct Hc as [Hc|(y & c0 & Hy & Hc0 & ->)]; [exact (Ha c Hc)|].
    apply (Hsub k x Hin y Hy).
    destruct Hc0 as [->|Hc0]; [exact all_consistent_zero|exact (Ha c0 Hc0)].
  - intros c Hc. destruct (zero_has_no_child c Hc).
Qed.

Lemma decode_consistent_size (n : nat) :
  forall v, json_size v <= n ->
    forall s, all_consistent s -> all_consistent (fst (unmarshalJSON s v)).
Proof.
  induction n as [|n IHn]; intros v Hsize s Hs.
  - destruct v; simpl in Hsize; lia.
  - assert (Hmark : forall b, all_consistent
                                (set_BooleanValue b (set_IsBooleanSchema true s))).
    { intros b. apply all_consistent_intro.
      - destruct (Hs s (within_root s)) as (I1 & I2 & I3 & _).
        split; [exact I1|]. split; [exact I2|]. split; [exact I3|].
        intros _. reflexivity.
      - intros c Hc. apply (all_consistent_child s c Hs).
        inversion Hc as [name H|name H|H|H|H|name H|H|H]; simpl in H; a_child. }
    destruct v as [|b|lit|str|l|ms];
      try (rewrite unmarshalJSON_eq; unfold unmarshal_body; simpl;
           first [exact Hs|apply Hmark]).
    rewrite unmarshalJSON_object.
    assert (Hsub : forall k x, In (k, x) ms ->
              forall w, json_size w <= json_size x ->
                forall c, all_consistent c -> all_consistent (fst (unmarshalJSON c w))).
    { intros k x Hin w Hw c. apply IHn.
      pose proof (json_size_member k x ms Hin). lia. }
    pose proof (alias_children ms Hsub) as Hal.
    pose proof (alias_untagged unmarshalJSON ms) as Hu.
    destruct (unmarshal_fields (alias_field unmarshalJSON) zero ms) as [alias e].
    simpl in Hal. unfold untagged in Hu. simpl in Hu.
    destruct e as [err|]; [exact Hs|].
    injection Hu as U1 U2 U3 U4 U5 U6 U7.
    set (s1 := match raw_get "type" ms with
               | Some typeRaw => decode_type typeRaw alias
               | None => alias
               end).
    assert (C1 : forall c, child s1 c -> all_consistent c).
    { intros c Hc. apply Hal. unfold s1 in Hc.
      destruct (raw_get "type" ms) as [t|]; [exact (decode_type_child t alias c Hc)|exact Hc]. }
    assert (T1 : type_consistent s1).
    { unfold s1. destruct (raw_get "type" ms) as [t|].
      - apply decode_type_consistent; assumption.
      - unfold type_consistent. rewrite U2. exact I. }
    assert (K1 : Properties s1 = [] /\ AdditionalPropertiesSchema s1 = None
                 /\ BooleanValue s1 = false).
    { unfold s1. destruct (raw_get "type" ms) as [t|]; [|repeat split; assumption].
      pose proof (decode_type_keeps t alias) as K. simpl in K. repeat split; congruence. }
    destruct K1 as (P1 & A1 & B1). cbv zeta. fold s1.
    set (p2 := match raw_get "properties" ms with
               | Some propsRaw => decode_properties unmarshalJSON propsRaw s1
               | None => (s1, None)
               end).
    assert (C2 : forall c, child (fst p2) c -> all_consistent c).
    { intros c Hc. unfold p2 in Hc.
      destruct (raw_get "properties" ms) as [p|] eqn:Ep; [|exact (C1 c Hc)].
      apply decode_properties_child in Hc.
      destruct Hc as [Hc|(y & Hy & ->)]; [exact (C1 c Hc)|].
      apply raw_get_In in Ep.
      apply (Hsub _ _ Ep y (Nat.lt_le_incl _ _ Hy)). exact all_consistent_zero. }
    assert (T2 : (Type_ (fst p2), TypeList (fst p2), AdditionalPropertiesSchema (fst p2),
                  BooleanValue (fst p2))
                 = (Type_ s1, TypeList s1, AdditionalPropertiesSchema s1,
                    BooleanValue s1)).
    { unfold p2. destruct (raw_get "properties" ms) as [p|]; [|reflexivity].
      pose proof (decode_properties_keeps unmarshalJSON p s1) as K. simpl in K. congruence. }
    assert (P2 : properties_set (fst p2)).
    { unfold p2. destruct (raw_get "properties" ms) as [p|].
      - apply decode_properties_set. intros name q H. rewrite P1 in H. contradiction H.
      - intros name q H. simpl in H. rewrite P1 in H. contradiction H. }
    injection T2 as T2a T2b T2c T2d.
    assert (Ty2 : type_consistent (fst p2)).
    { unfold type_consistent in T1 |- *. rewrite T2a, T2b. exact T1. }
    assert (H2 : all_consistent (fst p2)).
    { apply all_consistent_intro; [|exact C2].
      split; [|split; [assumption|split; [assumption|]]].
      - intros H. contradiction H. congruence.
      - intros H. congruence. }
    destruct p2 as [s2 e2]. simpl in C2, T2a, T2b, T2c, T2d, P2, Ty2, H2.
    destruct e2 as [err|]; [exact H2|]. simpl.
    destruct (raw_get "additionalProperties" ms) as [ap|] eqn:Ea; [|exact H2].
    pose proof (decode_additional_keeps unmarshalJSON ap s2) as K. simpl in K.
    injection K as K1 K2 K3 _ K5 _ _ _.
    apply all_consistent_intro.
    + split; [|split; [|split]].
      * apply decode_additional_consistent. congruence.
      * unfold type_consistent in Ty2 |- *. rewrite K1, K2. exact Ty2.
      * unfold properties_set in P2 |- *. rewrite K3. exact P2.
      * intros H. congruence.
    + intros c Hc. apply decode_additional_child in Hc.
      destruct Hc as [Hc| ->]; [exact (C2 c Hc)|].
      apply raw_get_In in Ea.
      apply (Hsub _ _ Ea ap (Nat.le_refl _)). exact all_consistent_zero.
Qed.

(** X13.  Decoding keeps every schema of a document consistent: when
    every schema within the receiver has its [additionalProperties]
    flag set to true whenever it holds an [additionalProperties]
    schema, declares the single name of a one-name type list and no
    type beside a longer list, has no nil property, and has a boolean
    value only when it is marked as a boolean schema, then so has
    every schema within the node after the call, whatever the input
    and whether or not an error is returned.  The empty schema, the
    usual receiver, is such a node. *)
Theorem decoding_keeps_schemas_consistent (s : Schema) (data : string) :
  all_consistent s -> all_consistent (fst (UnmarshalJSON s data)).
Proof.
  intros Hs. unfold UnmarshalJSON, Unmarshal.
  destruct (parse data) as [v|]; [|exact Hs].
  exact (decode_consistent_size (json_size v) v (Nat.le_refl _) s Hs).
Qed.

Lemma decoding_keeps_schemas_consistent_witness :
  all_consistent zero
  /\ all_consistent
       (fst (UnmarshalJSON zero
               (text "{'properties':{'a':{'type':['string','null'],'additionalProperties':{}}}}"))).
Proof.
  split; [exact all_consistent_zero|].
  apply (decoding_keeps_schemas_consistent zero). exact all_consistent_zero.
Defined.

(** X14.  A schema decoded from a document never declares a type
    beside a type list of several names: wherever [HasMixedType] holds
    in the decoded document, the declared type is empty, and [HasType]
    holds. *)
Theorem mixed_type_declares_no_type (data : string) (n : Schema) :
  within (fst (UnmarshalJSON zero data)) n ->
  HasMixedType n = true ->
  Type_ n = EmptyString /\ HasType n = true.
Proof.
  intros Hn Hm.
  assert (Hall : all_consistent (fst (UnmarshalJSON zero data))).
  { unfold UnmarshalJSON, Unmarshal.
    destruct (parse data) as [v|]; [|exact all_consistent_zero].
    exact (decode_consistent_size (json_size v) v (Nat.le_refl _) zero
             all_consistent_zero). }
  destruct (Hall n Hn) as (_ & Ht & _).
  unfold HasMixedType in Hm. unfold HasType, type_consistent in *.
  destruct (TypeList n) as [|t [|u l]]; try discriminate Hm.
  split; [exact Ht|]. apply orb_true_r.
Qed.

Lemma mixed_type_declares_no_type_witness :
  Type_ (fst (UnmarshalJSON zero (text "{'type':['string','null']}"))) = EmptyString
  /\ HasType (fst (UnmarshalJSON zero (text "{'type':['string','null']}"))) = true.
Proof.
  apply (mixed_type_declares_no_type (text "{'type':['string','null']}")).
  - apply within_root.
  - vm_compute. reflexivity.
Defined.

(** X15.  [IsUnion] holds exactly when [GetUnionVariants] returns a
    variant, in both copies of the schema type. *)
Theorem IsUnion_iff_variants :
  (forall s : Schema, IsUnion s = true <-> GetUnionVariants s <> []) /\
  (forall s : SchemaV1.Schema,
      SchemaV1.IsUnion s = true <-> SchemaV1.GetUnionVariants s <> []).
Proof.
  split; intros s.
  - unfold IsUnion, GetUnionVariants.
    destruct (AnyOf s) as [|a l]; destruct (OneOf s) as [|b l']; simpl;
      split; intros H; try reflexivity; try discriminate; try (contradiction H; reflexivity).
  - unfold SchemaV1.IsUnion, SchemaV1.GetUnionVariants.
    destruct (SchemaV1.AnyOf s) as [|a l]; destruct (SchemaV1.OneOf s) as [|b l']; simpl;
      split; intros H; try reflexivity; try discriminate; try (contradiction H; reflexivity).
Qed.

(** ** The property map of [schema.go] *)

Lemma alias_field_keeps_Properties_V1
  (rec : SchemaV1.Schema -> json -> decoded SchemaV1.Schema)
  (a : SchemaV1.Schema) (k : string) (x : json) :
  SchemaV1.lookup_field k <> Some SchemaV1.F_Properties ->
  SchemaV1.Properties (fst (SchemaV1.alias_field rec a k x)) = SchemaV1.Properties a.
Proof.
  unfold SchemaV1.alias_field. destruct (SchemaV1.lookup_field k) as [[]|]; intros H;
    repeat match goal with
      | |- context [let '(_, _) := ?c in _] => destruct c
      end;
    try reflexivity; contradiction H; reflexivity.
Qed.

Lemma alias_only_Properties_V1
  (rec : SchemaV1.Schema -> json -> decoded SchemaV1.Schema)
  (ms1 ms2 : list (string * json)) (k : string) (x : json) :
  SchemaV1.lookup_field k = Some SchemaV1.F_Properties ->
  (forall k' x', In (k', x') (ms1 ++ ms2) ->
                 SchemaV1.lookup_field k' <> Some SchemaV1.F_Properties) ->
  SchemaV1.Properties
    (fst (unmarshal_fields (SchemaV1.alias_field rec) SchemaV1.zero
            (ms1 ++ (k, x) :: ms2)))
  = fst (unmarshal_map SchemaV1.zero rec [] x).
Proof.
  intros Hk Hothers. rewrite unmarshal_fields_app.
  pose proof (unmarshal_fields_invariant_In (SchemaV1.alias_field rec)
                (fun a => SchemaV1.Properties a = []) ms1
                (fun a k' x' Hin Ha =>
                   eq_trans (alias_field_keeps_Properties_V1 rec a k' x'
                               (Hothers k' x' (in_or_app _ _ _ (or_introl Hin)))) Ha)
                SchemaV1.zero eq_refl) as H1.
  destruct (unmarshal_fields (SchemaV1.alias_field rec) SchemaV1.zero ms1) as [a1 e1].
  simpl in H1.
  assert (Hk' : SchemaV1.alias_field rec a1 k x
                = let '(y, e) := unmarshal_map SchemaV1.zero rec (SchemaV1.Properties a1) x in
                  (SchemaV1.set_Properties y a1, e))
    by (unfold SchemaV1.alias_field; rewrite Hk; reflexivity).
  rewrite unmarshal_fields_cons, Hk', H1.
  destruct (unmarshal_map SchemaV1.zero rec [] x) as [y e].
  pose proof (unmarshal_fields_invariant_In (SchemaV1.alias_field rec)
                (fun a => SchemaV1.Properties a = y) ms2
                (fun a k' x' Hin Ha =>
                   eq_trans (alias_field_keeps_Properties_V1 rec a k' x'
                               (Hothers k' x' (in_or_app _ _ _ (or_intror Hin)))) Ha)
                (SchemaV1.set_Properties y a1) eq_refl) as H2.
  destruct (unmarshal_fields (SchemaV1.alias_field rec) (SchemaV1.set_Properties y a1) ms2)
    as [a2 e2].
  exact H2.
Qed.

Lemma unmarshal_ptr_fresh_V1 (x : json) :
  fst (unmarshal_ptr SchemaV1.zero SchemaV1.unmarshalJSON None x) = decoded_ptr_V1 x.
Proof.
  unfold unmarshal_ptr, decoded_ptr_V1.
  destruct x; try reflexivity; destruct (SchemaV1.unmarshalJSON SchemaV1.zero _);
    reflexivity.
Qed.

Lemma unmarshal_entries_lookup_V1 (dm : list (string * json)) :
  forall cur name,
    map_get name (fst (unmarshal_entries SchemaV1.zero SchemaV1.unmarshalJSON cur dm))
    = match raw_get name dm with
      | Some y => Some (decoded_ptr_V1 y)
      | None => map_get name cur
      end.
Proof.
  induction dm as [|[k x] dm IH]; intros cur name; simpl; [reflexivity|].
  pose proof (unmarshal_ptr_fresh_V1 x) as Hx.
  destruct (unmarshal_ptr SchemaV1.zero SchemaV1.unmarshalJSON None x) as [y e].
  simpl in Hx. subst y.
  specialize (IH (map_set k (decoded_ptr_V1 x) cur) name).
  destruct (unmarshal_entries SchemaV1.zero SchemaV1.unmarshalJSON
              (map_set k (decoded_ptr_V1 x) cur) dm) as [m e'].
  simpl in IH |- *. rewrite IH.
  destruct (raw_get name dm); [reflexivity|].
  destruct (String.eqb k name) eqn:E.
  - apply String.eqb_eq in E. subst k. apply map_get_set_same.
  - apply map_get_set_other. exact E.
Qed.

(** X16.  In [schema.go] the property map is decoded by the library:
    when one member of the document designates [properties] (its name
    is matched without regard to letter case) and holds an object, the
    map has one entry per name, taken from the last member of that
    name, and the entry of a [null] property is a nil pointer. *)
Theorem properties_lookup_V1 (s r : SchemaV1.Schema) (data : string)
  (ms1 ms2 : list (string * json)) (k : string) (pm : list (string * json)) :
  parse data = Some (JObject (ms1 ++ (k, JObject pm) :: ms2)) ->
  SchemaV1.lookup_field k = Some SchemaV1.F_Properties ->
  (forall k' x, In (k', x) (ms1 ++ ms2) ->
                SchemaV1.lookup_field k' <> Some SchemaV1.F_Properties) ->
  SchemaV1.UnmarshalJSON s data = (r, None) ->
  forall name,
    map_get name (SchemaV1.Properties r) = option_map decoded_ptr_V1 (raw_get name pm).
Proof.
  intros Hp Hk Hothers. unfold SchemaV1.UnmarshalJSON, Unmarshal. rewrite Hp.
  rewrite unmarshalJSON_V1_object. intros H name.
  pose proof (alias_only_Properties_V1 SchemaV1.unmarshalJSON ms1 ms2 k (JObject pm)
                Hk Hothers) as Hd.
  destruct (unmarshal_fields (SchemaV1.alias_field SchemaV1.unmarshalJSON)
              SchemaV1.zero (ms1 ++ (k, JObject pm) :: ms2)) as [alias [err|]];
    [discriminate H|].
  injection H as <-. simpl in Hd.
  assert (E : SchemaV1.Properties
                match raw_get "additionalProperties" (ms1 ++ (k, JObject pm) :: ms2) with
                | Some apRaw =>
                    SchemaV1.decode_additional SchemaV1.unmarshalJSON apRaw alias
                | None => alias
                end = SchemaV1.Properties alias).
  { destruct (raw_get "additionalProperties" (ms1 ++ (k, JObject pm) :: ms2)) as [ap|];
      [|reflexivity].
    unfold SchemaV1.decode_additional.
    destruct (unmarshal_bool false ap) as [b [e|]]; [|reflexivity].
    destruct (SchemaV1.unmarshalJSON SchemaV1.zero ap) as [sv [e'|]]; reflexivity. }
  rewrite E, Hd, unmarshal_entries_lookup_V1.
  destruct (raw_get name pm); reflexivity.
Qed.

Lemma properties_lookup_V1_witness :
  map_get "a"
    (SchemaV1.Properties
       (fst (SchemaV1.UnmarshalJSON SchemaV1.zero (text "{'Properties':{'a':null}}"))))
  = Some None.
Proof.
  apply (properties_lookup_V1 SchemaV1.zero _ (text "{'Properties':{'a':null}}") [] []
           "Properties" [("a", JNull)]).
  - vm_compute. reflexivity.
  - vm_compute. reflexivity.
  - intros k' x [].
  - vm_compute. reflexivity.
Defined.

(** * Properties of the module lookup *)

Lemma Split_not_nil (s : string) (sep : ascii) : Split s sep <> [].
Proof.
  destruct s as [|c s]; simpl; [discriminate|].
  destruct (Ascii.eqb c sep); [discriminate|].
  destruct (Split s sep); discriminate.
Qed.

Lemma Join_cons (l : string) (ls : list string) (sep : string) :
  ls <> [] -> Join (l :: ls) sep = (l ++ sep ++ Join ls sep)%string.
Proof. destruct ls; [intros H; contradiction H; reflexivity|reflexivity]. Qed.

Lemma Join_Split (s : string) (sep : ascii) :
  Join (Split s sep) (String sep EmptyString) = s.
Proof.
  induction s as [|c s IH]; [reflexivity|]. simpl Split.
  destruct (Ascii.eqb c sep) eqn:E.
  - apply Ascii.eqb_eq in E. subst c.
    rewrite (Join_cons _ _ _ (Split_not_nil s sep)), IH. reflexivity.
  - destruct (Split s sep) as [|l ls] eqn:El; [destruct (Split_not_nil s sep El)|].
    rewrite <- IH. destruct ls; reflexivity.
Qed.

Lemma Split_app (a b : string) (sep : ascii) :
  Split (a ++ String sep b) sep
  = (removelast (Split a sep)
       ++ [last (Split a sep) EmptyString] ++ Split b sep)%list.
Proof.
  induction a as [|c a IH]; simpl.
  - rewrite Ascii.eqb_refl. reflexivity.
  - destruct (Ascii.eqb c sep).
    + rewrite IH.
      destruct (Split a sep) as [|l ls] eqn:El; [destruct (Split_not_nil a sep El)|].
      reflexivity.
    + rewrite IH.
      destruct (Split a sep) as [|l ls] eqn:El; [destruct (Split_not_nil a sep El)|].
      destruct ls; reflexivity.
Qed.

Lemma Split_lines (a b : string) (sep : ascii) :
  Split (a ++ String sep b) sep = (Split a sep ++ Split b sep)%list.
Proof.
  rewrite Split_app, app_assoc.
  rewrite <- (app_removelast_last EmptyString (Split_not_nil a sep)). reflexivity.
Qed.

Lemma Split_one_line (s : string) : one_line s = true -> Split s "010" = [s].
Proof.
  induction s as [|c s IH]; simpl; [reflexivity|].
  intros H. apply andb_true_iff in H. destruct H as [Hc Hs].
  apply negb_true_iff in Hc. rewrite Hc, (IH Hs). reflexivity.
Qed.

Lemma TrimLeftSpace_eq (s : string) :
  TrimLeftSpace s = match space_rune s with
                    | Some r => TrimLeftSpace r
                    | None => s
                    end.
Proof.
  destruct s as [|c [|d [|e s]]]; simpl; try reflexivity.
  - destruct (ascii_space c); reflexivity.
  - destruct (ascii_space c); [reflexivity|]. destruct (space2 c d); reflexivity.
  - destruct (ascii_space c); [reflexivity|]. destruct (space2 c d); [reflexivity|].
    destruct (space3 c d e); reflexivity.
Qed.

Lemma all_space_eq (s : string) :
  all_space s = match s with
                | EmptyString => true
                | _ => match space_rune s with
                       | Some r => all_space r
                       | None => false
                       end
                end.
Proof.
  destruct s as [|c [|d [|e s]]]; simpl; try reflexivity.
  - destruct (ascii_space c); reflexivity.
  - destruct (ascii_space c); [reflexivity|]. destruct (space2 c d); reflexivity.
  - destruct (ascii_space c); [reflexivity|]. destruct (space2 c d); [reflexivity|].
    destruct (space3 c d e); reflexivity.
Qed.

Lemma space_rune_length (s r : string) :
  space_rune s = Some r -> String.length r < String.length s.
Proof.
  unfold space_rune. destruct s as [|c [|d [|e s]]]; simpl; try discriminate.
  - destruct (ascii_space c); [|discriminate]. intros H. injection H as <-. simpl. lia.
  - destruct (ascii_space c); [intros H; injection H as <-; simpl; lia|].
    destruct (space2 c d); [|discriminate]. intros H. injection H as <-. simpl. lia.
  - destruct (ascii_space c); [intros H; injection H as <-; simpl; lia|].
    destruct (space2 c d); [intros H; injection H as <-; simpl; lia|].
    destruct (space3 c d e); [|discriminate]. intros H. injection H as <-. lia.
Qed.

Lemma space_rune_app (a r b : string) :
  space_rune a = Some r -> space_rune (a ++ b) = Some (r ++ b)%string.
Proof.
  unfold space_rune. destruct a as [|c [|d [|e a]]]; simpl; try discriminate.
  - destruct (ascii_space c); [|discriminate]. intros H. injection H as <-. reflexivity.
  - destruct (ascii_space c); [intros H; injection H as <-; reflexivity|].
    destruct (space2 c d); [|discriminate]. intros H. injection H as <-. reflexivity.
  - destruct (ascii_space c); [intros H; injection H as <-; reflexivity|].
    destruct (space2 c d); [intros H; injection H as <-; reflexivity|].
    destruct (space3 c d e); [|discriminate]. intros H. injection H as <-. reflexivity.
Qed.

Lemma all_space_TrimLeft_length (n : nat) :
  forall s, String.length s <= n -> all_space (TrimLeftSpace s) = all_space s.
Proof.
  induction n as [|n IH]; intros s Hn.
  - destruct s; [reflexivity|simpl in Hn; lia].
  - rewrite TrimLeftSpace_eq, (all_space_eq s).
    destruct (space_rune s) as [r|] eqn:E.
    + pose proof (space_rune_length s r E) as Hr.
      rewrite (IH r ltac:(lia)). destruct s; [discriminate E|reflexivity].
    + rewrite (all_space_eq s), E. reflexivity.
Qed.

Lemma all_space_TrimLeft (s : string) : all_space (TrimLeftSpace s) = all_space s.
Proof. exact (all_space_TrimLeft_length (String.length s) s (Nat.le_refl _)). Qed.

Lemma all_space_app_length (n : nat) :
  forall a b, String.length a <= n -> all_space a = true ->
    all_space (a ++ b) = all_space b.
Proof.
  induction n as [|n IH]; intros a b Hn Ha.
  - destruct a; [reflexivity|simpl in Hn; lia].
  - destruct a as [|c a]; [reflexivity|].
    rewrite all_space_eq in Ha.
    destruct (space_rune (String c a)) as [r|] eqn:E; [|discriminate Ha].
    pose proof (space_rune_length _ r E) as Hr.
    rewrite (all_space_eq (String c a ++ b)), (space_rune_app _ r b E).
    simpl append. apply IH; [lia|exact Ha].
Qed.

Lemma all_space_app (a b : string) :
  all_space a = true -> all_space (a ++ b) = all_space b.
Proof. exact (all_space_app_length (String.length a) a b (Nat.le_refl _)). Qed.

Lemma TrimRightSpace_split (s : string) :
  exists w, s = (TrimRightSpace s ++ w)%string /\ all_space w = true.
Proof.
  induction s as [|c s IH]; [exists EmptyString; split; reflexivity|].
  unfold TrimRightSpace; fold TrimRightSpace.
  destruct (all_space (String c s)) eqn:E.
  - exists (String c s). split; [reflexivity|exact E].
  - destruct IH as (w & Hw & Hs). exists w. split; [|exact Hs].
    simpl. rewrite <- Hw. reflexivity.
Qed.

Lemma TrimRightSpace_empty (s : string) :
  TrimRightSpace s = EmptyString <-> all_space s = true.
Proof.
  destruct s as [|c s]; [split; reflexivity|].
  unfold TrimRightSpace; fold TrimRightSpace.
  destruct (all_space (String c s)); split; intros H; try reflexivity; discriminate H.
Qed.

Lemma TrimRightSpace_idem (s : string) :
  TrimRightSpace (TrimRightSpace s) = TrimRightSpace s.
Proof.
  induction s as [|c s IH]; [reflexivity|].
  unfold TrimRightSpace at 2 3; fold TrimRightSpace.
  destruct (all_space (String c s)) eqn:E; [reflexivity|].
  unfold TrimRightSpace at 1; fold TrimRightSpace. rewrite IH.
  destruct (all_space (String c (TrimRightSpace s))) eqn:E'; [|reflexivity].
  destruct (TrimRightSpace_split s) as (w & Hw & Hs).
  pose proof (all_space_app (String c (TrimRightSpace s)) w E') as K.
  simpl append in K. rewrite <- Hw, Hs in K. congruence.
Qed.

Lemma TrimSpace_empty (s : string) : TrimSpace s = EmptyString <-> all_space s = true.
Proof. unfold TrimSpace. rewrite TrimRightSpace_empty. now rewrite all_space_TrimLeft. Qed.

Lemma HasPrefix_drop (s p : string) :
  HasPrefix s p = true -> s = (p ++ drop (String.length p) s)%string.
Proof.
  revert s. induction p as [|b p IH]; intros s H; [destruct s; reflexivity|].
  destruct s as [|a s]; [discriminate H|]. simpl in H.
  apply andb_true_iff in H. destruct H as [Hab Hp].
  apply Ascii.eqb_eq in Hab. subst b. simpl. f_equal. exact (IH s Hp).
Qed.

(** A trimmed line that begins with [module ] names a module. *)
Lemma module_line_names (t : string) :
  TrimRightSpace t = t ->
  HasPrefix t "module " = true ->
  TrimSpace (TrimPrefix t "module ") <> EmptyString.
Proof.
  intros Ht Hp HE. unfold TrimPrefix in HE. rewrite Hp in HE.
  apply TrimSpace_empty in HE.
  apply HasPrefix_drop in Hp. set (rest := drop (String.length "module ") t) in *.
  rewrite Hp in Ht.
  assert (K : TrimRightSpace ("module " ++ rest) = "module").
  { simpl append. unfold TrimRightSpace; fold TrimRightSpace.
    destruct rest as [|e [|e' rest]]; simpl in HE |- *; try rewrite HE; reflexivity. }
  rewrite K in Ht. simpl in Ht. discriminate Ht.
Qed.

Lemma TrimSpace_trimmed (l : string) : TrimRightSpace (TrimSpace l) = TrimSpace l.
Proof. unfold TrimSpace. apply TrimRightSpace_idem. Qed.

Lemma module_line_cons (l : string) (ls : list string) :
  module_line (l :: ls)
  = if HasPrefix (TrimSpace l) "module "
    then TrimSpace (TrimPrefix (TrimSpace l) "module ")
    else module_line ls.
Proof. reflexivity. Qed.

Lemma module_line_empty (lines : list string) :
  module_line lines = EmptyString <->
  forallb (fun l => negb (declares_module l)) lines = true.
Proof.
  induction lines as [|l lines IH]; [split; reflexivity|].
  rewrite module_line_cons. cbn [forallb]. unfold declares_module at 1.
  destruct (HasPrefix (TrimSpace l) "module ") eqn:E; cbn [negb andb]; [|exact IH].
  split; [|discriminate].
  intros H. destruct (module_line_names (TrimSpace l) (TrimSpace_trimmed l) E H).
Qed.

Lemma module_line_app (la lb : list string) :
  module_line (la ++ lb)
  = if String.eqb (module_line la) EmptyString then module_line lb else module_line la.
Proof.
  induction la as [|l la IH]; [reflexivity|].
  cbn [app]. rewrite !module_line_cons.
  destruct (HasPrefix (TrimSpace l) "module ") eqn:E; [|exact IH].
  destruct (String.eqb (TrimSpace (TrimPrefix (TrimSpace l) "module ")) EmptyString) eqn:En;
    [|reflexivity].
  apply String.eqb_eq in En.
  destruct (module_line_names (TrimSpace l) (TrimSpace_trimmed l) E En).
Qed.

(** X17.  [parseModuleName] returns the empty name exactly when no
    line of the content, once trimmed, begins with [module ]: a line
    that does always names a module, so the empty result that
    [findModule] tests for means that the file declares none. *)
Theorem parseModuleName_empty (content : string) :
  parseModuleName content = EmptyString <->
  forallb (fun l => negb (declares_module l)) (Split content "010") = true.
Proof. unfold parseModuleName. apply module_line_empty. Qed.

(** X18.  The first line that declares a module decides: for a content
    made of two parts separated by a line feed, the result is that of
    the first part when the first part declares a module, and that of
    the second part otherwise. *)
Theorem parseModuleName_first_wins (pre rest : string) :
  parseModuleName (pre ++ String "010" rest)
  = if String.eqb (parseModuleName pre) EmptyString then parseModuleName rest
    else parseModuleName pre.
Proof. unfold parseModuleName. rewrite Split_lines. apply module_line_app. Qed.

Lemma TrimRightSpace_cons (c : ascii) (s : string) :
  all_space (String c s) = false ->
  TrimRightSpace (String c s) = String c (TrimRightSpace s).
Proof. intros H. unfold TrimRightSpace; fold TrimRightSpace. rewrite H. reflexivity. Qed.

Lemma module_declaration (name : string) :
  name <> EmptyString -> TrimSpace name = name ->
  TrimSpace ("module " ++ name) = ("module " ++ name)%string.
Proof.
  intros Hne Ht.
  assert (Hr : TrimRightSpace name = name).
  { rewrite <- Ht. apply TrimSpace_trimmed. }
  assert (Hs : all_space name = false).
  { destruct (all_space name) eqn:E; [|reflexivity].
    apply TrimSpace_empty in E. congruence. }
  unfold TrimSpace. simpl append.
  replace (TrimLeftSpace (String "m" (String "o" (String "d" (String "u"
             (String "l" (String "e" (String " " name))))))))
    with (String "m" (String "o" (String "d" (String "u"
             (String "l" (String "e" (String " " name))))))) by reflexivity.
  rewrite !TrimRightSpace_cons, Hr; try reflexivity.
  - exact Hs.
  - destruct name; reflexivity.
Qed.

(** X19.  A file whose first declaring line is [module ] followed by a
    name gives that name back, for a name that is not empty, holds no
    line feed and has no white space at either end; the lines before
    it may be anything that declares no module. *)
Theorem parseModuleName_round_trip (name rest : string) :
  name <> EmptyString -> TrimSpace name = name -> one_line name = true ->
  parseModuleName ("module " ++ name ++ String "010" rest) = name /\
  (forall pre, parseModuleName pre = EmptyString ->
     parseModuleName (pre ++ String "010" ("module " ++ name ++ String "010" rest))
     = name).
Proof.
  intros Hne Ht Hl.
  assert (H1 : parseModuleName ("module " ++ name ++ String "010" rest) = name).
  { unfold parseModuleName.
    pose proof (module_declaration name Hne Ht) as Hd.
    assert (Hl' : one_line ("module " ++ name) = true) by exact Hl.
    assert (Hp : HasPrefix ("module " ++ name) "module " = true) by reflexivity.
    assert (Hn : TrimPrefix ("module " ++ name) "module " = name) by reflexivity.
    replace ("module " ++ name ++ String "010" rest)%string
      with (("module " ++ name) ++ String "010" rest)%string by reflexivity.
    set (decl := ("module " ++ name)%string) in *.
    rewrite Split_lines, (Split_one_line decl Hl').
    simpl app. rewrite module_line_cons, Hd, Hp, Hn. exact Ht. }
  split; [exact H1|].
  intros pre Hpre. unfold parseModuleName in *.
  rewrite Split_lines, module_line_app, Hpre. exact H1.
Qed.

Lemma parseModuleName_round_trip_witness :
  parseModuleName
    ("// generated" ++ String "010"
       ("module github.com/grokify/schemago" ++ String "010" "go 1.21"))
  = "github.com/grokify/schemago".
Proof.
  apply (proj2 (parseModuleName_round_trip "github.com/grokify/schemago" "go 1.21"
                  ltac:(discriminate) ltac:(vm_compute; reflexivity)
                  ltac:(vm_compute; reflexivity)) "// generated").
  vm_compute. reflexivity.
Defined.

Lemma find_local_names (os : System) (parts : list string) (i : nat)
  (root name : string) :
  find_local os parts i = Some (root, name) -> name <> EmptyString.
Proof.
  induction i as [|j IH]; [discriminate|]. cbn [find_local].
  destruct (Stat os _); [|exact IH].
  destruct (ReadFile os _) as [content|]; [|exact IH].
  destruct (String.eqb (parseModuleName content) EmptyString) eqn:E; [exact IH|].
  cbn [negb]. intros H. injection H as _ <-.
  apply String.eqb_neq. exact E.
Qed.

Lemma find_local_none (os : System) (parts : list string) (i : nat) :
  (forall path content,
      Stat os path = true -> ReadFile os path = Some content ->
      parseModuleName content = EmptyString) ->
  find_local os parts i = None.
Proof.
  intros H. induction i as [|j IH]; [reflexivity|]. cbn [find_local].
  destruct (Stat os _) eqn:Es; [|exact IH].
  destruct (ReadFile os _) as [content|] eqn:Er; [|exact IH].
  rewrite (H _ _ Es Er). exact IH.
Qed.

Lemma append_assoc (a b c : string) : ((a ++ b) ++ c = a ++ (b ++ c))%string.
Proof. induction a as [|x a IH]; simpl; [reflexivity|]. now rewrite IH. Qed.

Lemma append_empty (a : string) : (a ++ EmptyString)%string = a.
Proof. induction a as [|x a IH]; simpl; [reflexivity|]. now rewrite IH. Qed.

Lemma Join_first_three (a b c : string) (tl : list string) (sep : string) :
  Join (a :: b :: c :: tl) sep
  = (Join [a; b; c] sep ++ match tl with
                           | [] => EmptyString
                           | _ => sep ++ Join tl sep
                           end)%string.
Proof.
  destruct tl as [|d tl].
  - rewrite append_empty. reflexivity.
  - cbn [Join]. rewrite !append_assoc. reflexivity.
Qed.

(** The module guessed for a remote package is the package path or
    the path of its first three parts. *)
Lemma remote_module_prefix (pkgPath : string) :
  exists rest,
    pkgPath = (remote_module pkgPath (Split pkgPath "/") ++ rest)%string /\
    (rest = EmptyString \/ HasPrefix rest "/" = true).
Proof.
  unfold remote_module.
  destruct ((3 <=? List.length (Split pkgPath "/"))%nat
            && (String.eqb (hd EmptyString (Split pkgPath "/")) "github.com"
                || String.eqb (hd EmptyString (Split pkgPath "/")) "gitlab.com"
                || String.eqb (hd EmptyString (Split pkgPath "/")) "bitbucket.org")) eqn:E.
  - apply andb_true_iff in E. destruct E as [Hlen _]. apply Nat.leb_le in Hlen.
    pose proof (Join_Split pkgPath "/") as HJ.
    destruct (Split pkgPath "/") as [|a [|b [|c tl]]]; simpl in Hlen; try lia.
    rewrite Join_first_three in HJ. cbn [firstn].
    eexists. split; [symmetry; exact HJ|].
    destruct tl; [left; reflexivity|right; reflexivity].
  - exists EmptyString. split; [symmetry; apply append_empty|left; reflexivity].
Qed.

(** X20.  [findModule] returns an empty module name only for an empty
    package path: a name read from a [go.mod] is returned only when it
    is not empty, and the name guessed for a remote package is the
    package path or begins with its host. *)
Theorem findModule_names_a_module (os : System) (pkgPath : string) :
  pkgPath <> EmptyString -> snd (findModule os pkgPath) <> EmptyString.
Proof.
  intros Hne. unfold findModule.
  destruct (find_local os (Split pkgPath "/") (List.length (Split pkgPath "/")))
    as [[root name]|] eqn:E.
  - exact (find_local_names os _ _ root name E).
  - cbn [snd]. unfold remote_module.
    destruct ((3 <=? List.length (Split pkgPath "/"))%nat) eqn:Hlen; [|exact Hne].
    cbn [andb]. apply Nat.leb_le in Hlen.
    destruct (Split pkgPath "/") as [|a [|b [|c tl]]]; simpl in Hlen; try lia.
    cbn [hd firstn].
    destruct (String.eqb a "github.com") eqn:E1.
    { apply String.eqb_eq in E1. subst a. discriminate. }
    destruct (String.eqb a "gitlab.com") eqn:E2.
    { apply String.eqb_eq in E2. subst a. discriminate. }
    destruct (String.eqb a "bitbucket.org") eqn:E3; [|exact Hne].
    apply String.eqb_eq in E3. subst a. discriminate.
Qed.

Lemma findModule_names_a_module_witness :
  snd (findModule (mkSystem (fun _ => EmptyString) "/home/u" (fun l => Join l "/")
                     (fun _ => false) (fun _ => None))
         "github.com/grokify/schemago/linter") <> EmptyString.
Proof.
  apply findModule_names_a_module. discriminate.
Defined.

(** X21.  When no [go.mod] that declares a module is found under the
    Go path, [findModule] returns an empty root and a guessed module
    name, and the guess is a leading part of the package path: the
    path itself, or the path cut before one of its slashes. *)
Theorem findModule_remote (os : System) (pkgPath : string) :
  (forall path content,
      Stat os path = true -> ReadFile os path = Some content ->
      parseModuleName content = EmptyString) ->
  fst (findModule os pkgPath) = EmptyString /\
  exists rest,
    pkgPath = (snd (findModule os pkgPath) ++ rest)%string /\
    (rest = EmptyString \/ HasPrefix rest "/" = true).
Proof.
  intros H. unfold findModule. rewrite (find_local_none os _ _ H). cbn [fst snd].
  split; [reflexivity|]. apply remote_module_prefix.
Qed.

Lemma findModule_remote_witness :
  fst (findModule (mkSystem (fun _ => EmptyString) "/home/u" (fun l => Join l "/")
                     (fun _ => false) (fun _ => None))
         "github.com/grokify/schemago/linter") = EmptyString
  /\ exists rest,
       "github.com/grokify/schemago/linter"
       = (snd (findModule (mkSystem (fun _ => EmptyString) "/home/u"
                             (fun l => Join l "/") (fun _ => false) (fun _ => None))
                 "github.com/grokify/schemago/linter") ++ rest)%string
       /\ (rest = EmptyString \/ HasPrefix rest "/" = true).
Proof.
  apply (findModule_remote
           (mkSystem (fun _ => EmptyString) "/home/u" (fun l => Join l "/")
              (fun _ => false) (fun _ => None))
           "github.com/grokify/schemago/linter").
  intros path content Hs. discriminate Hs.
Defined.

(** * The copy in [schema.go] once more *)

(** X22.  In [schema.go] too a member whose name designates no field
    of the struct and is not [additionalProperties] is ignored, whatever
    its value. *)
Theorem unknown_member_is_ignored_V1 (s : SchemaV1.Schema) (d1 d2 : string)
  (ms1 ms2 : list (string * json)) (k : string) (x : json) :
  SchemaV1.lookup_field k = None ->
  k <> "additionalProperties" ->
  parse d1 = Some (JObject (ms1 ++ (k, x) :: ms2)) ->
  parse d2 = Some (JObject (ms1 ++ ms2)) ->
  SchemaV1.UnmarshalJSON s d1 = SchemaV1.UnmarshalJSON s d2.
Proof.
  intros Hk Ha H1 H2. unfold SchemaV1.UnmarshalJSON, Unmarshal. rewrite H1, H2.
  rewrite !unmarshalJSON_V1_object.
  assert (Hf : unmarshal_fields (SchemaV1.alias_field SchemaV1.unmarshalJSON)
                 SchemaV1.zero (ms1 ++ (k, x) :: ms2)
               = unmarshal_fields (SchemaV1.alias_field SchemaV1.unmarshalJSON)
                   SchemaV1.zero (ms1 ++ ms2)).
  { rewrite !unmarshal_fields_app.
    destruct (unmarshal_fields (SchemaV1.alias_field SchemaV1.unmarshalJSON)
                SchemaV1.zero ms1) as [a1 e1].
    rewrite unmarshal_fields_cons. unfold SchemaV1.alias_field at 1. rewrite Hk.
    destruct (unmarshal_fields (SchemaV1.alias_field SchemaV1.unmarshalJSON) a1 ms2)
      as [a2 e2].
    reflexivity. }
  assert (Hr : raw_get "additionalProperties" (ms1 ++ (k, x) :: ms2)
               = raw_get "additionalProperties" (ms1 ++ ms2)).
  { rewrite !raw_get_app. simpl.
    destruct (raw_get "additionalProperties" ms2); [reflexivity|].
    destruct (String.eqb k "additionalProperties") eqn:E; [|reflexivity].
    apply String.eqb_eq in E. contradiction. }
  rewrite Hf, Hr. reflexivity.
Qed.

Lemma unknown_member_is_ignored_V1_witness :
  SchemaV1.UnmarshalJSON SchemaV1.zero (text "{'$ref':'#/a','minimum':1e999,'title':'t'}")
  = SchemaV1.UnmarshalJSON SchemaV1.zero (text "{'$ref':'#/a','title':'t'}").
Proof.
  apply (unknown_member_is_ignored_V1 SchemaV1.zero _ _
           [("$ref", JString "#/a")] [("title", JString "t")] "minimum" (JNumber "1e999")).
  - vm_compute. reflexivity.
  - discriminate.
  - vm_compute. reflexivity.
  - vm_compute. reflexivity.
Defined.
